(** * Snapchat memories downloader: the acquisition-and-compositing pipeline

    A shallow embedding of [main.py]: the [Memory] record and its date
    parsing, the payload classifier and archive handling of
    [download_memory], the EXIF coordinate encoding of [add_exif_data], and
    the statistics and semaphore discipline of [download_all].

    Text is modelled as [string] over 8-bit characters (Latin-1 code
    points), payloads as [list byte], Python [int] as [Z], Python [float]
    as IEEE binary64 values ([spec_float] with precision 53). *)

From Stdlib Require Import ZArith List Bool Lia QArith Qabs Qround.
From Stdlib Require Import Strings.Ascii Strings.String Strings.Byte.
From Stdlib Require Import SpecFloat.
From stdpp Require Import base option gmap strings.

Import ListNotations.
Open Scope string_scope.
Open Scope Z_scope.

(** ** Python string primitives used by the source *)

Definition bytes := list byte.

Definition in_range (lo hi n : N) : bool := ((lo <=? n) && (n <=? hi))%N.

(** [str.lower()] on one Latin-1 code point: [A-Z] and the accented
    capitals U+00C0..U+00DE (without the multiplication sign U+00D7) move
    up by 32, everything else is unchanged. *)
Definition lower_char (c : ascii) : ascii :=
  let n := N_of_ascii c in
  if in_range 65 90 n || (in_range 192 222 n && negb (n =? 215)%N)
  then ascii_of_N (n + 32) else c.

(** [s.lower()] *)
Fixpoint lower (s : string) : string :=
  match s with
  | EmptyString => EmptyString
  | String c s' => String (lower_char c) (lower s')
  end.

(** [s.startswith(p)] *)
Fixpoint startswith (s p : string) {struct p} : bool :=
  match p, s with
  | EmptyString, _ => true
  | String _ _, EmptyString => false
  | String a p', String b s' => Ascii.eqb a b && startswith s' p'
  end.

(** [sub in s] for strings *)
Fixpoint str_in (sub s : string) : bool :=
  startswith s sub ||
  match s with
  | EmptyString => false
  | String _ s' => str_in sub s'
  end.

(** [a == b] on [bytes] *)
Fixpoint bytes_eqb (a b : bytes) : bool :=
  match a, b with
  | [], [] => true
  | x :: a', y :: b' => Byte.eqb x y && bytes_eqb a' b'
  | _, _ => false
  end.

(** ** Payload classifier ([download_memory], "Detect ZIP") *)

(** What [client.get] hands back once [raise_for_status] has passed: the
    [Content-Type] header (absent or a string) and the body. *)
Record Response := mkResponse {
  content_type : option string;
  content : bytes
}.

(** [b"PK\x03\x04"] *)
Definition zip_signature : bytes := [x50; x4b; x03; x04].

(** [response.headers.get("Content-Type", "")] *)
Definition headers_get_content_type (r : Response) : string :=
  match content_type r with Some v => v | None => "" end.

(** The [is_zip] flag of [download_memory]. *)
Definition is_zip (r : Response) : bool :=
  startswith (lower (headers_get_content_type r)) "application/zip"
  || bytes_eqb (firstn 4 (content r)) zip_signature.

(** *** The classification rule in the specification's words *)

(** Two characters are equal up to case: identical, or the same ASCII
    letter in different cases. *)
Definition same_letter_nocase (a b : ascii) : bool :=
  let x := N_of_ascii a in
  let y := N_of_ascii b in
  (x =? y)%N
  || (in_range 65 90 x && (y =? x + 32)%N)
  || (in_range 65 90 y && (x =? y + 32)%N).

(** [s] begins with [p], compared case-insensitively. *)
Fixpoint begins_nocase (p s : string) {struct p} : bool :=
  match p, s with
  | EmptyString, _ => true
  | String _ _, EmptyString => false
  | String a p', String b s' => same_letter_nocase a b && begins_nocase p' s'
  end.

Definition archive_mime_prefix : string := "application/zip".

(** Section 4.3: composite when the declared content type begins with the
    archive MIME prefix, case-insensitively, or the body begins with the
    local-file-header signature. *)
Definition spec_is_composite (ct : option string) (body : bytes) : Prop :=
  (exists v, ct = Some v /\ begins_nocase archive_mime_prefix v = true)
  \/ (exists rest, body = x50 :: x4b :: x03 :: x04 :: rest).

(** Every 8-bit character, for exhaustive checks. *)
Definition all_ascii : list ascii := List.map ascii_of_nat (seq 0 256).

(** A pattern character on which [lower_char] acts as plain
    case-insensitive matching: seven-bit and not a capital. *)
Definition plain_lower_char (a : ascii) : bool :=
  (N_of_ascii a <? 128)%N && negb (in_range 65 90 (N_of_ascii a)).

Fixpoint plain_lower (p : string) : bool :=
  match p with
  | EmptyString => true
  | String a p' => plain_lower_char a && plain_lower p'
  end.

(** ** Python [float] arithmetic (IEEE binary64) *)

Definition float := spec_float.

Definition fmul : float -> float -> float := SFmul 53 1024.
Definition fsub : float -> float -> float := SFsub 53 1024.
Definition fdiv : float -> float -> float := SFdiv 53 1024.
Definition fabs : float -> float := SFabs.

(** [float(n)] for an integer that a double represents exactly. *)
Definition float_of_Z (n : Z) : float := binary_normalize 53 1024 n 0 false.

Global Arguments float_of_Z : simpl never.
Global Arguments fmul : simpl never.
Global Arguments fsub : simpl never.
Global Arguments fdiv : simpl never.

(** [int(x)]: truncation toward zero; [ValueError] on NaN and
    [OverflowError] on an infinity are [None]. *)
Definition py_int (x : float) : option Z :=
  match x with
  | S754_zero _ => Some 0
  | S754_finite s m e =>
      let a := if 0 <=? e then Z.pos m * 2 ^ e else Z.pos m / 2 ^ (- e) in
      Some (if s then - a else a)
  | S754_infinity _ | S754_nan => None
  end.

(** [x >= 0] *)
Definition py_ge0 (x : float) : bool :=
  match SFcompare x (S754_zero false) with
  | Some Gt | Some Eq => true
  | _ => false
  end.

(** [a / b] rounded to the nearest integer, ties to even ([0 < b]). *)
Definition div_half_even (a b : Z) : Z :=
  let q := a / b in
  let r := a mod b in
  match 2 * r ?= b with
  | Lt => q
  | Gt => q + 1
  | Eq => if Z.even q then q else q + 1
  end.

(** The integer nearest to [|x| * 10^k], ties to even, computed on the
    exact binary value of [x]. *)
Definition scaled_round (k : Z) (x : float) : Z :=
  match x with
  | S754_finite _ m e =>
      if 0 <=? e then Z.pos m * 2 ^ e * 10 ^ k
      else div_half_even (Z.pos m * 10 ^ k) (2 ^ (- e))
  | _ => 0
  end.

(** [round(x, ndigits)] for [ndigits >= 0]: the double nearest to the exact
    value of [x] rounded half-even to [ndigits] decimals.  Exact whenever
    [|x| * 10^ndigits < 2^53], which covers the seconds value in
    [0, 60] that [to_deg] rounds. *)
Definition py_round (x : float) (ndigits : Z) : float :=
  match x with
  | S754_finite s _ _ =>
      let n := scaled_round ndigits x in
      fdiv (binary_normalize 53 1024 (if s then - n else n) 0 s)
           (float_of_Z (10 ^ ndigits))
  | _ => x
  end.

(** The double a decimal literal [n / 10^k] denotes ([n] and [10^k] exact). *)
Definition float_lit (n : Z) (k : Z) : float :=
  fdiv (float_of_Z n) (float_of_Z (10 ^ k)).

Global Arguments py_round : simpl never.
Global Arguments py_int : simpl never.

(** ** EXIF coordinate encoding ([add_exif_data]) *)

(** [to_deg]: decimal degrees to (deg, min, sec). *)
Definition to_deg (value : float) : option (Z * Z * float) :=
  d ← py_int (fabs value);
  let m_float := fmul (fsub (fabs value) (float_of_Z d)) (float_of_Z 60) in
  m ← py_int m_float;
  let s := py_round (fmul (fsub m_float (float_of_Z m)) (float_of_Z 60)) 6 in
  Some (d, m, s).

(** [deg_to_rational]: (deg, min, sec) to the EXIF rational triple. *)
Definition deg_to_rational (dms : Z * Z * float) : option (list (Z * Z)) :=
  let '(d, m, s) := dms in
  n ← py_int (fmul s (float_of_Z 100));
  Some [(d, 1); (m, 1); (n, 100)].

(** The GPS block of the EXIF dictionary. *)
Record GpsIfd := mkGpsIfd {
  GPSLatitudeRef : string;
  GPSLongitudeRef : string;
  GPSLatitude : list (Z * Z);
  GPSLongitude : list (Z * Z);
  GPSVersionID : list Z
}.

(** The body of [if memory.latitude is not None and memory.longitude is
    not None]; [None] is an exception raised by [int]. *)
Definition gps_block (latitude longitude : float) : option GpsIfd :=
  let lat_ref := if py_ge0 latitude then "N" else "S" in
  let lon_ref := if py_ge0 longitude then "E" else "W" in
  lat_dms ← to_deg latitude ≫= deg_to_rational;
  lon_dms ← to_deg longitude ≫= deg_to_rational;
  Some (mkGpsIfd lat_ref lon_ref lat_dms lon_dms [2; 3; 0; 0]).

(** *** The encoding in the specification's words *)

(** The exact value of a finite double. *)
Definition float_to_Q (x : float) : Q :=
  match x with
  | S754_finite s m e =>
      let a := if 0 <=? e then inject_Z (Z.pos m * 2 ^ e)
               else Z.pos m # Z.to_pos (2 ^ (- e)) in
      if s then Qopp a else a
  | _ => 0%Q
  end.

Definition Qfloor_nearest (q : Q) : Z := div_half_even (Qnum q) (Z.pos (Qden q)).

(** Degrees, minutes and the seconds rounded to two decimals, as rationals
    with denominators 1, 1 and 100. *)
Definition spec_dms (v : Q) : list (Z * Z) :=
  let a := Qabs v in
  let d := Qfloor a in
  let mq := ((a - inject_Z d) * 60)%Q in
  let m := Qfloor mq in
  let sq := ((mq - inject_Z m) * 60)%Q in
  [(d, 1); (m, 1); (Qfloor_nearest (sq * 100)%Q, 100)].

(** Reading an EXIF rational triple back as decimal degrees. *)
Definition dms_to_degrees (t : list (Z * Z)) : option Q :=
  match t with
  | [(d, Z.pos dd); (m, Z.pos md); (s, Z.pos sd)] =>
      Some ((d # dd) + (m # md) / 60 + (s # sd) / 3600)%Q
  | _ => None
  end.

(** *** The encoding the code performs, in words

    The integer part of a rational (rounding toward zero), the seconds of
    a decimal-degree value computed exactly, and the triple as the code
    builds it: every operation is the binary64 one, the degrees and the
    minutes are integer parts, the seconds are rounded to 6 decimals, and
    the seconds numerator is the integer part of the product by 100. *)

Definition Qtrunc (q : Q) : Z := Z.quot (Qnum q) (Z.pos (Qden q)).

Definition exact_seconds (v : Q) : Q :=
  let a := Qabs v in
  let d := Qfloor a in
  let mq := ((a - inject_Z d) * 60)%Q in
  let m := Qfloor mq in
  ((mq - inject_Z m) * 60)%Q.

Definition encodes_dms (v : float) (t : list (Z * Z)) : Prop :=
  exists d m n : Z,
    let minutes := fmul (fsub (fabs v) (float_of_Z d)) (float_of_Z 60) in
    let seconds :=
      py_round (fmul (fsub minutes (float_of_Z m)) (float_of_Z 60)) 6 in
    py_int (fabs v) = Some d
    /\ py_int minutes = Some m
    /\ py_int (fmul seconds (float_of_Z 100)) = Some n
    /\ t = [(d, 1); (m, 1); (n, 100)].

(** ** Exceptions and results *)

(** The Python exception classes the pipeline can meet. *)
Inductive exn :=
  | ValueError (msg : string)
  | OverflowError
  | HTTPError
  | BadZipFile
  | UnidentifiedImageError
  | OSError
  | CalledProcessError.

Inductive result (A : Type) :=
  | Ok (a : A)
  | Raise (e : exn).
Global Arguments Ok {A} a.
Global Arguments Raise {A} e.

(** ** Decimal rendering *)

Definition digit_char (d : Z) : ascii := ascii_of_N (48 + Z.to_N d).

Fixpoint decimal_go (fuel : nat) (n : Z) (acc : string) : string :=
  match fuel with
  | O => acc
  | S fuel' =>
      let acc' := String (digit_char (n mod 10)) acc in
      if n <? 10 then acc' else decimal_go fuel' (n / 10) acc'
  end.

(** [str(n)] for [n >= 0] *)
Definition decimal (n : Z) : string :=
  decimal_go (S (Z.to_nat (Z.log2 n))) n "".

(** [%02d] *)
Definition pad2 (n : Z) : string :=
  String (digit_char (n / 10 mod 10)) (String (digit_char (n mod 10)) "").

(** ** Civil time ([datetime]) *)

(** The fields of a naive [datetime]. *)
Record civil := mkCivil {
  year : Z; month : Z; day : Z;
  hour : Z; minute : Z; second : Z
}.

Definition is_leap (y : Z) : bool :=
  (y mod 4 =? 0) && (negb (y mod 100 =? 0) || (y mod 400 =? 0)).

Definition days_in_month (y m : Z) : Z :=
  if m =? 2 then (if is_leap y then 29 else 28)
  else if (m =? 4) || (m =? 6) || (m =? 9) || (m =? 11) then 30
  else 31.

(** Days since 1970-01-01 of a proleptic Gregorian date. *)
Definition days_from_civil (y m d : Z) : Z :=
  let y' := if m <=? 2 then y - 1 else y in
  let era := y' / 400 in
  let yoe := y' - era * 400 in
  let doy := (153 * (if 2 <? m then m - 3 else m + 9) + 2) / 5 + d - 1 in
  let doe := yoe * 365 + yoe / 4 - yoe / 100 + doy in
  era * 146097 + doe - 719468.

(** The proleptic Gregorian date of a day number. *)
Definition civil_from_days (z0 : Z) : Z * Z * Z :=
  let z := z0 + 719468 in
  let era := z / 146097 in
  let doe := z - era * 146097 in
  let yoe := (doe - doe / 1460 + doe / 36524 - doe / 146096) / 365 in
  let y := yoe + era * 400 in
  let doy := doe - (365 * yoe + yoe / 4 - yoe / 100) in
  let mp := (5 * doy + 2) / 153 in
  let d := doy - (153 * mp + 2) / 5 + 1 in
  let m := if mp <? 10 then mp + 3 else mp - 9 in
  (if m <=? 2 then y + 1 else y, m, d).

(** Seconds since the epoch of a civil time read as UTC. *)
Definition epoch_of_civil (c : civil) : Z :=
  days_from_civil (year c) (month c) (day c) * 86400
  + hour c * 3600 + minute c * 60 + second c.

(** The civil time, read as UTC, of an instant. *)
Definition civil_of_epoch (t : Z) : civil :=
  let '(y, m, d) := civil_from_days (t / 86400) in
  let r := t mod 86400 in
  mkCivil y m d (r / 3600) (r mod 3600 / 60) (r mod 60).

Definition valid_civil (c : civil) : bool :=
  (1 <=? year c) && (year c <=? 9999)
  && (1 <=? month c) && (month c <=? 12)
  && (1 <=? day c) && (day c <=? days_in_month (year c) (month c))
  && (0 <=? hour c) && (hour c <=? 23)
  && (0 <=? minute c) && (minute c <=? 59)
  && (0 <=? second c) && (second c <=? 59).

(** ** [datetime.strptime(v, "%Y-%m-%d %H:%M:%S UTC")]

    The format compiles to the regular expression
    [(\d\d\d\d)-(1[0-2]|0[1-9]|[1-9])-(3[0-1]|[1-2]\d|0[1-9]|[1-9]| [1-9])\s+(2[0-3]|[0-1]\d|\d):([0-5]\d|\d):(6[0-1]|[0-5]\d|\d)\s+UTC],
    matched case-insensitively at the start of the string.  A parser
    lists its matches in the order the backtracking matcher tries them, so
    the head of the list is the match the regular expression finds. *)

Definition parser (A : Type) := string -> list (A * string).

Definition p_ret {A} (a : A) : parser A := fun s => [(a, s)].

Definition p_bind {A B} (p : parser A) (f : A -> parser B) : parser B :=
  fun s => flat_map (fun '(a, r) => f a r) (p s).

Definition p_alt {A} (p q : parser A) : parser A := fun s => (p s ++ q s)%list.

Global Instance parser_ret : MRet parser := @p_ret.
Global Instance parser_bind : MBind parser := fun A B f p => p_bind p f.

(** One character satisfying [f]. *)
Definition p_char {A} (f : ascii -> option A) : parser A :=
  fun s =>
    match s with
    | String c r => match f c with Some v => [(v, r)] | None => [] end
    | EmptyString => []
    end.

(** A digit in the class [[lo-hi]], as its value. *)
Definition p_digit (lo hi : Z) : parser Z :=
  p_char (fun c =>
    let n := Z.of_N (N_of_ascii c) - 48 in
    if (lo <=? n) && (n <=? hi) then Some n else None).

(** Two digit classes in a row, as the two-digit number. *)
Definition p_two (lo1 hi1 lo2 hi2 : Z) : parser Z :=
  a ← p_digit lo1 hi1; b ← p_digit lo2 hi2; mret (10 * a + b).

(** A literal character; letters match in either case. *)
Definition p_lit (a : ascii) : parser unit :=
  p_char (fun c => if Ascii.eqb (lower_char c) (lower_char a) then Some tt else None).

(** [\s] on Latin-1 code points. *)
Definition is_space (c : ascii) : bool :=
  let n := N_of_ascii c in
  in_range 9 13 n || in_range 28 32 n || (n =? 133)%N || (n =? 160)%N.

(** [\s*], greedy: the longest run first. *)
Fixpoint ws_star (s : string) : list (unit * string) :=
  match s with
  | String c r => if is_space c then (ws_star r ++ [(tt, s)])%list else [(tt, s)]
  | EmptyString => [(tt, s)]
  end.

(** [\s+] *)
Definition ws_plus : parser unit :=
  fun s =>
    match s with
    | String c r => if is_space c then ws_star r else []
    | EmptyString => []
    end.

Definition re_Y : parser Z :=
  a ← p_digit 0 9; b ← p_digit 0 9; c ← p_digit 0 9; d ← p_digit 0 9;
  mret (1000 * a + 100 * b + 10 * c + d).

Definition re_m : parser Z :=
  p_alt (p_two 1 1 0 2) (p_alt (p_two 0 0 1 9) (p_digit 1 9)).

Definition re_d : parser Z :=
  p_alt (p_two 3 3 0 1)
    (p_alt (p_two 1 2 0 9)
       (p_alt (p_two 0 0 1 9)
          (p_alt (p_digit 1 9) (p_lit " " ;; p_digit 1 9)))).

Definition re_H : parser Z :=
  p_alt (p_two 2 2 0 3) (p_alt (p_two 0 1 0 9) (p_digit 0 9)).

Definition re_M : parser Z :=
  p_alt (p_two 0 5 0 9) (p_digit 0 9).

Definition re_S : parser Z :=
  p_alt (p_two 6 6 0 1) (p_alt (p_two 0 5 0 9) (p_digit 0 9)).

Definition strptime_regex : parser civil :=
  Y ← re_Y; p_lit "-" ;; m ← re_m; p_lit "-" ;; d ← re_d;
  ws_plus ;;
  H ← re_H; p_lit ":" ;; M ← re_M; p_lit ":" ;; S ← re_S;
  ws_plus ;; p_lit "U" ;; p_lit "T" ;; p_lit "C" ;;
  mret (mkCivil Y m d H M S).

(** [datetime.strptime]: the regular expression must match, nothing may
    remain after the match, and the fields must form a date and time. *)
Definition strptime (v : string) : result civil :=
  match strptime_regex v with
  | [] => Raise (ValueError "time data does not match format")
  | (c, rest) :: _ =>
      match rest with
      | String _ _ => Raise (ValueError "unconverted data remains")
      | EmptyString =>
          if valid_civil c then Ok c
          else Raise (ValueError "field out of range")
      end
  end.

(** ** Aware datetimes and the collaborators outside the repository *)

Inductive tzinfo := TzUTC | TzLosAngeles.

(** An aware [datetime]: the instant it denotes (seconds since the epoch)
    and its zone.  The wall-clock fields are derived from both. *)
Record datetime := mkDatetime { instant : Z; tz : tzinfo }.

Inductive ImageMode := RGB | RGBA | OtherMode.
Inductive Resampling := NEAREST | BILINEAR | BICUBIC | LANCZOS.

(** A decoded PIL image: (width, height), mode, and the raster. *)
Record Image := mkImage {
  im_size : Z * Z;
  im_mode : ImageMode;
  im_data : list Z
}.

(** An opened [zipfile.ZipFile]: [namelist()] and [read(name)]. *)
Record ZipFile := mkZipFile {
  namelist : list string;
  zf_read : string -> option bytes
}.

(** How a [subprocess.run(..., check=True)] of ffmpeg ends: exit status 0
    with the output file, a non-zero status (possibly leaving a partial
    output file behind), or the process could not be started. *)
Inductive ToolResult :=
  | Exit0 (out : bytes)
  | ExitNonZero (partial : option bytes)
  | SpawnFailed.

Inductive exif_value :=
  | ExifAscii (s : string)
  | ExifRationals (r : list (Z * Z))
  | ExifBytes (b : list Z)
  | ExifRaw (b : bytes).

(** The dictionary [piexif.load] returns. *)
Record ExifDict := mkExifDict {
  ifd_0th : gmap Z exif_value;
  ifd_Exif : gmap Z exif_value;
  ifd_GPS : gmap Z exif_value;
  ifd_1st : gmap Z exif_value;
  thumbnail : option bytes
}.

(** The libraries, the network and the external tool, as the pipeline sees
    them. *)
Record Env := mkEnv {
  (** UTC offset, in seconds, of America/Los_Angeles at an instant *)
  la_utcoffset : Z -> Z;
  (** [re.search(r"([-\d.]+),\s*([-\d.]+)", s)]: the two groups *)
  re_search_coords : string -> option (string * string);
  (** [float(s)]; [None] is [ValueError] *)
  py_float : string -> option float;
  (** [client.get(url)] followed by [raise_for_status()] *)
  http_get : string -> option Response;
  (** [zipfile.ZipFile(io.BytesIO(content))] *)
  zip_open : bytes -> option ZipFile;
  (** [Image.open(io.BytesIO(data))], decoded *)
  pil_open : bytes -> option Image;
  (** raster conversion between modes *)
  px_convert : ImageMode -> ImageMode -> Z * Z -> list Z -> list Z;
  (** raster resampling from one size to another *)
  px_resample : Resampling -> Z * Z -> Z * Z -> list Z -> list Z;
  (** alpha compositing of two RGBA rasters of one size *)
  px_over : Z * Z -> list Z -> list Z -> list Z;
  (** alpha compositing of a smaller or larger raster at the origin *)
  px_over_at_origin : Z * Z -> Z * Z -> list Z -> list Z -> list Z;
  (** the JPEG encoder *)
  jpeg_encode : ImageMode -> Z * Z -> list Z -> option bytes;
  (** ffmpeg, overlay merge: main video, overlay image *)
  ffmpeg_overlay : bytes -> bytes -> ToolResult;
  (** ffmpeg, metadata remux: input video, the [-metadata] arguments *)
  ffmpeg_metadata : bytes -> list string -> ToolResult;
  (** [piexif.load] *)
  piexif_load : bytes -> option ExifDict;
  (** [piexif.dump] then [piexif.insert]: the file's new content *)
  piexif_insert : ExifDict -> bytes -> option bytes
}.

(** ** Files of the output directory *)

(** A file: its content and the timestamp [os.utime] gave it ([None]
    while it still carries the time of its last write). *)
Record File := mkFile { f_data : bytes; f_times : option Z }.

(** Code that reads and writes the output directory and may raise. *)
Definition io (A : Type) : Type :=
  gmap string File -> result A * gmap string File.

Definition io_ret {A} (a : A) : io A := fun fs => (Ok a, fs).

Definition io_bind {A B} (m : io A) (f : A -> io B) : io B :=
  fun fs =>
    match m fs with
    | (Ok a, fs') => f a fs'
    | (Raise e, fs') => (Raise e, fs')
    end.

Global Instance io_mret : MRet io := @io_ret.
Global Instance io_mbind : MBind io := fun A B f m => io_bind m f.

Definition raise {A} (e : exn) : io A := fun fs => (Raise e, fs).

(** [try: m  except Exception as e: h e] *)
Definition try_except {A} (m : io A) (h : exn -> io A) : io A :=
  fun fs =>
    match m fs with
    | (Ok a, fs') => (Ok a, fs')
    | (Raise e, fs') => h e fs'
    end.

Definition or_raise {A} (o : option A) (e : exn) : io A :=
  match o with Some a => io_ret a | None => raise e end.

(** [path.write_bytes(data)] *)
Definition write_bytes (path : string) (data : bytes) : io unit :=
  fun fs => (Ok tt, <[path := mkFile data None]> fs).

(** [path.read_bytes()] *)
Definition read_bytes (path : string) : io bytes :=
  fun fs =>
    match fs !! path with
    | Some f => (Ok (f_data f), fs)
    | None => (Raise OSError, fs)
    end.

(** [os.utime(path, (t, t))] *)
Definition utime (path : string) (t : Z) : io unit :=
  fun fs =>
    match fs !! path with
    | Some f => (Ok tt, <[path := mkFile (f_data f) (Some t)]> fs)
    | None => (Raise OSError, fs)
    end.

(** [src.replace(dst)] *)
Definition replace_file (src dst : string) : io unit :=
  fun fs =>
    match fs !! src with
    | Some f => (Ok tt, <[dst := f]> (delete src fs))
    | None => (Raise OSError, fs)
    end.

(** [os.path.exists(path)] *)
Definition path_exists (path : string) : io bool :=
  fun fs => (Ok (bool_decide (is_Some (fs !! path))), fs).

(** [os.remove(path)] *)
Definition remove_file (path : string) : io unit :=
  fun fs =>
    match fs !! path with
    | Some _ => (Ok tt, delete path fs)
    | None => (Raise OSError, fs)
    end.

(** ** [pathlib] suffix handling *)

(** [s.rfind(c)] *)
Fixpoint rfind (c : ascii) (s : string) : option nat :=
  match s with
  | EmptyString => None
  | String a r =>
      match rfind c r with
      | Some i => Some (S i)
      | None => if Ascii.eqb a c then Some O else None
      end
  end.

(** [PurePath.suffix] of a file name *)
Definition suffix (name : string) : string :=
  match rfind "." name with
  | Some i =>
      if (0 <? i)%nat && (i <? String.length name - 1)%nat
      then substring i (String.length name - i) name
      else ""
  | None => ""
  end.

(** [PurePath.with_suffix] on a file name *)
Definition with_suffix (name suf : string) : string :=
  substring 0 (String.length name - String.length (suffix name)) name ++ suf.

(** ** The [Memory] record *)

Record Memory := mkMemory {
  date : datetime;
  media_type : string;
  download_link : string;
  location : string;
  latitude : option float;
  longitude : option float
}.

(** [memory.media_type.lower() == kind] *)
Definition media_is (memory : Memory) (kind : string) : bool :=
  String.eqb (lower (media_type memory)) kind.

Section Pipeline.

Variable E : Env.

(** [tz.utcoffset] at an instant, in seconds *)
Definition utcoffset (z : tzinfo) (t : Z) : Z :=
  match z with
  | TzUTC => 0
  | TzLosAngeles => la_utcoffset E t
  end.

(** The wall-clock fields a [datetime] shows. *)
Definition wall (dt : datetime) : civil :=
  civil_of_epoch (instant dt + utcoffset (tz dt) (instant dt)).

(** [dt.astimezone(z)]: the same instant in zone [z]; [OverflowError] when
    the wall-clock year leaves [1, 9999]. *)
Definition astimezone (dt : datetime) (z : tzinfo) : result datetime :=
  let dt' := mkDatetime (instant dt) z in
  if (1 <=? year (wall dt')) && (year (wall dt') <=? 9999)
  then Ok dt' else Raise OverflowError.

(** [dt.timestamp()] *)
Definition timestamp (dt : datetime) : Z := instant dt.

(** [Memory.parse_date] on a string. *)
Definition parse_date (v : string) : result datetime :=
  match strptime v with
  | Raise e => Raise e
  | Ok c =>
      (* dt.replace(tzinfo=timezone.utc) *)
      let dt := mkDatetime (epoch_of_civil c) TzUTC in
      astimezone dt TzLosAngeles
  end.

(** [not self.latitude] *)
Definition falsy_float (x : option float) : bool :=
  match x with
  | None => true
  | Some (S754_zero _) => true
  | Some _ => false
  end.

(** [Memory.model_post_init]; [None] is the [ValueError] of [float]. *)
Definition model_post_init (m : Memory) : option Memory :=
  if negb (String.eqb (location m) "") && falsy_float (latitude m) then
    match re_search_coords E (location m) with
    | Some (g1, g2) =>
        lat ← py_float E g1;
        lon ← py_float E g2;
        Some (mkMemory (date m) (media_type m) (download_link m) (location m)
                       (Some lat) (Some lon))
    | None => Some m
    end
  else Some m.

(** Construction of a [Memory] from a manifest item whose [Date] is a
    string. *)
Definition make_memory (Date MediaType Url Location : string)
    (lat lon : option float) : result Memory :=
  match parse_date Date with
  | Raise e => Raise e
  | Ok d =>
      match model_post_init (mkMemory d MediaType Url Location lat lon) with
      | Some m => Ok m
      | None => Raise (ValueError "could not convert string to float")
      end
  end.

(** [memory.date.strftime('%Y-%m-%d_%H-%M-%S')] *)
Definition strftime_file (c : civil) : string :=
  decimal (year c) ++ "-" ++ pad2 (month c) ++ "-" ++ pad2 (day c) ++ "_"
  ++ pad2 (hour c) ++ "-" ++ pad2 (minute c) ++ "-" ++ pad2 (second c).

(** [memory.date.strftime("%Y:%m:%d %H:%M:%S")] *)
Definition strftime_exif (c : civil) : string :=
  decimal (year c) ++ ":" ++ pad2 (month c) ++ ":" ++ pad2 (day c) ++ " "
  ++ pad2 (hour c) ++ ":" ++ pad2 (minute c) ++ ":" ++ pad2 (second c).

(** [dt_utc.strftime("%Y-%m-%dT%H:%M:%S.%f")[:-3] + "Z"] *)
Definition strftime_iso (c : civil) : string :=
  decimal (year c) ++ "-" ++ pad2 (month c) ++ "-" ++ pad2 (day c) ++ "T"
  ++ pad2 (hour c) ++ ":" ++ pad2 (minute c) ++ ":" ++ pad2 (second c)
  ++ ".000" ++ "Z".

(** [Memory.filename] *)
Definition filename (m : Memory) : string :=
  let ext := if media_is m "image" then ".jpg" else ".mp4" in
  strftime_file (wall (date m)) ++ ext.

(** ** PIL operations *)

(** The image already has the target mode ([RGB] or [RGBA]). *)
Definition same_mode (a b : ImageMode) : bool :=
  match a, b with
  | RGB, RGB | RGBA, RGBA => true
  | _, _ => false
  end.

(** [im.convert(mode)] for a target mode [RGB] or [RGBA]: a copy when the
    image already has that mode. *)
Definition convert (im : Image) (mode : ImageMode) : Image :=
  if same_mode (im_mode im) mode then im
  else mkImage (im_size im) mode
               (px_convert E (im_mode im) mode (im_size im) (im_data im)).

Definition size_eqb (a b : Z * Z) : bool :=
  (fst a =? fst b) && (snd a =? snd b).

(** [im.resize(size, resample)]: a copy when the size already fits. *)
Definition resize (im : Image) (size : Z * Z) (resample : Resampling) : Image :=
  if size_eqb (im_size im) size then im
  else mkImage size (im_mode im) (px_resample E resample (im_size im) size (im_data im)).

Definition is_rgba (m : ImageMode) : bool :=
  match m with RGBA => true | _ => false end.

(** [self.alpha_composite(im)], in place, with the default [dest] and
    [source]: the whole image when both sizes agree, else the region the
    overlay covers from the origin. *)
Definition alpha_composite (self im : Image) : result Image :=
  if is_rgba (im_mode self) && is_rgba (im_mode im) then
    if size_eqb (im_size im) (im_size self)
    then Ok (mkImage (im_size self) RGBA
                     (px_over E (im_size self) (im_data self) (im_data im)))
    else Ok (mkImage (im_size self) RGBA
                     (px_over_at_origin E (im_size self) (im_size im)
                                        (im_data self) (im_data im)))
  else Raise (ValueError "images do not match").

(** [im.save(path, "JPEG")].  [Image.save] notes whether the file is
    there, opens it with mode ["w+b"], which creates it or empties it, and
    only then runs the encoder; when the encoder raises, the file is removed
    again if the call had created it, and an older file stays behind
    empty. *)
Definition save_jpeg (im : Image) (path : string) : io unit :=
  existed ← path_exists path;
  write_bytes path [];;
  try_except
    (match im_mode im with
     | RGBA => raise OSError
     | mode =>
         data ← or_raise (jpeg_encode E mode (im_size im) (im_data im)) OSError;
         write_bytes path data
     end)
    (fun e =>
       (if existed : bool then mret tt else remove_file path);;
       raise e).

(** Truthiness of [overlay_data]: present and not empty. *)
Definition overlay_present (overlay_data : option bytes) : option bytes :=
  match overlay_data with
  | Some (b :: r) => Some (b :: r)
  | _ => None
  end.

(** The "IMAGE MERGE" branch up to [merged_img]. *)
Definition merge_image (main_data : bytes) (overlay_data : option bytes)
    : result Image :=
  match pil_open E main_data with
  | None => Raise UnidentifiedImageError
  | Some main0 =>
      let main_img := convert main0 RGBA in
      let composited :=
        match overlay_present overlay_data with
        | Some ov =>
            match pil_open E ov with
            | None => Raise UnidentifiedImageError
            | Some ov0 =>
                let overlay_img := convert ov0 RGBA in
                let overlay_resized := resize overlay_img (im_size main_img) LANCZOS in
                alpha_composite main_img overlay_resized
            end
        | None => Ok main_img
        end in
      match composited with
      | Ok main_img' => Ok (convert main_img' RGB)
      | Raise e => Raise e
      end
  end.

Definition of_result {A} (r : result A) : io A :=
  match r with Ok a => io_ret a | Raise e => raise e end.

(** The "VIDEO MERGE" branch. *)
Definition merge_video (main_data : bytes) (overlay_data : option bytes)
    (output_path : string) : io unit :=
  match overlay_present overlay_data with
  | Some ov =>
      match ffmpeg_overlay E main_data ov with
      | Exit0 merged => write_bytes output_path merged
      | ExitNonZero _ => write_bytes output_path main_data
      | SpawnFailed => raise OSError
      end
  | None => write_bytes output_path main_data
  end.

(** ** Metadata writers *)

(** The [piexif] tag numbers the source uses. *)
Definition ImageIFD_DateTime : Z := 306.
Definition ExifIFD_DateTimeOriginal : Z := 36867.
Definition ExifIFD_DateTimeDigitized : Z := 36868.
Definition GPSIFD_GPSVersionID : Z := 0.
Definition GPSIFD_GPSLatitudeRef : Z := 1.
Definition GPSIFD_GPSLatitude : Z := 2.
Definition GPSIFD_GPSLongitudeRef : Z := 3.
Definition GPSIFD_GPSLongitude : Z := 4.

Definition default_exif : ExifDict := mkExifDict ∅ ∅ ∅ ∅ None.

Definition set_datetimes (dt_str : string) (d : ExifDict) : ExifDict :=
  mkExifDict
    (<[ImageIFD_DateTime := ExifAscii dt_str]> (ifd_0th d))
    (<[ExifIFD_DateTimeDigitized := ExifAscii dt_str]>
       (<[ExifIFD_DateTimeOriginal := ExifAscii dt_str]> (ifd_Exif d)))
    (ifd_GPS d) (ifd_1st d) (thumbnail d).

Definition set_gps (g : GpsIfd) (d : ExifDict) : ExifDict :=
  mkExifDict (ifd_0th d) (ifd_Exif d)
    (<[GPSIFD_GPSVersionID := ExifBytes (GPSVersionID g)]>
       (<[GPSIFD_GPSLongitude := ExifRationals (GPSLongitude g)]>
          (<[GPSIFD_GPSLatitude := ExifRationals (GPSLatitude g)]>
             (<[GPSIFD_GPSLongitudeRef := ExifAscii (GPSLongitudeRef g)]>
                (<[GPSIFD_GPSLatitudeRef := ExifAscii (GPSLatitudeRef g)]>
                   (ifd_GPS d))))))
    (ifd_1st d) (thumbnail d).

(** [add_exif_data]: every exception is printed and swallowed. *)
Definition add_exif_data (image_path : string) (memory : Memory) : io unit :=
  try_except
    (exif_dict ← try_except
                   (data ← read_bytes image_path;
                    or_raise (piexif_load E data) (ValueError "piexif.load"))
                   (fun _ => mret default_exif);
     let dt_str := strftime_exif (wall (date memory)) in
     let d1 := set_datetimes dt_str exif_dict in
     d2 ← match latitude memory, longitude memory with
          | Some lat, Some lon =>
              g ← or_raise (gps_block lat lon)
                    (ValueError "cannot convert float to integer");
              mret (set_gps g d1)
          | _, _ => mret d1
          end;
     data ← read_bytes image_path;
     new ← or_raise (piexif_insert E d2 data) (ValueError "piexif.insert");
     write_bytes image_path new;;
     utime image_path (timestamp (date memory)))
    (fun _ => mret tt).

(** [k] decimal digits of [n], zero-padded. *)
Fixpoint digits_fixed (k : nat) (n : Z) : string :=
  match k with
  | O => ""
  | S k' => digits_fixed k' (n / 10) ++ String (digit_char (n mod 10)) ""
  end.

(** [f"{x:+.kf}"] when [plus], [f"{x:.kf}"] otherwise. *)
Definition format_fixed (plus : bool) (x : float) (k : nat) : string :=
  let sign (s : bool) := if s then "-" else if plus then "+" else "" in
  match x with
  | S754_nan => sign false ++ "nan"
  | S754_infinity s => sign s ++ "inf"
  | S754_zero s => sign s ++ "0." ++ digits_fixed k 0
  | S754_finite s _ _ =>
      let n := scaled_round (Z.of_nat k) x in
      sign s ++ decimal (n / 10 ^ Z.of_nat k) ++ "."
      ++ digits_fixed k (n mod 10 ^ Z.of_nat k)
  end.

(** The [-metadata] arguments of [set_video_metadata]. *)
Definition metadata_args (memory : Memory) : list string :=
  let dt_utc := mkDatetime (instant (date memory)) TzUTC in
  let iso_time := strftime_iso (wall dt_utc) in
  let base := ["-metadata"; "creation_time=" ++ iso_time] in
  match latitude memory, longitude memory with
  | Some latitude, Some longitude =>
      let lat := format_fixed true latitude 4 in
      let lon := format_fixed true longitude 4 in
      (* getattr(memory, "altitude", 0.0): the record has no such field *)
      let alt := S754_zero false in
      let iso6709 := lat ++ lon ++ "+" ++ format_fixed false alt 3 ++ "/" in
      let located := ["-metadata"; "location=" ++ iso6709;
                      "-metadata"; "location-eng=" ++ iso6709] in
      List.app base located
  | _, _ => base
  end.

(** [set_video_metadata]: every exception is printed and swallowed. *)
Definition set_video_metadata (video_path : string) (memory : Memory) : io unit :=
  try_except
    (let temp_path := with_suffix video_path ".temp.mp4" in
     data ← read_bytes video_path;
     match ffmpeg_metadata E data (metadata_args memory) with
     | Exit0 out =>
         write_bytes temp_path out;;
         replace_file temp_path video_path;;
         utime video_path (timestamp (date memory))
     | ExitNonZero partial =>
         match partial with
         | Some b => write_bytes temp_path b
         | None => mret tt
         end;;
         raise CalledProcessError
     | SpawnFailed => raise OSError
     end)
    (fun _ => mret tt).

(** ** [download_memory] *)

(** [next((f for f in files if sub in f), None)] *)
Definition first_with (sub : string) (files : list string) : option string :=
  List.find (str_in sub) files.

(** The body of the [if is_zip:] branch. *)
Definition unpack_and_merge (memory : Memory) (output_path : string)
    (content : bytes) : io unit :=
  zf ← or_raise (zip_open E content) BadZipFile;
  let files := namelist zf in
  let main_file := first_with "-main" files in
  let overlay_file := first_with "-overlay" files in
  match main_file with
  | None => raise (ValueError "No main media file found in ZIP.")
  | Some main_name =>
      main_data ← or_raise (zf_read zf main_name) BadZipFile;
      overlay_data ← match overlay_file with
                     | Some f => b ← or_raise (zf_read zf f) BadZipFile; mret (Some b)
                     | None => mret None
                     end;
      if media_is memory "image" then
        merged_img ← of_result (merge_image main_data overlay_data);
        save_jpeg merged_img output_path
      else if media_is memory "video" then
        merge_video main_data overlay_data output_path
      else
        raise (ValueError ("Unsupported media type: " ++ media_type memory))
  end.

(** Persisting the asset: the archive branch or the "NORMAL DOWNLOAD". *)
Definition persist_asset (memory : Memory) (output_path : string)
    (response : Response) : io unit :=
  if is_zip response
  then unpack_and_merge memory output_path (content response)
  else write_bytes output_path (content response).

(** "Apply metadata" *)
Definition apply_metadata (memory : Memory) (add_exif : bool)
    (output_path : string) : io unit :=
  if add_exif then
    if media_is memory "image" then add_exif_data output_path memory
    else if media_is memory "video" then set_video_metadata output_path memory
    else mret tt
  else mret tt.

(** The [try] block of [download_memory]: the number of bytes downloaded. *)
Definition download_memory_try (memory : Memory) (add_exif : bool) : io Z :=
  let url := download_link memory in
  let output_path := filename memory in
  response ← or_raise (http_get E url) HTTPError;
  persist_asset memory output_path response;;
  let bytes_downloaded := Z.of_nat (List.length (content response)) in
  utime output_path (timestamp (date memory));;
  apply_metadata memory add_exif output_path;;
  mret bytes_downloaded.

(** [download_memory] once its semaphore slot is held: the pair
    [(success, bytes_downloaded)] and the output directory afterwards. *)
Definition download_memory (memory : Memory) (add_exif : bool)
    (fs : gmap string File) : (bool * Z) * gmap string File :=
  match download_memory_try memory add_exif fs with
  | (Ok n, fs') => ((true, n), fs')
  | (Raise _, fs') => ((false, 0), fs')
  end.

(** The exception the [try] block ends with, if any. *)
Definition download_error (memory : Memory) (add_exif : bool)
    (fs : gmap string File) : option exn :=
  match fst (download_memory_try memory add_exif fs) with
  | Ok _ => None
  | Raise e => Some e
  end.

(** ** [download_all]: statistics and the semaphore *)

Record Stats := mkStats {
  downloaded : Z;
  skipped : Z;
  failed : Z;
  mb : float
}.

(** [Stats()] *)
Definition stats0 : Stats := mkStats 0 0 0 (S754_zero false).

(** [skip_existing and output_path.exists()] *)
Definition should_skip (skip_existing : bool) (fs : gmap string File)
    (memory : Memory) : bool :=
  skip_existing && bool_decide (is_Some (fs !! filename memory)).

(** The first loop of [download_all]: count the skipped records and
    collect the others, in order. *)
Definition skip_loop (skip_existing : bool) (fs : gmap string File)
    (memories : list Memory) : Stats * list Memory :=
  fold_left
    (fun '(stats, to_download) memory =>
       if should_skip skip_existing fs memory
       then (mkStats (downloaded stats) (skipped stats + 1) (failed stats)
                     (mb stats), to_download)
       else (stats, (to_download ++ [memory])%list))
    memories (stats0, []).

(** Where one [process_and_update] coroutine stands: waiting for the
    semaphore, holding a slot while the request is in flight, holding a
    slot with the [try] block done and the client closing, or past the
    statistics update. *)
Inductive phase :=
  | Queued
  | Fetching
  | Closing (success : bool) (bytes_downloaded : Z)
  | Finished.

(** The shared state of one [download_all] call between two steps of the
    event loop. *)
Record Run := mkRun {
  sem_value : Z;
  tasks : list (Memory * phase);
  stats : Stats;
  disk : gmap string File
}.

(** [download_all] up to [asyncio.gather]; a negative bound makes
    [asyncio.Semaphore] raise [ValueError]. *)
Definition download_all_start (memories : list Memory) (max_concurrent : Z)
    (skip_existing : bool) (fs : gmap string File) : result Run :=
  if max_concurrent <? 0
  then Raise (ValueError "Semaphore initial value must be >= 0")
  else
    let '(stats, to_download) := skip_loop skip_existing fs memories in
    Ok (mkRun max_concurrent (List.map (fun m => (m, Queued)) to_download)
              stats fs).

(** The statistics update of [process_and_update]. *)
Definition update_stats (stats : Stats) (success : bool) (bytes_downloaded : Z)
    : Stats :=
  let share := fdiv (fdiv (float_of_Z bytes_downloaded) (float_of_Z 1024))
                    (float_of_Z 1024) in
  let mb' := SFadd 53 1024 (mb stats) share in
  if success
  then mkStats (downloaded stats + 1) (skipped stats) (failed stats) mb'
  else mkStats (downloaded stats) (skipped stats) (failed stats + 1) mb'.

Definition set_phase (i : nat) (memory : Memory) (p : phase) (r : Run)
    : list (Memory * phase) :=
  <[i := (memory, p)]> (tasks r).

(** One step of the event loop on coroutine [i]; [None] when that
    coroutine cannot run (it waits on an exhausted semaphore, or it is
    over). *)
Definition advance (add_exif : bool) (i : nat) (r : Run) : option Run :=
  match tasks r !! i with
  | Some (memory, Queued) =>
      (* semaphore.acquire() *)
      if 0 <? sem_value r
      then Some (mkRun (sem_value r - 1) (set_phase i memory Fetching r)
                       (stats r) (disk r))
      else None
  | Some (memory, Fetching) =>
      let '((success, n), fs') := download_memory memory add_exif (disk r) in
      Some (mkRun (sem_value r) (set_phase i memory (Closing success n) r)
                  (stats r) fs')
  | Some (memory, Closing success n) =>
      (* semaphore.release(), then the statistics *)
      Some (mkRun (sem_value r + 1) (set_phase i memory Finished r)
                  (update_stats (stats r) success n) (disk r))
  | Some (_, Finished) | None => None
  end.

(** The run along a schedule: the coroutine the event loop resumes at each
    step. *)
Fixpoint exec (add_exif : bool) (schedule : list nat) (r : Run) : option Run :=
  match schedule with
  | [] => Some r
  | i :: rest =>
      match advance add_exif i r with
      | Some r' => exec add_exif rest r'
      | None => None
      end
  end.

Definition is_finished (p : phase) : bool :=
  match p with Finished => true | _ => false end.

(** [asyncio.gather] has returned. *)
Definition all_finished (r : Run) : bool :=
  forallb (fun t => is_finished (snd t)) (tasks r).

(** A coroutine between [acquire] and [release]. *)
Definition holds_slot (p : phase) : bool :=
  match p with Fetching | Closing _ _ => true | _ => false end.

(** The number of executions currently holding a semaphore slot. *)
Definition active (r : Run) : Z :=
  Z.of_nat (List.length (List.filter (fun t => holds_slot (snd t)) (tasks r))).

(** The coroutines past their statistics update. *)
Definition finished_count (r : Run) : Z :=
  Z.of_nat (List.length (List.filter (fun t => is_finished (snd t)) (tasks r))).

(** Steps a coroutine still has to take. *)
Definition steps_left (p : phase) : nat :=
  match p with
  | Queued => 3
  | Fetching => 2
  | Closing _ _ => 1
  | Finished => 0
  end.

(** Steps the whole run still has to take. *)
Definition remaining (r : Run) : nat :=
  list_sum (List.map (fun t => steps_left (snd t)) (tasks r)).

End Pipeline.

(** ** Footprints and the composition the specification describes *)

(** [m] leaves every path outside [P] as it was. *)
Definition writes_within {A} (P : string -> Prop) (m : io A) : Prop :=
  forall fs p, ~ P p -> snd (m fs) !! p = fs !! p.

(** The paths one execution of [download_memory] may write: the output
    file, and for a video the temporary file of the metadata remux. *)
Definition footprint (E : Env) (m : Memory) (p : string) : Prop :=
  p = filename E m
  \/ (media_is m "video" = true /\ p = with_suffix (filename E m) ".temp.mp4").

(** The image of section 4.5, written out on the rasters: the base as a
    4-channel raster; the overlay (if any) as a 4-channel raster, resampled
    with the Lanczos filter from its own dimensions to the base's and
    composited over the base; the result flattened to 3 channels.  A raster
    that already has the channels, or the dimensions, asked for is taken as
    it is. *)
Definition spec_channels (E : Env) (target : ImageMode) (im : Image)
    : list Z :=
  match im_mode im, target with
  | RGB, RGB | RGBA, RGBA => im_data im
  | mode, _ => px_convert E mode target (im_size im) (im_data im)
  end.

Definition spec_resampled (E : Env) (from to : Z * Z) (px : list Z)
    : list Z :=
  if bool_decide (from = to) then px else px_resample E LANCZOS from to px.

Definition spec_composite (E : Env) (base : Image) (overlay : option Image)
    : Image :=
  let size := im_size base in
  let base4 := spec_channels E RGBA base in
  let composed :=
    match overlay with
    | Some ov =>
        px_over E size base4
          (spec_resampled E (im_size ov) size (spec_channels E RGBA ov))
    | None => base4
    end in
  mkImage size RGB (px_convert E RGBA RGB size composed).

(** What every state of a run with bound [K], [nskipped] skipped records
    and scheduled records [scheduled] satisfies. *)
Definition run_invariant (K nskipped : Z) (scheduled : list Memory) (r : Run)
    : Prop :=
  sem_value r + active r = K
  /\ 0 <= sem_value r
  /\ downloaded (stats r) + failed (stats r) = finished_count r
  /\ 0 <= downloaded (stats r)
  /\ 0 <= failed (stats r)
  /\ skipped (stats r) = nskipped
  /\ List.map fst (tasks r) = scheduled.

(** ** Character predicates for file names *)

(** [c in s] for a character *)
Fixpoint has_char (c : ascii) (s : string) : bool :=
  match s with
  | EmptyString => false
  | String a r => Ascii.eqb a c || has_char c r
  end.

Fixpoint all_chars (P : ascii -> bool) (s : string) : bool :=
  match s with
  | EmptyString => true
  | String a r => P a && all_chars P r
  end.

(** The characters [strftime('%Y-%m-%d_%H-%M-%S')] can produce. *)
Definition date_char (c : ascii) : bool :=
  in_range 48 57 (N_of_ascii c) || Ascii.eqb c "-" || Ascii.eqb c "_".

(** ** A small concrete world for worked examples *)

Definition demo_video_main : bytes := [x00; x00; x00; x18; x66; x74; x79; x70].
Definition demo_overlay_png : bytes := [x89; x50; x4e; x47].
Definition demo_image_main : bytes := [xff; xd8; xff; xe0].
Definition demo_jpeg_out : bytes := [xff; xd8; xff; xd9].
Definition demo_zip_video : bytes := [x50; x4b; x03; x04; x01].
Definition demo_zip_image : bytes := [x50; x4b; x03; x04; x02].
Definition demo_zip_nomain : bytes := [x50; x4b; x03; x04; x03].

Definition demo_http_get (url : string) : option Response :=
  if String.eqb url "https://cdn.example/video" then
    Some (mkResponse (Some "application/zip") demo_zip_video)
  else if String.eqb url "https://cdn.example/image" then
    Some (mkResponse None demo_zip_image)
  else if String.eqb url "https://cdn.example/nomain" then
    Some (mkResponse (Some "Application/ZIP") demo_zip_nomain)
  else if String.eqb url "https://cdn.example/plain" then
    Some (mkResponse (Some "image/jpeg") demo_image_main)
  else None.

Definition demo_zip_open (b : bytes) : option ZipFile :=
  if bytes_eqb b demo_zip_video then
    Some (mkZipFile ["a-overlay.png"; "a-main.mp4"]
            (fun n => if String.eqb n "a-main.mp4" then Some demo_video_main
                      else if String.eqb n "a-overlay.png" then Some demo_overlay_png
                      else None))
  else if bytes_eqb b demo_zip_image then
    Some (mkZipFile ["b-main.jpg"; "b-overlay.png"]
            (fun n => if String.eqb n "b-main.jpg" then Some demo_image_main
                      else if String.eqb n "b-overlay.png" then Some demo_overlay_png
                      else None))
  else if bytes_eqb b demo_zip_nomain then
    Some (mkZipFile ["readme.txt"] (fun _ => None))
  else None.

Definition demo_pil_open (b : bytes) : option Image :=
  if bytes_eqb b demo_image_main then Some (mkImage (100, 100) RGB [1; 2; 3])
  else if bytes_eqb b demo_overlay_png then Some (mkImage (50, 50) RGBA [9; 9; 9; 255])
  else None.

(** The overlay merge always exits non-zero; the metadata remux works and
    appends a metadata atom to its input. *)
Definition demo_env : Env := {|
  la_utcoffset := fun _ => -28800;
  re_search_coords := fun _ => None;
  py_float := fun _ => None;
  http_get := demo_http_get;
  zip_open := demo_zip_open;
  pil_open := demo_pil_open;
  px_convert := fun _ _ _ d => d;
  px_resample := fun _ _ _ d => d;
  px_over := fun _ _ over => over;
  px_over_at_origin := fun _ _ under _ => under;
  jpeg_encode := fun _ _ _ => Some demo_jpeg_out;
  ffmpeg_overlay := fun _ _ => ExitNonZero None;
  ffmpeg_metadata := fun data _ => Exit0 (data ++ [x6d; x65; x74; x61])%list;
  piexif_load := fun _ => None;
  piexif_insert := fun _ d => Some d
|}.

(** 2024-01-15 12:34:56 UTC, shown in Los Angeles. *)
Definition demo_date : datetime := mkDatetime 1705322096 TzLosAngeles.

Definition demo_video : Memory :=
  mkMemory demo_date "Video" "https://cdn.example/video" "" None None.
Definition demo_image : Memory :=
  mkMemory (mkDatetime 1705322097 TzLosAngeles) "Image"
           "https://cdn.example/image" "" None None.
Definition demo_nomain : Memory :=
  mkMemory (mkDatetime 1705322098 TzLosAngeles) "Audio"
           "https://cdn.example/nomain" "" None None.
Definition demo_plain_audio : Memory :=
  mkMemory (mkDatetime 1705322099 TzLosAngeles) "Audio"
           "https://cdn.example/plain" "" None None.
Definition demo_unreachable : Memory :=
  mkMemory (mkDatetime 1705322100 TzLosAngeles) "Image"
           "https://cdn.example/gone" "" None None.

(** A run of five records with bound 2, the second record's file already
    present. *)
Definition demo_manifest : list Memory :=
  [demo_video; demo_image; demo_nomain; demo_plain_audio; demo_unreachable].

Definition demo_disk : gmap string File :=
  {["2024-01-15_04-34-57.jpg" := mkFile [x01] None]}.

Definition demo_start : Run :=
  match download_all_start demo_env demo_manifest 2 true demo_disk with
  | Ok r => r
  | Raise _ => mkRun 0 [] stats0 ∅
  end.

(** Two coroutines have acquired the semaphore and hold both slots. *)
Definition demo_midway : Run :=
  match exec demo_env true [0; 1]%nat demo_start with
  | Some r => r
  | None => demo_start
  end.

Definition demo_schedule : list nat :=
  [0; 1; 1; 0; 1; 2; 0; 3; 2; 3; 2; 3]%nat.

Definition demo_final : Run :=
  match exec demo_env true demo_schedule demo_start with
  | Some r => r
  | None => demo_start
  end.

(** ** The manifest's capture-time form *)

(** The fixed form ["YYYY-MM-DD HH:MM:SS"] of a civil time. *)
Definition manifest_form (c : civil) : string :=
  digits_fixed 4 (year c) ++ "-" ++ pad2 (month c) ++ "-" ++ pad2 (day c)
  ++ " " ++ pad2 (hour c) ++ ":" ++ pad2 (minute c) ++ ":" ++ pad2 (second c).

(** The first match of a parser on an input. *)
Definition starts {A} (p : parser A) (s : string) (x : A * string) : Prop :=
  exists l, p s = x :: l.

(** ** Derived views used by the further properties *)

(** The EXIF dictionary [add_exif_data] builds for a file with content
    [data]: the loaded dictionary (or the empty default), the three time
    tags, and the GPS block when both coordinates are known; [None] when
    the coordinate conversion raises. *)
Definition exif_for (E : Env) (memory : Memory) (data : bytes)
    : option ExifDict :=
  let loaded := match piexif_load E data with
                | Some d => d
                | None => default_exif
                end in
  let d1 := set_datetimes (strftime_exif (wall E (date memory))) loaded in
  match latitude memory, longitude memory with
  | Some lat, Some lon => g ← gps_block lat lon; Some (set_gps g d1)
  | _, _ => Some d1
  end.

(** Whether the pipeline of a record succeeds (on an empty directory). *)
Definition succeeds (E : Env) (add_exif : bool) (m : Memory) : bool :=
  fst (fst (download_memory E m add_exif ∅)).

(** The fields the regular expression of [strptime] can capture. *)
Definition regex_fields (c : civil) : bool :=
  (0 <=? year c) && (year c <=? 9999)
  && (1 <=? month c) && (month c <=? 12)
  && (1 <=? day c) && (day c <=? 31)
  && (0 <=? hour c) && (hour c <=? 23)
  && (0 <=? minute c) && (minute c <=? 59)
  && (0 <=? second c) && (second c <=? 61).

(** [c] reads nothing and writes nothing: it returns or raises the same on
    every directory. *)
Definition pure_io {A} (c : io A) : Prop :=
  (exists a, forall fs, c fs = (Ok a, fs))
  \/ (exists e, forall fs, c fs = (Raise e, fs)).

(** What a failed [Image.save] leaves of a directory: the file at [path],
    if there was one, is empty. *)
Definition emptied (path : string) (fs : gmap string File)
    : gmap string File :=
  match fs !! path with
  | Some _ => <[path := mkFile [] None]> fs
  | None => fs
  end.

(** [c] writes exactly one file at [path], or raises before writing, or,
    if it [saves] an image, raises after having opened [path] for
    writing. *)
Definition writes_once (saves : bool) (path : string) (c : io unit) : Prop :=
  (exists data, forall fs, c fs = (Ok tt, <[path := mkFile data None]> fs))
  \/ (exists e, forall fs, c fs = (Raise e, fs))
  \/ (saves = true /\ exists e, forall fs, c fs = (Raise e, emptied path fs)).

(** The coroutines past their statistics update whose pipeline succeeds
    ([ok = true]) or fails ([ok = false]). *)
Definition settled_count (E : Env) (add_exif ok : bool) (r : Run) : Z :=
  Z.of_nat
    (List.length
       (List.filter
          (fun t => is_finished (snd t)
                    && Bool.eqb (succeeds E add_exif (fst t)) ok)
          (tasks r))).

(** What the counters hold in every state of a run: the settled
    coroutines, split by the outcome of their pipelines. *)
Definition counters_settled (E : Env) (add_exif : bool) (r : Run) : Prop :=
  downloaded (stats r) = settled_count E add_exif true r
  /\ failed (stats r) = settled_count E add_exif false r
  /\ forall i m ok n,
       tasks r !! i = Some (m, Closing ok n) -> ok = succeeds E add_exif m.

(** The output path of coroutine [i] through a run in which no other
    coroutine's footprint covers it: as at the start until the pipeline
    has run, then what the pipeline, run on the directory of the start,
    leaves there. *)
Definition output_settled (E : Env) (add_exif : bool)
    (fs0 : gmap string File) (sched : list Memory) (i : nat) (m : Memory)
    (r : Run) : Prop :=
  List.map fst (tasks r) = sched
  /\ forall ph, tasks r !! i = Some (m, ph) ->
       disk r !! filename E m
       = match ph with
         | Queued | Fetching => fs0 !! filename E m
         | Closing _ _ | Finished =>
             snd (download_memory E m add_exif fs0) !! filename E m
         end.


(** The concrete world on a machine without ffmpeg: neither the overlay
    merge nor the metadata remux can be started. *)
Definition demo_env_without_ffmpeg : Env := {|
  la_utcoffset := la_utcoffset demo_env;
  re_search_coords := re_search_coords demo_env;
  py_float := py_float demo_env;
  http_get := http_get demo_env;
  zip_open := zip_open demo_env;
  pil_open := pil_open demo_env;
  px_convert := px_convert demo_env;
  px_resample := px_resample demo_env;
  px_over := px_over demo_env;
  px_over_at_origin := px_over_at_origin demo_env;
  jpeg_encode := jpeg_encode demo_env;
  ffmpeg_overlay := fun _ _ => SpawnFailed;
  ffmpeg_metadata := fun _ _ => SpawnFailed;
  piexif_load := piexif_load demo_env;
  piexif_insert := piexif_insert demo_env
|}.


(** The concrete world with a JPEG encoder that always fails. *)
Definition demo_env_failing_encoder : Env := {|
  la_utcoffset := la_utcoffset demo_env;
  re_search_coords := re_search_coords demo_env;
  py_float := py_float demo_env;
  http_get := http_get demo_env;
  zip_open := zip_open demo_env;
  pil_open := pil_open demo_env;
  px_convert := px_convert demo_env;
  px_resample := px_resample demo_env;
  px_over := px_over demo_env;
  px_over_at_origin := px_over_at_origin demo_env;
  jpeg_encode := fun _ _ _ => None;
  ffmpeg_overlay := ffmpeg_overlay demo_env;
  ffmpeg_metadata := ffmpeg_metadata demo_env;
  piexif_load := piexif_load demo_env;
  piexif_insert := piexif_insert demo_env
|}.

(** The concrete world with a decoder that cannot read the overlay
    image. *)
Definition demo_env_unreadable_overlay : Env := {|
  la_utcoffset := la_utcoffset demo_env;
  re_search_coords := re_search_coords demo_env;
  py_float := py_float demo_env;
  http_get := http_get demo_env;
  zip_open := zip_open demo_env;
  pil_open := fun b => if bytes_eqb b demo_overlay_png then None
                       else demo_pil_open b;
  px_convert := px_convert demo_env;
  px_resample := px_resample demo_env;
  px_over := px_over demo_env;
  px_over_at_origin := px_over_at_origin demo_env;
  jpeg_encode := jpeg_encode demo_env;
  ffmpeg_overlay := ffmpeg_overlay demo_env;
  ffmpeg_metadata := ffmpeg_metadata demo_env;
  piexif_load := piexif_load demo_env;
  piexif_insert := piexif_insert demo_env
|}.


(** * Part II: verified properties *)

(** ** Strings and bytes *)

Lemma all_ascii_complete (a : ascii) : In a all_ascii.
Proof.
  rewrite <- (ascii_nat_embedding a).
  apply in_map, in_seq.
  pose proof (nat_ascii_bounded a). lia.
Qed.

Lemma forall_ascii (P : ascii -> bool) :
  forallb P all_ascii = true -> forall a, P a = true.
Proof.
  intros H a. rewrite forallb_forall in H. apply H, all_ascii_complete.
Qed.

Lemma lower_char_nocase (a b : ascii) :
  plain_lower_char a = true ->
  Ascii.eqb a (lower_char b) = same_letter_nocase a b.
Proof.
  revert a b.
  assert (H : forall a b,
    (negb (plain_lower_char a)
     || Bool.eqb (Ascii.eqb a (lower_char b)) (same_letter_nocase a b)) = true).
  { intros a. apply forall_ascii. revert a. apply forall_ascii.
    vm_compute. reflexivity. }
  intros a b Ha. specialize (H a b). rewrite Ha in H. simpl in H.
  now apply Bool.eqb_prop.
Qed.

Lemma startswith_lower_begins (p s : string) :
  plain_lower p = true ->
  startswith (lower s) p = begins_nocase p s.
Proof.
  revert s. induction p as [|a p IH]; intros s Hp; [reflexivity|].
  simpl in Hp. apply andb_prop in Hp as [Ha Hp].
  destruct s as [|b s]; [reflexivity|]. simpl.
  rewrite lower_char_nocase by exact Ha. now rewrite IH.
Qed.

Lemma bytes_eqb_eq (a b : bytes) : bytes_eqb a b = true <-> a = b.
Proof.
  revert b. induction a as [|x a IH]; intros [|y b]; simpl; split; try easy.
  - intros H. apply andb_prop in H as [Hx Hab].
    apply Byte.byte_dec_bl in Hx. apply IH in Hab. now subst.
  - intros [= -> ->]. rewrite Byte.byte_dec_lb by reflexivity.
    now apply IH.
Qed.

Lemma signature_prefix (body : bytes) :
  bytes_eqb (firstn 4 body) zip_signature = true <->
  exists rest, body = x50 :: x4b :: x03 :: x04 :: rest.
Proof.
  rewrite bytes_eqb_eq. unfold zip_signature. split.
  - destruct body as [|a [|b [|c [|d rest]]]]; simpl; try discriminate.
    intros [= -> -> -> ->]. now exists rest.
  - intros [rest ->]. reflexivity.
Qed.

(** ** C2: payload classification *)

(** C2. A fetched payload is classified as a composite archive exactly when
    its declared content type begins, case-insensitively, with the archive
    MIME prefix, or its first four bytes are 0x50 0x4B 0x03 0x04; a body
    starting with those four bytes is classified composite whatever the
    header says, also when it is absent. *)
Theorem is_zip_classification :
  (forall r : Response,
     is_zip r = true <-> spec_is_composite (content_type r) (content r))
  /\ (forall (ct : option string) (rest : bytes),
        is_zip (mkResponse ct (x50 :: x4b :: x03 :: x04 :: rest)) = true).
Proof.
  split.
  - intros [ct body]. unfold is_zip, spec_is_composite, headers_get_content_type.
    cbn [content_type content].
    rewrite orb_true_iff, signature_prefix.
    rewrite (startswith_lower_begins "application/zip") by reflexivity.
    split; (intros [H|H]; [left|right; exact H]).
    + destruct ct as [v|]; [now exists v|discriminate].
    + destruct H as (v & -> & Hv). exact Hv.
  - intros ct rest. unfold is_zip. simpl.
    apply orb_true_iff. right. reflexivity.
Qed.

(** ** C6: EXIF coordinate encoding *)

Lemma deg_to_rational_shape (d m : Z) (s : float) (t : list (Z * Z)) :
  deg_to_rational (d, m, s) = Some t ->
  exists n, py_int (fmul s (float_of_Z 100)) = Some n
            /\ t = [(d, 1); (m, 1); (n, 100)].
Proof.
  unfold deg_to_rational.
  destruct (py_int (fmul s (float_of_Z 100))) as [n|]; simpl; [|discriminate].
  intros [= <-]. now exists n.
Qed.

Lemma to_deg_shape (v : float) (d m : Z) (s : float) :
  to_deg v = Some (d, m, s) ->
  py_int (fabs v) = Some d
  /\ py_int (fmul (fsub (fabs v) (float_of_Z d)) (float_of_Z 60)) = Some m
  /\ s = py_round
           (fmul (fsub (fmul (fsub (fabs v) (float_of_Z d)) (float_of_Z 60))
                       (float_of_Z m)) (float_of_Z 60)) 6.
Proof.
  unfold to_deg.
  destruct (py_int (fabs v)) as [d'|]; simpl; [|discriminate].
  destruct (py_int (fmul (fsub (fabs v) (float_of_Z d')) (float_of_Z 60)))
    as [m'|] eqn:Hm; simpl; [|discriminate].
  intros [= <- <- <-]. auto.
Qed.

Lemma encode_shape (v : float) (t : list (Z * Z)) :
  to_deg v ≫= deg_to_rational = Some t ->
  exists d m s n,
    to_deg v = Some (d, m, s)
    /\ py_int (fmul s (float_of_Z 100)) = Some n
    /\ t = [(d, 1); (m, 1); (n, 100)].
Proof.
  destruct (to_deg v) as [[[d m] s]|] eqn:Hv; simpl; [|discriminate].
  intros Ht. apply deg_to_rational_shape in Ht as (n & Hn & ->).
  now exists d, m, s, n.
Qed.

(** The claim as worded fails: at 37.77493 degrees the seconds are 29.748,
    which two-decimal rounding encodes as 2975/100, and the code stores
    their integer number of hundredths, 2974/100. *)
Lemma gps_seconds_not_rounded_to_two_decimals :
  to_deg (float_lit 3777493 5) = Some (37, 46, float_lit 29748 3)
  /\ to_deg (float_lit 3777493 5) ≫= deg_to_rational
     = Some [(37, 1); (46, 1); (2974, 100)]
  /\ spec_dms (float_to_Q (float_lit 3777493 5))
     = [(37, 1); (46, 1); (2975, 100)]
  /\ to_deg (float_lit 3777493 5) ≫= deg_to_rational
     <> Some (spec_dms (float_to_Q (float_lit 3777493 5))).
Proof.
  split; [vm_compute; reflexivity|]. split; [vm_compute; reflexivity|].
  split; [vm_compute; reflexivity|]. vm_compute. discriminate.
Qed.

(** The product [s * 100] is a binary64 product: at 0.0023 degrees the
    seconds are 8.28 and the stored numerator is 827. *)
Example gps_seconds_binary_product :
  to_deg (float_lit 23 4) = Some (0, 0, float_lit 828 2)
  /\ to_deg (float_lit 23 4) ≫= deg_to_rational
     = Some [(0, 1); (0, 1); (827, 100)].
Proof. split; vm_compute; reflexivity. Qed.

(** The same product can also carry the numerator above the hundredths
    of the exact seconds: at 27.287 degrees the exact seconds lie just
    below 13.2, their hundredths are 1319, and the numerator stored is
    1320; at 1.389 degrees the exact hundredths are 2040 and the numerator
    stored is 2039. *)
Example gps_seconds_not_truncated_either :
  to_deg (float_lit 27287 3) ≫= deg_to_rational
  = Some [(27, 1); (17, 1); (1320, 100)]
  /\ Qfloor (exact_seconds (float_to_Q (float_lit 27287 3)) * 100) = 1319
  /\ to_deg (float_lit 1389 3) = Some (1, 23, float_lit 204 1)
  /\ to_deg (float_lit 1389 3) ≫= deg_to_rational
     = Some [(1, 1); (23, 1); (2039, 100)]
  /\ Qfloor (exact_seconds (float_to_Q (float_lit 1389 3)) * 100) = 2040.
Proof. repeat split; vm_compute; reflexivity. Qed.

(** [int(x)] is the integer part of the exact value of [x]. *)
Lemma py_int_integer_part (x : float) (n : Z) :
  py_int x = Some n -> n = Qtrunc (float_to_Q x).
Proof.
  unfold py_int, float_to_Q, Qtrunc.
  destruct x as [s| | |s m e]; try discriminate.
  - intros [= <-]. reflexivity.
  - intros [= <-]. destruct (0 <=? e) eqn:He.
    + destruct s; cbn [Qnum Qden Qopp inject_Z]; now rewrite Z.quot_1_r.
    + apply Z.leb_gt in He.
      assert (Hp : 0 < 2 ^ (- e)) by (apply Z.pow_pos_nonneg; lia).
      assert (Hq : Z.quot (Z.pos m) (2 ^ (- e)) = Z.pos m / 2 ^ (- e))
        by (apply Z.quot_div_nonneg; lia).
      destruct s; cbn [Qnum Qden Qopp]; rewrite Z2Pos.id by exact Hp.
      * change (Z.neg m) with (- Z.pos m). rewrite Z.quot_opp_l by lia.
        now rewrite Hq.
      * now rewrite Hq.
Qed.

Lemma div_half_even_nearest (a b : Z) :
  0 < b -> 2 * Z.abs (a - div_half_even a b * b) <= b.
Proof.
  intros Hb. unfold div_half_even.
  pose proof (Z.mod_pos_bound a b Hb) as Hm.
  assert (H0 : a - a / b * b = a mod b)
    by (pose proof (Z.div_mod a b ltac:(lia)); lia).
  assert (H1 : a - (a / b + 1) * b = a mod b - b)
    by (pose proof (Z.div_mod a b ltac:(lia)); lia).
  revert Hm H0 H1. generalize (a mod b) as r. intros r Hm H0 H1.
  assert (Hlo : 2 * Z.abs r = 2 * r) by (rewrite Z.abs_eq; lia).
  assert (Hhi : 2 * Z.abs (r - b) = 2 * (b - r))
    by (rewrite Z.abs_neq; lia).
  destruct (Z.compare_spec (2 * r) b) as [Hc|Hc|Hc].
  - destruct (Z.even (a / b)); rewrite ?H0, ?H1, ?Hlo, ?Hhi; lia.
  - rewrite H0, Hlo. lia.
  - rewrite H1, Hhi. lia.
Qed.

(** [round(x, k)] picks an integer nearest to the exact [|x| * 10^k]. *)
Lemma scaled_round_nearest (k : Z) (s : bool) (m : positive) (e : Z) :
  0 <= k ->
  (Qabs (Qabs (float_to_Q (S754_finite s m e)) * inject_Z (10 ^ k)
         - inject_Z (scaled_round k (S754_finite s m e))) <= 1 # 2)%Q.
Proof.
  intros Hk. apply Qabs_Qle_condition.
  assert (H10 : 0 < 10 ^ k) by (apply Z.pow_pos_nonneg; lia).
  unfold scaled_round, float_to_Q. destruct (0 <=? e) eqn:He.
  - assert (Ha : Qabs (if s then - inject_Z (Z.pos m * 2 ^ e)
                       else inject_Z (Z.pos m * 2 ^ e))%Q
                 = inject_Z (Z.pos m * 2 ^ e)).
    { apply Z.leb_le in He.
      assert (0 <= Z.pos m * 2 ^ e)
        by (apply Z.mul_nonneg_nonneg; [lia|apply Z.pow_nonneg; lia]).
      destruct s; unfold Qabs, inject_Z, Qopp; cbn [Qnum Qden];
        f_equal; lia. }
    rewrite Ha. unfold Qle, Qminus, Qplus, Qmult, Qopp, inject_Z.
    cbn [Qnum Qden]. split; lia.
  - apply Z.leb_gt in He.
    assert (Hp : 0 < 2 ^ (- e)) by (apply Z.pow_pos_nonneg; lia).
    assert (Ha : Qabs (if s then - (Z.pos m # Z.to_pos (2 ^ (- e)))
                       else Z.pos m # Z.to_pos (2 ^ (- e)))%Q
                 = Z.pos m # Z.to_pos (2 ^ (- e))).
    { now destruct s. }
    rewrite Ha.
    pose proof (div_half_even_nearest (Z.pos m * 10 ^ k) (2 ^ (- e)) Hp) as Hn.
    revert Hn. generalize (div_half_even (Z.pos m * 10 ^ k) (2 ^ (- e))) as N.
    intros N Hn.
    unfold Qle, Qminus, Qplus, Qmult, Qopp, inject_Z. cbn [Qnum Qden].
    rewrite !Pos2Z.inj_mul, Z2Pos.id by exact Hp.
    split; nia.
Qed.

(** [x >= 0] on a value [int] accepts is the comparison of the exact
    value with 0. *)
Lemma py_ge0_exact (x : float) (n : Z) :
  py_int (fabs x) = Some n -> py_ge0 x = Qle_bool 0 (float_to_Q x).
Proof.
  destruct x as [s| | |s m e]; try discriminate; intros _.
  - now destruct s.
  - unfold float_to_Q, Qle_bool. destruct (0 <=? e) eqn:He.
    + apply Z.leb_le in He.
      assert (0 < Z.pos m * 2 ^ e)
        by (apply Z.mul_pos_pos; [lia|apply Z.pow_pos_nonneg; lia]).
      destruct s; cbn [Qnum Qden Qopp inject_Z py_ge0].
      * change (py_ge0 (S754_finite true m e)) with false.
        symmetry. apply Z.leb_gt. lia.
      * change (py_ge0 (S754_finite false m e)) with true.
        symmetry. apply Z.leb_le. lia.
    + now destruct s.
Qed.

Lemma encodes_dms_of_code (v : float) (t : list (Z * Z)) :
  to_deg v ≫= deg_to_rational = Some t -> encodes_dms v t.
Proof.
  intros Ht. apply encode_shape in Ht as (d & m & s & n & Hv & Hn & ->).
  apply to_deg_shape in Hv as (Hd & Hm & ->).
  now exists d, m, n.
Qed.

(** C6 (amended). Whenever the GPS block is written (the conversion raises
    on a NaN or an infinity), the hemisphere references follow the signs (N
    for a latitude [>= 0] else S, E for a longitude [>= 0] else W, a zero
    of either sign counting as [>= 0]); each value [v] is encoded, in
    binary64 arithmetic, as degrees [d = int(|v|)], minutes
    [m = int((|v| - d) * 60)] and seconds
    [s = round(((|v| - d) * 60 - m) * 60, 6)], stored as the rationals
    [(d, 1)], [(m, 1)] and [(int(s * 100), 100)].  [int] is the integer
    part of the exact value and [round(_, 6)] goes through an integer
    nearest to the exact value times [10^6].  The numerator of the seconds
    is thus the integer part of a binary64 product: it is not the seconds
    rounded to 2 decimals (37.77493: seconds 29.748, numerator 2974), and
    it can lie one below or one above the hundredths of the exact seconds
    (1.389: seconds 20.4, numerator 2039; 27.287: numerator 1320, exact
    hundredths 1319).  Latitude 37.7749 encodes to (37, 46, 29.64), that
    is [(37,1),(46,1),(2964,100)], which reads back within 0.0001 degrees
    of 37.7749. *)
Theorem gps_block_encoding :
  (forall (lat lon : float) (g : GpsIfd),
     gps_block lat lon = Some g ->
     GPSLatitudeRef g = (if py_ge0 lat then "N" else "S")
     /\ GPSLongitudeRef g = (if py_ge0 lon then "E" else "W")
     /\ GPSLatitudeRef g
        = (if Qle_bool 0 (float_to_Q lat) then "N" else "S")
     /\ GPSLongitudeRef g
        = (if Qle_bool 0 (float_to_Q lon) then "E" else "W")
     /\ GPSVersionID g = [2; 3; 0; 0]
     /\ encodes_dms lat (GPSLatitude g)
     /\ encodes_dms lon (GPSLongitude g))
  /\ (forall (x : float) (n : Z),
        py_int x = Some n -> n = Qtrunc (float_to_Q x))
  /\ (forall (s : bool) (m : positive) (e : Z),
        let x := S754_finite s m e in
        let N := scaled_round 6 x in
        (Qabs (Qabs (float_to_Q x) * inject_Z (10 ^ 6) - inject_Z N)
         <= 1 # 2)%Q
        /\ py_round x 6
           = fdiv (binary_normalize 53 1024 (if s then - N else N) 0 s)
                  (float_of_Z (10 ^ 6)))
  /\ to_deg (float_lit 3777493 5) ≫= deg_to_rational
     = Some [(37, 1); (46, 1); (2974, 100)]
  /\ (to_deg (float_lit 1389 3) = Some (1, 23, float_lit 204 1)
      /\ to_deg (float_lit 1389 3) ≫= deg_to_rational
         = Some [(1, 1); (23, 1); (2039, 100)]
      /\ Qfloor (exact_seconds (float_to_Q (float_lit 1389 3)) * 100) = 2040)
  /\ (to_deg (float_lit 27287 3) ≫= deg_to_rational
      = Some [(27, 1); (17, 1); (1320, 100)]
      /\ Qfloor (exact_seconds (float_to_Q (float_lit 27287 3)) * 100)
         = 1319)
  /\ to_deg (float_lit 377749 4)
     = Some (37, 46, float_lit 2964 2)
  /\ to_deg (float_lit 377749 4) ≫= deg_to_rational
     = Some [(37, 1); (46, 1); (2964, 100)]
  /\ (exists q, dms_to_degrees [(37, 1); (46, 1); (2964, 100)] = Some q
                /\ (Qabs (q - (377749 # 10000)) < 1 # 10000)%Q).
Proof.
  split.
  { intros lat lon g. unfold gps_block.
    destruct (to_deg lat ≫= deg_to_rational) as [a|] eqn:Ha; simpl;
      [|discriminate].
    destruct (to_deg lon ≫= deg_to_rational) as [b|] eqn:Hb; simpl;
      [|discriminate].
    intros [= <-]. simpl.
    pose proof (encodes_dms_of_code lat a Ha) as Ea.
    pose proof (encodes_dms_of_code lon b Hb) as Eb.
    assert (Hla : py_ge0 lat = Qle_bool 0 (float_to_Q lat)).
    { destruct Ea as (d & m & n & Hd & _). exact (py_ge0_exact lat d Hd). }
    assert (Hlo : py_ge0 lon = Qle_bool 0 (float_to_Q lon)).
    { destruct Eb as (d & m & n & Hd & _). exact (py_ge0_exact lon d Hd). }
    rewrite <- Hla, <- Hlo. repeat split; assumption. }
  split; [exact py_int_integer_part|].
  split.
  { intros s m e x N. split; [|reflexivity].
    apply scaled_round_nearest. lia. }
  split; [vm_compute; reflexivity|].
  split; [repeat split; vm_compute; reflexivity|].
  split; [repeat split; vm_compute; reflexivity|].
  split; [vm_compute; reflexivity|].
  split; [vm_compute; reflexivity|].
  eexists. split; [reflexivity|]. vm_compute. reflexivity.
Qed.

Lemma gps_block_encoding_witness :
  gps_block (float_lit 377749 4) (float_lit (-1224194) 4)
  = Some (mkGpsIfd "N" "W" [(37, 1); (46, 1); (2964, 100)]
                   [(122, 1); (25, 1); (984, 100)] [2; 3; 0; 0])
  /\ py_ge0 (float_lit 377749 4) = true
  /\ py_ge0 (float_lit (-1224194) 4) = false
  /\ encodes_dms (float_lit 377749 4) [(37, 1); (46, 1); (2964, 100)].
Proof.
  assert (H : gps_block (float_lit 377749 4) (float_lit (-1224194) 4)
              = Some (mkGpsIfd "N" "W" [(37, 1); (46, 1); (2964, 100)]
                               [(122, 1); (25, 1); (984, 100)] [2; 3; 0; 0]))
    by (vm_compute; reflexivity).
  split; [exact H|].
  destruct (proj1 gps_block_encoding _ _ _ H) as (H1 & H2 & _ & _ & _ & H6 & _).
  cbn [GPSLatitudeRef GPSLongitudeRef GPSLatitude] in H1, H2, H6.
  split; [|split].
  - destruct (py_ge0 (float_lit 377749 4)); [reflexivity|discriminate].
  - destruct (py_ge0 (float_lit (-1224194) 4)); [discriminate|reflexivity].
  - exact H6.
Defined.

(** ** File names *)

Lemma has_char_app (c : ascii) (a b : string) :
  has_char c (a ++ b) = has_char c a || has_char c b.
Proof.
  induction a as [|x a IH]; [reflexivity|].
  simpl. rewrite IH. now rewrite orb_assoc.
Qed.

Lemma all_chars_app (P : ascii -> bool) (a b : string) :
  all_chars P (a ++ b) = all_chars P a && all_chars P b.
Proof.
  induction a as [|x a IH]; [reflexivity|].
  simpl. rewrite IH. now rewrite andb_assoc.
Qed.

Lemma all_chars_has_char (P : ascii -> bool) (c : ascii) (s : string) :
  all_chars P s = true -> P c = false -> has_char c s = false.
Proof.
  intros Hs Hc. induction s as [|a s IH]; [reflexivity|].
  cbn [all_chars] in Hs. apply andb_prop in Hs as [Ha Hs].
  cbn [has_char]. rewrite (IH Hs), orb_false_r.
  destruct (Ascii.eqb_spec a c) as [->|]; [congruence|reflexivity].
Qed.

Lemma digit_char_date (d : Z) : 0 <= d < 10 -> date_char (digit_char d) = true.
Proof.
  intros Hd. assert (H : In d [0;1;2;3;4;5;6;7;8;9]) by (cbn; lia).
  cbn in H. intuition (subst; reflexivity).
Qed.

Lemma digit_char_mod (n : Z) : date_char (digit_char (n mod 10)) = true.
Proof. apply digit_char_date. apply Z.mod_pos_bound. lia. Qed.

Lemma decimal_go_date (fuel : nat) (n : Z) (acc : string) :
  all_chars date_char acc = true ->
  all_chars date_char (decimal_go fuel n acc) = true.
Proof.
  revert n acc. induction fuel as [|fuel IH]; intros n acc Hacc; [exact Hacc|].
  cbn [decimal_go].
  assert (H : all_chars date_char (String (digit_char (n mod 10)) acc) = true).
  { cbn [all_chars]. now rewrite digit_char_mod. }
  destruct (n <? 10); [exact H|]. now apply IH.
Qed.

Lemma decimal_date (n : Z) : all_chars date_char (decimal n) = true.
Proof. apply decimal_go_date. reflexivity. Qed.

Lemma pad2_date (n : Z) : all_chars date_char (pad2 n) = true.
Proof.
  unfold pad2. cbn [all_chars]. now rewrite !digit_char_mod.
Qed.

Lemma strftime_file_date (c : civil) :
  all_chars date_char (strftime_file c) = true.
Proof.
  unfold strftime_file.
  rewrite !all_chars_app, decimal_date, !pad2_date. reflexivity.
Qed.

Lemma strftime_file_nonempty (c : civil) : strftime_file c <> "".
Proof.
  unfold strftime_file. intros H.
  apply (f_equal (has_char "_")) in H.
  rewrite !has_char_app in H. cbn [has_char] in H.
  rewrite Ascii.eqb_refl in H. cbn in H.
  rewrite !orb_true_r in H. discriminate.
Qed.

Lemma length_app (a b : string) :
  String.length (a ++ b) = (String.length a + String.length b)%nat.
Proof. induction a as [|x a IH]; simpl; [reflexivity|now rewrite IH]. Qed.

Lemma substring_all (t : string) : substring 0 (String.length t) t = t.
Proof. induction t as [|x t IH]; simpl; [reflexivity|now rewrite IH]. Qed.

Lemma substring_skip (d t : string) (n : nat) :
  substring (String.length d) n (d ++ t) = substring 0 n t.
Proof. induction d as [|x d IH]; simpl; [reflexivity|exact IH]. Qed.

Lemma substring_head (d t : string) :
  substring 0 (String.length d) (d ++ t) = d.
Proof. induction d as [|x d IH]; simpl; [now destruct t|now rewrite IH]. Qed.

Lemma rfind_last_dot (d r : string) :
  has_char "." d = false -> rfind "." r = None ->
  rfind "." (d ++ String "." r) = Some (String.length d).
Proof.
  intros Hd Hr. induction d as [|x d IH]; simpl.
  - now rewrite Hr.
  - simpl in Hd. apply orb_false_elim in Hd as [_ Hd]. now rewrite (IH Hd).
Qed.

Lemma suffix_mp4 (d : string) :
  has_char "." d = false -> d <> "" -> suffix (d ++ ".mp4") = ".mp4".
Proof.
  intros Hd Hne. unfold suffix.
  rewrite (rfind_last_dot d "mp4" Hd eq_refl), length_app.
  assert (Hl : (0 < String.length d)%nat) by (destruct d; [congruence|simpl; lia]).
  replace ((0 <? String.length d)%nat) with true by (symmetry; now apply Nat.ltb_lt).
  replace ((String.length d <? String.length d + String.length ".mp4" - 1)%nat)
    with true by (symmetry; apply Nat.ltb_lt; simpl; lia).
  cbn [andb].
  replace (String.length d + String.length ".mp4" - String.length d)%nat
    with (String.length ".mp4") by lia.
  now rewrite substring_skip.
Qed.

Lemma with_suffix_mp4 (d suf : string) :
  has_char "." d = false -> d <> "" ->
  with_suffix (d ++ ".mp4") suf = d ++ suf.
Proof.
  intros Hd Hne. unfold with_suffix. rewrite (suffix_mp4 d Hd Hne), length_app.
  replace (String.length d + String.length ".mp4" - String.length ".mp4")%nat
    with (String.length d) by lia.
  now rewrite substring_head.
Qed.

Section Names.
Variable E : Env.

Lemma filename_video (m : Memory) :
  media_is m "image" = false ->
  filename E m = strftime_file (wall E (date m)) ++ ".mp4".
Proof. intros H. unfold filename. now rewrite H. Qed.

Lemma filename_no_t (m : Memory) : has_char "t" (filename E m) = false.
Proof.
  unfold filename. rewrite has_char_app.
  rewrite (all_chars_has_char date_char "t" _ (strftime_file_date _) eq_refl).
  now destruct (media_is m "image").
Qed.

(** The temporary file of the metadata remux is no record's output file. *)
Lemma temp_path_not_filename (m m' : Memory) :
  media_is m "image" = false ->
  with_suffix (filename E m) ".temp.mp4" <> filename E m'.
Proof.
  intros Hm H. rewrite (filename_video m Hm) in H.
  rewrite with_suffix_mp4 in H.
  - apply (f_equal (has_char "t")) in H.
    rewrite filename_no_t, has_char_app in H.
    cbn in H. rewrite orb_true_r in H. discriminate.
  - apply (all_chars_has_char date_char "." _ (strftime_file_date _) eq_refl).
  - apply strftime_file_nonempty.
Qed.
End Names.

(** ** The [io] monad *)

Ltac io_norm :=
  repeat progress
    (cbv [mbind io_mbind mret io_mret io_bind io_ret or_raise raise
          of_result try_except];
     cbn beta iota zeta).

Lemma ww_ret {A} (P : string -> Prop) (a : A) : writes_within P (mret a).
Proof. intros fs p _. reflexivity. Qed.

Lemma ww_raise {A} (P : string -> Prop) (e : exn) : writes_within P (@raise A e).
Proof. intros fs p _. reflexivity. Qed.

Lemma ww_or_raise {A} (P : string -> Prop) (o : option A) (e : exn) :
  writes_within P (or_raise o e).
Proof. destruct o; [apply ww_ret|apply ww_raise]. Qed.

Lemma ww_of_result {A} (P : string -> Prop) (r : result A) :
  writes_within P (of_result r).
Proof. destruct r; [apply ww_ret|apply ww_raise]. Qed.

Lemma ww_bind {A B} (P : string -> Prop) (m : io A) (f : A -> io B) :
  writes_within P m -> (forall a, writes_within P (f a)) ->
  writes_within P (m ≫= f).
Proof.
  intros Hm Hf fs p Hp. specialize (Hm fs p Hp). io_norm.
  destruct (m fs) as [[a|e] fs1]; simpl in *.
  - rewrite (Hf a fs1 p Hp). exact Hm.
  - exact Hm.
Qed.

Lemma ww_try {A} (P : string -> Prop) (m : io A) (h : exn -> io A) :
  writes_within P m -> (forall e, writes_within P (h e)) ->
  writes_within P (try_except m h).
Proof.
  intros Hm Hh fs p Hp. specialize (Hm fs p Hp). unfold try_except.
  destruct (m fs) as [[a|e] fs1]; simpl in *.
  - exact Hm.
  - rewrite (Hh e fs1 p Hp). exact Hm.
Qed.

Lemma ww_write (P : string -> Prop) (path : string) (data : bytes) :
  P path -> writes_within P (write_bytes path data).
Proof.
  intros HP fs p Hp. unfold write_bytes. simpl.
  apply lookup_insert_ne. congruence.
Qed.

Lemma ww_read (P : string -> Prop) (path : string) :
  writes_within P (read_bytes path).
Proof. intros fs p _. unfold read_bytes. now destruct (fs !! path). Qed.

Lemma ww_utime (P : string -> Prop) (path : string) (t : Z) :
  P path -> writes_within P (utime path t).
Proof.
  intros HP fs p Hp. unfold utime. destruct (fs !! path); simpl; [|reflexivity].
  apply lookup_insert_ne. congruence.
Qed.

Lemma ww_replace (P : string -> Prop) (src dst : string) :
  P src -> P dst -> writes_within P (replace_file src dst).
Proof.
  intros Hs Hd fs p Hp. unfold replace_file.
  destruct (fs !! src); simpl; [|reflexivity].
  rewrite lookup_insert_ne by congruence. apply lookup_delete_ne. congruence.
Qed.

Lemma ww_weaken {A} (P Q : string -> Prop) (m : io A) :
  (forall p, P p -> Q p) -> writes_within P m -> writes_within Q m.
Proof. intros HPQ Hm fs p Hp. apply Hm. auto. Qed.

Section Footprint.
Variable E : Env.

(** [Image.save] in one step: the encoded image in place, or, when the
    encoder raises, the directory with an older file at [path] emptied. *)
Lemma save_jpeg_run (im : Image) (path : string) (fs : gmap string File) :
  save_jpeg E im path fs
  = match match im_mode im with
          | RGBA => None
          | mode => jpeg_encode E mode (im_size im) (im_data im)
          end with
    | Some data => (Ok tt, <[path := mkFile data None]> fs)
    | None => (Raise OSError, emptied path fs)
    end.
Proof.
  assert (Hfail : (let (r, fs') :=
                     (if bool_decide (is_Some (fs !! path))
                      then fun fs0 : gmap string File => (Ok tt, fs0)
                      else remove_file path)
                       (<[path := mkFile [] None]> fs) in
                   match r with
                   | Ok _ => (@Raise unit OSError, fs')
                   | Raise e => (Raise e, fs')
                   end)
                  = (Raise OSError, emptied path fs)).
  { unfold emptied. destruct (fs !! path) as [f|] eqn:Hf.
    - rewrite bool_decide_eq_true_2 by eauto. reflexivity.
    - rewrite bool_decide_eq_false_2 by (intros [x Hx]; discriminate).
      unfold remove_file. rewrite lookup_insert_eq.
      now rewrite delete_insert_eq, delete_id. }
  unfold save_jpeg. io_norm. unfold path_exists, write_bytes.
  destruct (im_mode im); try exact Hfail;
    (destruct (jpeg_encode E _ (im_size im) (im_data im)) as [data|];
     [now rewrite insert_insert_eq|exact Hfail]).
Qed.

Lemma emptied_elsewhere (path p : string) (fs : gmap string File) :
  p <> path -> emptied path fs !! p = fs !! p.
Proof.
  intros Hp. unfold emptied. destruct (fs !! path); [|reflexivity].
  now apply lookup_insert_ne.
Qed.

Lemma emptied_at (path : string) (fs : gmap string File) :
  emptied path fs !! path
  = match fs !! path with
    | Some _ => Some (mkFile [] None)
    | None => None
    end.
Proof.
  unfold emptied. destruct (fs !! path) eqn:Hf; [apply lookup_insert_eq|exact Hf].
Qed.

Lemma ww_save_jpeg (P : string -> Prop) (im : Image) (path : string) :
  P path -> writes_within P (save_jpeg E im path).
Proof.
  intros HP fs p Hp. rewrite save_jpeg_run.
  assert (Hne : p <> path) by congruence.
  destruct (match im_mode im with
            | RGBA => None
            | mode => jpeg_encode E mode (im_size im) (im_data im)
            end); cbn [snd].
  - now apply lookup_insert_ne.
  - now apply emptied_elsewhere.
Qed.

Lemma ww_merge_video (P : string -> Prop) main_data overlay_data path :
  P path -> writes_within P (merge_video E main_data overlay_data path).
Proof.
  intros HP. unfold merge_video.
  destruct (overlay_present overlay_data); [|now apply ww_write].
  destruct (ffmpeg_overlay E main_data b);
    [now apply ww_write|now apply ww_write|apply ww_raise].
Qed.

Lemma ww_unpack (P : string -> Prop) (m : Memory) path body :
  P path -> writes_within P (unpack_and_merge E m path body).
Proof.
  intros HP. unfold unpack_and_merge.
  apply ww_bind; [apply ww_or_raise|intros zf].
  destruct (first_with "-main" (namelist zf)); [|apply ww_raise].
  apply ww_bind; [apply ww_or_raise|intros main_data].
  apply ww_bind.
  { destruct (first_with "-overlay" (namelist zf)); [|apply ww_ret].
    apply ww_bind; [apply ww_or_raise|intros; apply ww_ret]. }
  intros overlay_data.
  destruct (media_is m "image").
  { apply ww_bind; [apply ww_of_result|intros; now apply ww_save_jpeg]. }
  destruct (media_is m "video"); [now apply ww_merge_video|apply ww_raise].
Qed.

Lemma ww_add_exif_data (P : string -> Prop) path (m : Memory) :
  P path -> writes_within P (add_exif_data E path m).
Proof.
  intros HP. unfold add_exif_data.
  apply ww_try; [|intros; apply ww_ret].
  apply ww_bind.
  { apply ww_try; [|intros; apply ww_ret].
    apply ww_bind; [apply ww_read|intros; apply ww_or_raise]. }
  intros d. apply ww_bind.
  { destruct (latitude m), (longitude m); try apply ww_ret.
    apply ww_bind; [apply ww_or_raise|intros; apply ww_ret]. }
  intros d2. apply ww_bind; [apply ww_read|intros data].
  apply ww_bind; [apply ww_or_raise|intros new].
  apply ww_bind; [now apply ww_write|intros; now apply ww_utime].
Qed.

Lemma ww_set_video_metadata (P : string -> Prop) path (m : Memory) :
  P path -> P (with_suffix path ".temp.mp4") ->
  writes_within P (set_video_metadata E path m).
Proof.
  intros HP HT. unfold set_video_metadata.
  apply ww_try; [|intros; apply ww_ret].
  cbv zeta. apply ww_bind; [apply ww_read|intros data].
  destruct (ffmpeg_metadata E data (metadata_args E m)) as [out|[b|]|].
  - apply ww_bind; [now apply ww_write|intros _].
    apply ww_bind; [now apply ww_replace|intros _]. now apply ww_utime.
  - apply ww_bind; [now apply ww_write|intros; apply ww_raise].
  - apply ww_bind; [apply ww_ret|intros; apply ww_raise].
  - apply ww_raise.
Qed.

Lemma ww_persist_asset (P : string -> Prop) (m : Memory) path resp :
  P path -> writes_within P (persist_asset E m path resp).
Proof.
  intros HP. unfold persist_asset.
  destruct (is_zip resp); [now apply ww_unpack|now apply ww_write].
Qed.

Lemma ww_apply_metadata (m : Memory) (add_exif : bool) :
  writes_within (footprint E m) (apply_metadata E m add_exif (filename E m)).
Proof.
  assert (HP : footprint E m (filename E m)) by now left.
  unfold apply_metadata.
  destruct add_exif; [|apply ww_ret].
  destruct (media_is m "image"); [now apply ww_add_exif_data|].
  destruct (media_is m "video") eqn:Hv; [|apply ww_ret].
  apply ww_set_video_metadata; [exact HP|now right].
Qed.

Lemma ww_download_memory_try (m : Memory) (add_exif : bool) :
  writes_within (footprint E m) (download_memory_try E m add_exif).
Proof.
  assert (HP : footprint E m (filename E m)) by now left.
  unfold download_memory_try. cbv zeta.
  apply ww_bind; [apply ww_or_raise|intros resp].
  apply ww_bind; [now apply ww_persist_asset|intros _].
  apply ww_bind; [now apply ww_utime|intros _].
  apply ww_bind; [apply ww_apply_metadata|intros; apply ww_ret].
Qed.

Lemma download_memory_footprint (m : Memory) (add_exif : bool) fs p :
  ~ footprint E m p ->
  snd (download_memory E m add_exif fs) !! p = fs !! p.
Proof.
  intros Hp. pose proof (ww_download_memory_try m add_exif fs p Hp) as H.
  unfold download_memory.
  now destruct (download_memory_try E m add_exif fs) as [[n|e] fs1].
Qed.
End Footprint.

(** ** Stages of [download_memory] *)

Lemma media_video_not_image (m : Memory) :
  media_is m "video" = true -> media_is m "image" = false.
Proof.
  unfold media_is. intros H. apply String.eqb_eq in H. now rewrite H.
Qed.

Lemma utime_written (path : string) (data : bytes) (t : Z) (o : option Z)
    (fs : gmap string File) :
  utime path t (<[path := mkFile data o]> fs)
  = (Ok tt, <[path := mkFile data (Some t)]> fs).
Proof.
  unfold utime. rewrite lookup_insert_eq. cbn [f_data].
  now rewrite insert_insert_eq.
Qed.

Section Stages.
Variable E : Env.

Lemma first_with_none (sub : string) (files : list string) :
  (forall f, In f files -> str_in sub f = false) -> first_with sub files = None.
Proof.
  intros H. unfold first_with. induction files as [|f fs IH]; [reflexivity|].
  simpl. rewrite (H f) by (left; reflexivity). apply IH.
  intros g Hg. apply H. now right.
Qed.

Lemma first_with_some (sub : string) (files : list string) (f : string) :
  first_with sub files = Some f -> In f files /\ str_in sub f = true.
Proof.
  unfold first_with. intros H. apply find_some in H. exact H.
Qed.

(** The metadata stage never raises. *)
Lemma apply_metadata_ok (m : Memory) (add_exif : bool) path fs :
  exists fs', apply_metadata E m add_exif path fs = (Ok tt, fs').
Proof.
  unfold apply_metadata.
  destruct add_exif; [|now eexists].
  destruct (media_is m "image").
  { unfold add_exif_data, try_except.
    match goal with |- context [let (_, _) := ?b fs in _] => destruct (b fs) as [[[]|e] fs1] end;
      now eexists. }
  destruct (media_is m "video"); [|now eexists].
  unfold set_video_metadata, try_except.
  match goal with |- context [let (_, _) := ?b fs in _] => destruct (b fs) as [[[]|e] fs1] end;
    now eexists.
Qed.

(** A failure of the persisting stage is the failure of the whole block,
    with the directory as that stage left it. *)
Lemma download_try_raise (m : Memory) (add_exif : bool) resp e fs fs1 :
  http_get E (download_link m) = Some resp ->
  persist_asset E m (filename E m) resp fs = (Raise e, fs1) ->
  download_memory_try E m add_exif fs = (Raise e, fs1).
Proof.
  intros Hg Hp. unfold download_memory_try. rewrite Hg. io_norm.
  now rewrite Hp.
Qed.

(** Once the persisting stage has written the asset, the block succeeds
    with the payload length, and the directory is what the metadata stage
    makes of the time-stamped asset. *)
Lemma download_try_written (m : Memory) (add_exif : bool) resp data fs fs0 :
  http_get E (download_link m) = Some resp ->
  persist_asset E m (filename E m) resp fs
  = (Ok tt, <[filename E m := mkFile data None]> fs0) ->
  download_memory_try E m add_exif fs
  = (Ok (Z.of_nat (List.length (content resp))),
     snd (apply_metadata E m add_exif (filename E m)
            (<[filename E m := mkFile data (Some (timestamp (date m)))]> fs0))).
Proof.
  intros Hg Hp. unfold download_memory_try. rewrite Hg. io_norm.
  rewrite Hp. io_norm. rewrite utime_written.
  destruct (apply_metadata_ok m add_exif (filename E m)
              (<[filename E m := mkFile data (Some (timestamp (date m)))]> fs0))
    as [fs' ->].
  reflexivity.
Qed.

Lemma download_memory_of_try_ok (m : Memory) (add_exif : bool) n fs fs' :
  download_memory_try E m add_exif fs = (Ok n, fs') ->
  download_memory E m add_exif fs = ((true, n), fs')
  /\ download_error E m add_exif fs = None.
Proof. intros H. unfold download_memory, download_error. now rewrite H. Qed.

Lemma download_memory_of_try_raise (m : Memory) (add_exif : bool) e fs fs' :
  download_memory_try E m add_exif fs = (Raise e, fs') ->
  download_memory E m add_exif fs = ((false, 0), fs')
  /\ download_error E m add_exif fs = Some e.
Proof. intros H. unfold download_memory, download_error. now rewrite H. Qed.

(** *** Archive without a base entry *)

Lemma unpack_no_main (m : Memory) path body zf fs :
  zip_open E body = Some zf ->
  (forall f, In f (namelist zf) -> str_in "-main" f = false) ->
  unpack_and_merge E m path body fs
  = (Raise (ValueError "No main media file found in ZIP."), fs).
Proof.
  intros Hz Hn. unfold unpack_and_merge. rewrite Hz. io_norm.
  rewrite (first_with_none "-main") by exact Hn. reflexivity.
Qed.

(** *** A record that is neither image nor video *)

Lemma unpack_other_kind (m : Memory) path body fs :
  media_is m "image" = false -> media_is m "video" = false ->
  exists e, unpack_and_merge E m path body fs = (Raise e, fs).
Proof.
  intros Hi Hv. unfold unpack_and_merge. rewrite Hi, Hv.
  destruct (zip_open E body) as [zf|]; io_norm; [|now eexists].
  destruct (first_with "-main" (namelist zf)) as [mn|]; [|now eexists].
  destruct (zf_read zf mn) as [md|]; io_norm; [|now eexists].
  destruct (first_with "-overlay" (namelist zf)) as [on|]; io_norm.
  - destruct (zf_read zf on) as [od|]; io_norm; now eexists.
  - now eexists.
Qed.

Lemma unpack_other_kind_unsupported (m : Memory) path body fs zf mn md :
  media_is m "image" = false -> media_is m "video" = false ->
  zip_open E body = Some zf ->
  first_with "-main" (namelist zf) = Some mn ->
  zf_read zf mn = Some md ->
  (forall on, first_with "-overlay" (namelist zf) = Some on ->
              is_Some (zf_read zf on)) ->
  unpack_and_merge E m path body fs
  = (Raise (ValueError ("Unsupported media type: " ++ media_type m)), fs).
Proof.
  intros Hi Hv Hz Hm Hr Ho. unfold unpack_and_merge.
  rewrite Hi, Hv, Hz. io_norm. rewrite Hm, Hr. io_norm.
  destruct (first_with "-overlay" (namelist zf)) as [on|]; io_norm.
  - destruct (Ho on eq_refl) as [od ->]. io_norm. reflexivity.
  - reflexivity.
Qed.
End Stages.

(** ** One coroutine from response to statistics *)

Section Counting.
Variable E : Env.

(** From the arrival of the response, two steps of coroutine [i] run the
    [try] block and then release the slot and update the statistics. *)
Lemma respond_and_finish (add_exif : bool) (r : Run) (i : nat) (m : Memory)
    (ok : bool) (n : Z) (fs' : gmap string File) :
  tasks r !! i = Some (m, Fetching) ->
  download_memory E m add_exif (disk r) = ((ok, n), fs') ->
  exec E add_exif [i; i] r
  = Some (mkRun (sem_value r + 1) (<[i := (m, Finished)]> (tasks r))
                (update_stats (stats r) ok n) fs').
Proof.
  intros Ht Hd. cbn [exec]. unfold advance at 1. rewrite Ht, Hd.
  unfold advance, set_phase. cbn [tasks sem_value stats disk].
  rewrite list_lookup_insert_eq by (now apply lookup_lt_Some in Ht).
  now rewrite list_insert_insert_eq.
Qed.

Lemma counted_failed (add_exif : bool) (r : Run) (i : nat) (m : Memory) n fs' :
  tasks r !! i = Some (m, Fetching) ->
  download_memory E m add_exif (disk r) = ((false, n), fs') ->
  exists r', exec E add_exif [i; i] r = Some r'
    /\ failed (stats r') = failed (stats r) + 1
    /\ downloaded (stats r') = downloaded (stats r)
    /\ skipped (stats r') = skipped (stats r)
    /\ disk r' = fs'.
Proof.
  intros Ht Hd. rewrite (respond_and_finish add_exif r i m _ _ _ Ht Hd).
  eexists. split; [reflexivity|]. now cbn.
Qed.

Lemma counted_downloaded (add_exif : bool) (r : Run) (i : nat) (m : Memory) n fs' :
  tasks r !! i = Some (m, Fetching) ->
  download_memory E m add_exif (disk r) = ((true, n), fs') ->
  exists r', exec E add_exif [i; i] r = Some r'
    /\ downloaded (stats r') = downloaded (stats r) + 1
    /\ failed (stats r') = failed (stats r)
    /\ skipped (stats r') = skipped (stats r)
    /\ disk r' = fs'.
Proof.
  intros Ht Hd. rewrite (respond_and_finish add_exif r i m _ _ _ Ht Hd).
  eexists. split; [reflexivity|]. now cbn.
Qed.
End Counting.

(** ** C3: an archive without a base entry *)

(** C3. When the composite archive has no entry whose name contains
    "-main", the [try] block ends with the format error, the item is counted
    failed, and the output directory is left exactly as it was. *)
Theorem archive_without_base_fails (E : Env) (m : Memory) (add_exif : bool)
    (resp : Response) (zf : ZipFile) :
  http_get E (download_link m) = Some resp ->
  is_zip resp = true ->
  zip_open E (content resp) = Some zf ->
  (forall f, In f (namelist zf) -> str_in "-main" f = false) ->
  forall fs,
    download_error E m add_exif fs
    = Some (ValueError "No main media file found in ZIP.")
    /\ download_memory E m add_exif fs = ((false, 0), fs)
    /\ (forall r i,
          tasks r !! i = Some (m, Fetching) -> disk r = fs ->
          exists r', exec E add_exif [i; i] r = Some r'
            /\ failed (stats r') = failed (stats r) + 1
            /\ downloaded (stats r') = downloaded (stats r)
            /\ skipped (stats r') = skipped (stats r)
            /\ disk r' = fs).
Proof.
  intros Hg Hz Ho Hn fs.
  assert (Ht : download_memory_try E m add_exif fs
               = (Raise (ValueError "No main media file found in ZIP."), fs)).
  { apply (download_try_raise E m add_exif resp); [exact Hg|].
    unfold persist_asset. rewrite Hz. now apply (unpack_no_main E m _ _ zf). }
  destruct (download_memory_of_try_raise E m add_exif _ fs fs Ht) as [Hd He].
  repeat split; [exact He|exact Hd|].
  intros r i Hi <-. now apply (counted_failed E add_exif r i m 0).
Qed.

Lemma archive_without_base_fails_witness :
  download_error demo_env demo_nomain true ∅
  = Some (ValueError "No main media file found in ZIP.")
  /\ download_memory demo_env demo_nomain true ∅ = ((false, 0), ∅).
Proof.
  assert (Hn : forall f, In f ["readme.txt"] -> str_in "-main" f = false).
  { intros f [<-|[]]. reflexivity. }
  destruct (archive_without_base_fails demo_env demo_nomain true
              (mkResponse (Some "Application/ZIP") demo_zip_nomain)
              (mkZipFile ["readme.txt"] (fun _ => None))
              eq_refl eq_refl eq_refl Hn ∅) as (H1 & H2 & _).
  split; [exact H1|exact H2].
Defined.

(** ** C10: records that are neither image nor video *)

(** The claim as worded fails: for a record of another kind whose payload
    is classified composite but has no base entry, the error raised is the
    format error, not the unsupported-media-type error. *)
Lemma other_kind_archive_error_not_unsupported :
  media_is demo_nomain "image" = false
  /\ media_is demo_nomain "video" = false
  /\ (exists resp, http_get demo_env (download_link demo_nomain) = Some resp
                   /\ is_zip resp = true)
  /\ download_error demo_env demo_nomain true ∅
     <> Some (ValueError ("Unsupported media type: " ++ media_type demo_nomain)).
Proof.
  repeat split.
  - eexists. split; reflexivity.
  - vm_compute. discriminate.
Qed.

(** C10 (amended). For a record whose media kind is neither "image" nor
    "video": a payload classified as a composite archive makes the item
    fail, counted failed, with nothing written (the error is the
    unsupported-media-type error when the archive opens and its base and
    overlay entries can be read); a plain payload is written unchanged to
    the derived file name, which ends in ".mp4", and the item is counted
    downloaded. *)
Theorem other_kind_outcomes (E : Env) (m : Memory) (add_exif : bool)
    (resp : Response) :
  media_is m "image" = false ->
  media_is m "video" = false ->
  http_get E (download_link m) = Some resp ->
  forall fs,
    (is_zip resp = true ->
       download_memory E m add_exif fs = ((false, 0), fs)
       /\ (forall zf mn md,
             zip_open E (content resp) = Some zf ->
             first_with "-main" (namelist zf) = Some mn ->
             zf_read zf mn = Some md ->
             (forall on, first_with "-overlay" (namelist zf) = Some on ->
                         is_Some (zf_read zf on)) ->
             download_error E m add_exif fs
             = Some (ValueError ("Unsupported media type: " ++ media_type m)))
       /\ (forall r i,
             tasks r !! i = Some (m, Fetching) -> disk r = fs ->
             exists r', exec E add_exif [i; i] r = Some r'
               /\ failed (stats r') = failed (stats r) + 1
               /\ downloaded (stats r') = downloaded (stats r)
               /\ skipped (stats r') = skipped (stats r)
               /\ disk r' = fs))
    /\ (is_zip resp = false ->
          download_memory E m add_exif fs
          = ((true, Z.of_nat (List.length (content resp))),
             <[filename E m := mkFile (content resp) (Some (timestamp (date m)))]> fs)
          /\ filename E m = strftime_file (wall E (date m)) ++ ".mp4"
          /\ (forall r i,
                tasks r !! i = Some (m, Fetching) -> disk r = fs ->
                exists r', exec E add_exif [i; i] r = Some r'
                  /\ downloaded (stats r') = downloaded (stats r) + 1
                  /\ failed (stats r') = failed (stats r)
                  /\ skipped (stats r') = skipped (stats r)
                  /\ disk r'
                     = <[filename E m := mkFile (content resp)
                                                (Some (timestamp (date m)))]> fs)).
Proof.
  intros Hi Hv Hg fs. split; intros Hz.
  - destruct (unpack_other_kind E m (filename E m) (content resp) fs Hi Hv)
      as [e He].
    assert (Ht : download_memory_try E m add_exif fs = (Raise e, fs)).
    { apply (download_try_raise E m add_exif resp); [exact Hg|].
      unfold persist_asset. now rewrite Hz. }
    destruct (download_memory_of_try_raise E m add_exif _ fs fs Ht) as [Hd Herr].
    split; [exact Hd|split].
    + intros zf mn md Ho Hm Hr Hov.
      rewrite (unpack_other_kind_unsupported E m _ _ fs zf mn md
                 Hi Hv Ho Hm Hr Hov) in He.
      injection He as <-. exact Herr.
    + intros r i Hr <-. now apply (counted_failed E add_exif r i m 0).
  - assert (Ht : download_memory_try E m add_exif fs
                 = (Ok (Z.of_nat (List.length (content resp))),
                    <[filename E m := mkFile (content resp)
                                             (Some (timestamp (date m)))]> fs)).
    { rewrite (download_try_written E m add_exif resp (content resp) fs fs Hg).
      - unfold apply_metadata. rewrite Hi, Hv. now destruct add_exif.
      - unfold persist_asset. now rewrite Hz. }
    destruct (download_memory_of_try_ok E m add_exif _ fs _ Ht) as [Hd _].
    split; [exact Hd|split].
    + now apply filename_video.
    + intros r i Hr <-.
      now apply (counted_downloaded E add_exif r i m
                   (Z.of_nat (List.length (content resp)))).
Qed.

Lemma other_kind_outcomes_witness :
  download_memory demo_env demo_plain_audio true ∅
  = ((true, 4),
     {["2024-01-15_04-34-59.mp4" := mkFile demo_image_main (Some 1705322099)]})
  /\ download_memory demo_env demo_nomain true ∅ = ((false, 0), ∅).
Proof.
  split.
  - exact (proj1 (proj2 (other_kind_outcomes demo_env demo_plain_audio true
                           (mkResponse (Some "image/jpeg") demo_image_main)
                           eq_refl eq_refl eq_refl ∅) eq_refl)).
  - exact (proj1 (proj1 (other_kind_outcomes demo_env demo_nomain true
                           (mkResponse (Some "Application/ZIP") demo_zip_nomain)
                           eq_refl eq_refl eq_refl ∅) eq_refl)).
Defined.

(** ** C4: the video fallback when the overlay merge fails *)

Section VideoFallback.
Variable E : Env.

(** The archive branch for a video whose overlay merge exits non-zero
    writes the base video. *)
Lemma unpack_video_fallback (m : Memory) path body fs zf mn on main_data ov
    partial :
  media_is m "video" = true ->
  zip_open E body = Some zf ->
  first_with "-main" (namelist zf) = Some mn ->
  first_with "-overlay" (namelist zf) = Some on ->
  zf_read zf mn = Some main_data ->
  zf_read zf on = Some ov ->
  ffmpeg_overlay E main_data ov = ExitNonZero partial ->
  unpack_and_merge E m path body fs
  = (Ok tt, <[path := mkFile main_data None]> fs).
Proof.
  intros Hv Hz Hm Ho Hrm Hro Hff. unfold unpack_and_merge.
  rewrite Hz. io_norm. rewrite Hm, Hrm. io_norm. rewrite Ho, Hro. io_norm.
  rewrite (media_video_not_image m Hv), Hv. unfold merge_video.
  destruct ov as [|b ov]; cbn [overlay_present]; [reflexivity|].
  now rewrite Hff.
Qed.

(** What the metadata remux leaves at the video's path. *)
Lemma set_video_metadata_at_path (m : Memory) (data : bytes) (t : Z) fs :
  media_is m "video" = true ->
  snd (set_video_metadata E (filename E m) m
         (<[filename E m := mkFile data (Some t)]> fs)) !! filename E m
  = Some (mkFile
            match ffmpeg_metadata E data (metadata_args E m) with
            | Exit0 out => out
            | _ => data
            end
            (Some match ffmpeg_metadata E data (metadata_args E m) with
                  | Exit0 _ => timestamp (date m)
                  | _ => t
                  end)).
Proof.
  intros Hv.
  pose proof (temp_path_not_filename E m m (media_video_not_image m Hv)) as Hne.
  unfold set_video_metadata, try_except. io_norm.
  unfold read_bytes at 1. rewrite lookup_insert_eq. cbn [f_data].
  destruct (ffmpeg_metadata E data (metadata_args E m)) as [out|[b|]|];
    cbn [snd].
  - unfold write_bytes, replace_file. rewrite lookup_insert_eq.
    unfold utime. rewrite lookup_insert_eq. cbn [snd f_data].
    now rewrite lookup_insert_eq.
  - unfold write_bytes. cbn [snd].
    rewrite lookup_insert_ne by exact Hne. now rewrite lookup_insert_eq.
  - now rewrite lookup_insert_eq.
  - now rewrite lookup_insert_eq.
Qed.
End VideoFallback.

(** The claim as worded fails: with metadata writing on and a working
    remux, the file left for a video whose overlay merge exited non-zero is
    the remuxed video, not the bytes of the base entry. *)
Lemma video_fallback_output_is_remuxed :
  media_is demo_video "video" = true
  /\ http_get demo_env (download_link demo_video)
     = Some (mkResponse (Some "application/zip") demo_zip_video)
  /\ (exists zf, zip_open demo_env demo_zip_video = Some zf
        /\ first_with "-main" (namelist zf) = Some "a-main.mp4"
        /\ first_with "-overlay" (namelist zf) = Some "a-overlay.png"
        /\ zf_read zf "a-main.mp4" = Some demo_video_main
        /\ zf_read zf "a-overlay.png" = Some demo_overlay_png)
  /\ ffmpeg_overlay demo_env demo_video_main demo_overlay_png = ExitNonZero None
  /\ fst (download_memory demo_env demo_video true ∅) = (true, 5)
  /\ f_data <$> (snd (download_memory demo_env demo_video true ∅)
                   !! filename demo_env demo_video)
     <> Some demo_video_main.
Proof.
  split; [reflexivity|]. split; [reflexivity|]. split.
  { eexists. split; [reflexivity|]. repeat split. }
  split; [reflexivity|]. split; [vm_compute; reflexivity|].
  vm_compute. discriminate.
Qed.

(** C4 (amended). For a video item whose archive holds a base and an
    overlay entry and whose overlay merge exits non-zero, the item succeeds
    and is counted downloaded, and the compositing stage writes the
    unmodified base video: the output file holds exactly the base bytes
    whenever metadata writing is off or the metadata remux does not exit
    with status 0, and otherwise the remux of those base bytes. *)
Theorem video_overlay_failure_fallback (E : Env) (m : Memory)
    (add_exif : bool) (resp : Response) (zf : ZipFile) (mn on : string)
    (main_data ov : bytes) (partial : option bytes) :
  media_is m "video" = true ->
  http_get E (download_link m) = Some resp ->
  is_zip resp = true ->
  zip_open E (content resp) = Some zf ->
  first_with "-main" (namelist zf) = Some mn ->
  first_with "-overlay" (namelist zf) = Some on ->
  zf_read zf mn = Some main_data ->
  zf_read zf on = Some ov ->
  ffmpeg_overlay E main_data ov = ExitNonZero partial ->
  forall fs,
    persist_asset E m (filename E m) resp fs
    = (Ok tt, <[filename E m := mkFile main_data None]> fs)
    /\ fst (download_memory E m add_exif fs)
       = (true, Z.of_nat (List.length (content resp)))
    /\ f_data <$> (snd (download_memory E m add_exif fs) !! filename E m)
       = Some (if add_exif
               then match ffmpeg_metadata E main_data (metadata_args E m) with
                    | Exit0 out => out
                    | _ => main_data
                    end
               else main_data)
    /\ (forall r i,
          tasks r !! i = Some (m, Fetching) -> disk r = fs ->
          exists r', exec E add_exif [i; i] r = Some r'
            /\ downloaded (stats r') = downloaded (stats r) + 1
            /\ failed (stats r') = failed (stats r)
            /\ skipped (stats r') = skipped (stats r)).
Proof.
  intros Hv Hg Hz Ho Hm Hov Hrm Hro Hff fs.
  assert (Hp : persist_asset E m (filename E m) resp fs
               = (Ok tt, <[filename E m := mkFile main_data None]> fs)).
  { unfold persist_asset. rewrite Hz.
    now apply (unpack_video_fallback E m _ _ fs zf mn on main_data ov partial). }
  pose proof (download_try_written E m add_exif resp main_data fs fs Hg Hp) as Ht.
  destruct (download_memory_of_try_ok E m add_exif _ fs _ Ht) as [Hd _].
  split; [exact Hp|]. split; [now rewrite Hd|]. split.
  - rewrite Hd. cbn [snd]. unfold apply_metadata.
    destruct add_exif.
    + rewrite (media_video_not_image m Hv), Hv.
      rewrite set_video_metadata_at_path by exact Hv. cbn.
      now destruct (ffmpeg_metadata E main_data (metadata_args E m)).
    + cbn [mret io_mret io_ret snd]. now rewrite lookup_insert_eq.
  - intros r i Hr <-.
    destruct (counted_downloaded E add_exif r i m _ _ Hr Hd)
      as (r' & H1 & H2 & H3 & H4 & _).
    exists r'. auto.
Qed.

Lemma video_overlay_failure_fallback_witness :
  f_data <$> (snd (download_memory demo_env demo_video false ∅)
                !! filename demo_env demo_video)
  = Some demo_video_main
  /\ fst (download_memory demo_env demo_video false ∅) = (true, 5).
Proof.
  destruct (video_overlay_failure_fallback demo_env demo_video false
              (mkResponse (Some "application/zip") demo_zip_video)
              (mkZipFile ["a-overlay.png"; "a-main.mp4"]
                 (fun n => if String.eqb n "a-main.mp4" then Some demo_video_main
                           else if String.eqb n "a-overlay.png"
                                then Some demo_overlay_png else None))
              "a-main.mp4" "a-overlay.png" demo_video_main demo_overlay_png None
              eq_refl eq_refl eq_refl eq_refl eq_refl eq_refl eq_refl eq_refl
              eq_refl ∅) as (_ & H1 & H2 & _).
  split; [exact H2|exact H1].
Defined.

(** ** C5: image compositing *)

Lemma size_eqb_refl (a : Z * Z) : size_eqb a a = true.
Proof. unfold size_eqb. now rewrite !Z.eqb_refl. Qed.

Lemma size_eqb_eq (a b : Z * Z) : size_eqb a b = true -> a = b.
Proof.
  destruct a, b. unfold size_eqb. cbn [fst snd]. intros H.
  apply andb_prop in H as [H1 H2].
  apply Z.eqb_eq in H1, H2. now subst.
Qed.

Section ImageMerge.
Variable E : Env.

Lemma resize_size (im : Image) (size : Z * Z) (f : Resampling) :
  im_size (resize E im size f) = size.
Proof.
  unfold resize. destruct (size_eqb (im_size im) size) eqn:H; [|reflexivity].
  now apply size_eqb_eq.
Qed.

Lemma resize_mode (im : Image) (size : Z * Z) (f : Resampling) :
  im_mode (resize E im size f) = im_mode im.
Proof. unfold resize. now destruct (size_eqb (im_size im) size). Qed.

Lemma convert_size (im : Image) (mode : ImageMode) :
  im_size (convert E im mode) = im_size im.
Proof. unfold convert. now destruct (same_mode (im_mode im) mode). Qed.

Lemma convert_mode (im : Image) (mode : ImageMode) :
  mode <> OtherMode -> im_mode (convert E im mode) = mode.
Proof.
  unfold convert. intros Hm.
  destruct (im_mode im) eqn:Hi, mode; cbn; congruence.
Qed.

(** Compositing a resized overlay always takes the whole-image path. *)
Lemma alpha_composite_resized (base ov : Image) :
  alpha_composite E (convert E base RGBA)
    (resize E (convert E ov RGBA) (im_size (convert E base RGBA)) LANCZOS)
  = Ok (mkImage (im_size base) RGBA
          (px_over E (im_size base) (im_data (convert E base RGBA))
             (im_data (resize E (convert E ov RGBA) (im_size base) LANCZOS)))).
Proof.
  unfold alpha_composite.
  rewrite resize_mode, resize_size, !convert_mode, convert_size by discriminate.
  cbn [is_rgba andb]. now rewrite size_eqb_refl.
Qed.

(** The rasters behind [convert] and [resize], as the specification words
    them. *)
Lemma convert_rgba_data (im : Image) :
  im_data (convert E im RGBA) = spec_channels E RGBA im.
Proof. unfold convert, spec_channels. now destruct (im_mode im). Qed.

Lemma resize_lanczos_data (im : Image) (size : Z * Z) :
  im_data (resize E im size LANCZOS)
  = spec_resampled E (im_size im) size (im_data im).
Proof.
  unfold resize, spec_resampled.
  destruct (size_eqb (im_size im) size) eqn:Hs.
  - apply size_eqb_eq in Hs. now rewrite bool_decide_eq_true_2.
  - rewrite bool_decide_eq_false_2; [reflexivity|].
    intros Heq. rewrite Heq, size_eqb_refl in Hs. discriminate.
Qed.

Lemma convert_flatten (im : Image) :
  im_mode im = RGBA ->
  convert E im RGB
  = mkImage (im_size im) RGB
      (px_convert E RGBA RGB (im_size im) (im_data im)).
Proof. unfold convert. now intros ->. Qed.
End ImageMerge.

(** C5. In the image branch the base is decoded and brought to 4 channels;
    an overlay, when present, is decoded, brought to 4 channels, resampled
    with the Lanczos filter from its own dimensions to exactly the base's
    and alpha-composited over the whole base; the result is flattened to
    3 channels and saved as JPEG; without an overlay the base is flattened
    and saved directly.  The saved image has the base's dimensions and no
    alpha channel.  The composition is stated on the rasters themselves,
    the raster operations being those of the imaging library. *)
Theorem image_composite_output (E : Env) (main_data : bytes)
    (overlay_data : option bytes) (base : Image) :
  pil_open E main_data = Some base ->
  (forall ovb, overlay_present overlay_data = Some ovb ->
               is_Some (pil_open E ovb)) ->
  let overlay := overlay_present overlay_data ≫= pil_open E in
  let merged := spec_composite E base overlay in
  merge_image E main_data overlay_data = Ok merged
  /\ im_size merged = im_size base
  /\ im_mode merged = RGB
  /\ (forall ov,
        overlay = Some ov ->
        im_mode base = RGB -> im_mode ov = RGBA ->
        im_size ov <> im_size base ->
        im_data merged
        = px_convert E RGBA RGB (im_size base)
            (px_over E (im_size base)
               (px_convert E RGB RGBA (im_size base) (im_data base))
               (px_resample E LANCZOS (im_size ov) (im_size base)
                  (im_data ov))))
  /\ (overlay = None ->
      im_mode base = RGB ->
      im_data merged
      = px_convert E RGBA RGB (im_size base)
          (px_convert E RGB RGBA (im_size base) (im_data base)))
  /\ (forall path fs,
        save_jpeg E merged path fs
        = match jpeg_encode E RGB (im_size base) (im_data merged) with
          | Some jpg => (Ok tt, <[path := mkFile jpg None]> fs)
          | None => (Raise OSError, emptied path fs)
          end)
  /\ (forall (m : Memory) path body zf mn,
        media_is m "image" = true ->
        zip_open E body = Some zf ->
        first_with "-main" (namelist zf) = Some mn ->
        zf_read zf mn = Some main_data ->
        match first_with "-overlay" (namelist zf) with
        | Some on => is_Some overlay_data /\ zf_read zf on = overlay_data
        | None => overlay_data = None
        end ->
        forall fs,
          unpack_and_merge E m path body fs = save_jpeg E merged path fs).
Proof.
  intros Hb Hov overlay merged.
  assert (Hm : merge_image E main_data overlay_data = Ok merged).
  { unfold merge_image, merged, overlay. rewrite Hb.
    destruct (overlay_present overlay_data) as [ovb|] eqn:Hp;
      cbn [mbind option_bind].
    - destruct (Hov ovb eq_refl) as [ov Ho]. rewrite Ho.
      rewrite alpha_composite_resized.
      rewrite convert_flatten by reflexivity. cbn [im_size im_data].
      rewrite convert_rgba_data, resize_lanczos_data, convert_rgba_data.
      now rewrite convert_size.
    - rewrite convert_flatten by (apply convert_mode; discriminate).
      now rewrite convert_size, convert_rgba_data. }
  split; [exact Hm|]. split; [reflexivity|]. split; [reflexivity|]. split.
  { intros ov -> Hbm Hom Hne. unfold merged, spec_composite, spec_channels,
      spec_resampled. cbn [im_data]. rewrite Hbm, Hom.
    now rewrite bool_decide_eq_false_2. }
  split.
  { intros -> Hbm. unfold merged, spec_composite, spec_channels.
    cbn [im_data]. now rewrite Hbm. }
  split.
  { intros path fs. now rewrite save_jpeg_run. }
  intros m path body zf mn Hi Hz Hmn Hr Ho fs.
  unfold unpack_and_merge. rewrite Hz. io_norm. rewrite Hmn, Hr. io_norm.
  rewrite Hi.
  destruct (first_with "-overlay" (namelist zf)) as [on|].
  - destruct Ho as [[ovb ->] ->]. io_norm. now rewrite Hm.
  - subst overlay_data. io_norm. now rewrite Hm.
Qed.

Lemma image_composite_output_witness :
  merge_image demo_env demo_image_main (Some demo_overlay_png)
  = Ok (mkImage (100, 100) RGB [9; 9; 9; 255])
  /\ unpack_and_merge demo_env demo_image "out.jpg" demo_zip_image ∅
     = (Ok tt, {["out.jpg" := mkFile demo_jpeg_out None]}).
Proof.
  assert (Hov : forall ovb,
            overlay_present (Some demo_overlay_png) = Some ovb ->
            is_Some (pil_open demo_env ovb)).
  { intros ovb [= <-]. now eexists. }
  destruct (image_composite_output demo_env demo_image_main
              (Some demo_overlay_png) (mkImage (100, 100) RGB [1; 2; 3])
              eq_refl Hov) as (H1 & _ & _ & _ & _ & H5 & H6).
  split.
  { rewrite H1. vm_compute. reflexivity. }
  rewrite (H6 demo_image "out.jpg" demo_zip_image
             (mkZipFile ["b-main.jpg"; "b-overlay.png"]
                (fun n => if String.eqb n "b-main.jpg" then Some demo_image_main
                          else if String.eqb n "b-overlay.png"
                               then Some demo_overlay_png else None))
             "b-main.jpg" eq_refl eq_refl eq_refl eq_refl
             (conj (ex_intro _ demo_overlay_png eq_refl) eq_refl) ∅).
  rewrite H5. reflexivity.
Defined.

(** ** The event loop of [download_all] *)

(** Replacing the phase of one coroutine moves one unit between counters. *)
Lemma count_insert {A} (f : A -> bool) (l : list A) (i : nat) (x y : A) :
  l !! i = Some y ->
  (List.length (List.filter f (<[i := x]> l)) + (if f y then 1 else 0)
   = List.length (List.filter f l) + (if f x then 1 else 0))%nat.
Proof.
  revert i. induction l as [|a l IH]; intros [|i] H; try discriminate.
  - injection H as ->. cbn. destruct (f x), (f y); cbn; lia.
  - cbn in H. specialize (IH i H). cbn.
    destruct (f a); cbn; [f_equal|]; exact IH.
Qed.

Lemma sum_insert {A} (f : A -> nat) (l : list A) (i : nat) (x y : A) :
  l !! i = Some y ->
  (list_sum (List.map f (<[i := x]> l)) + f y
   = list_sum (List.map f l) + f x)%nat.
Proof.
  revert i. induction l as [|a l IH]; intros [|i] H; try discriminate.
  - injection H as ->. simpl. lia.
  - simpl in H. specialize (IH i H). simpl. lia.
Qed.

Lemma map_fst_insert {A B} (l : list (A * B)) (i : nat) (a : A) (b b' : B) :
  l !! i = Some (a, b) ->
  List.map fst (<[i := (a, b')]> l) = List.map fst l.
Proof.
  revert i. induction l as [|x l IH]; intros [|i] H; try discriminate.
  - injection H as ->. reflexivity.
  - simpl in H. simpl. f_equal. exact (IH i H).
Qed.

Section EventLoop.
Variable E : Env.

Lemma skip_loop_from (skip : bool) fs (ms : list Memory) (st : Stats)
    (todo : list Memory) :
  fold_left
    (fun '(stats, to_download) memory =>
       if should_skip E skip fs memory
       then (mkStats (downloaded stats) (skipped stats + 1) (failed stats)
                     (mb stats), to_download)
       else (stats, (to_download ++ [memory])%list))
    ms (st, todo)
  = (mkStats (downloaded st)
             (skipped st
              + Z.of_nat (List.length (List.filter (should_skip E skip fs) ms)))
             (failed st) (mb st),
     (todo ++ List.filter (fun m => negb (should_skip E skip fs m)) ms)%list).
Proof.
  revert st todo. induction ms as [|m ms IH]; intros st todo.
  - cbn. rewrite Z.add_0_r, app_nil_r. now destruct st.
  - cbn [fold_left List.filter]. destruct (should_skip E skip fs m); cbn [negb].
    + rewrite IH. cbn [downloaded skipped failed mb List.length].
      f_equal. f_equal. lia.
    + rewrite IH. now rewrite <- app_assoc.
Qed.

(** The first loop counts the records to skip and keeps the others. *)
Lemma skip_loop_spec (skip : bool) fs (ms : list Memory) :
  skip_loop E skip fs ms
  = (mkStats 0 (Z.of_nat (List.length (List.filter (should_skip E skip fs) ms)))
             0 (S754_zero false),
     List.filter (fun m => negb (should_skip E skip fs m)) ms).
Proof. unfold skip_loop. now rewrite skip_loop_from. Qed.

Lemma filter_split_length {A} (f : A -> bool) (l : list A) :
  (List.length (List.filter f l)
   + List.length (List.filter (fun x => negb (f x)) l) = List.length l)%nat.
Proof.
  induction l as [|a l IH]; [reflexivity|].
  cbn. destruct (f a); cbn; lia.
Qed.

Lemma queued_counts (ms : list Memory) (f : phase -> bool) :
  f Queued = false ->
  List.filter (fun t : Memory * phase => f (snd t))
              (List.map (fun m => (m, Queued)) ms) = [].
Proof.
  intros H. induction ms as [|m ms IH]; [reflexivity|].
  cbn. now rewrite H.
Qed.

Lemma start_invariant (ms : list Memory) (K : Z) (skip : bool) fs r0 :
  download_all_start E ms K skip fs = Ok r0 ->
  run_invariant K
    (Z.of_nat (List.length (List.filter (should_skip E skip fs) ms)))
    (List.filter (fun m => negb (should_skip E skip fs m)) ms) r0
  /\ disk r0 = fs.
Proof.
  unfold download_all_start. destruct (K <? 0) eqn:HK; [discriminate|].
  rewrite skip_loop_spec. intros [= <-].
  apply Z.ltb_ge in HK. unfold run_invariant, active, finished_count.
  cbn [sem_value tasks stats disk downloaded failed skipped].
  rewrite !queued_counts by reflexivity. cbn [List.length].
  repeat split; try lia.
  rewrite List.map_map. cbn [fst]. apply List.map_id.
Qed.

Lemma advance_invariant (add_exif : bool) (K nsk : Z) (sched : list Memory)
    (i : nat) (r r' : Run) :
  run_invariant K nsk sched r ->
  advance E add_exif i r = Some r' ->
  run_invariant K nsk sched r'.
Proof.
  intros (Hs & Hp & Hc & Hd & Hf & Hk & Hm) Ha.
  unfold advance in Ha.
  destruct (tasks r !! i) as [[m ph]|] eqn:Ht; [|discriminate].
  unfold run_invariant, active, finished_count in *.
  pose proof (count_insert (fun t : Memory * phase => holds_slot (snd t))
                (tasks r) i) as Hh.
  pose proof (count_insert (fun t : Memory * phase => is_finished (snd t))
                (tasks r) i) as Hfin.
  destruct ph as [| |ok n|].
  - destruct (0 <? sem_value r) eqn:Hpos; [|discriminate].
    apply Z.ltb_lt in Hpos. injection Ha as <-.
    specialize (Hh (m, Fetching) _ Ht). specialize (Hfin (m, Fetching) _ Ht).
    unfold set_phase. cbn [sem_value tasks stats snd holds_slot is_finished] in *.
    rewrite (map_fst_insert _ _ _ _ _ Ht). repeat split; try lia; assumption.
  - destruct (download_memory E m add_exif (disk r)) as [[ok n] fs'].
    injection Ha as <-.
    specialize (Hh (m, Closing ok n) _ Ht).
    specialize (Hfin (m, Closing ok n) _ Ht).
    unfold set_phase. cbn [sem_value tasks stats snd holds_slot is_finished] in *.
    rewrite (map_fst_insert _ _ _ _ _ Ht). repeat split; try lia; assumption.
  - injection Ha as <-.
    specialize (Hh (m, Finished) _ Ht). specialize (Hfin (m, Finished) _ Ht).
    unfold set_phase, update_stats.
    cbn [sem_value tasks stats snd holds_slot is_finished] in *.
    rewrite (map_fst_insert _ _ _ _ _ Ht).
    destruct ok; cbn [downloaded failed skipped]; repeat split; try lia;
      assumption.
  - discriminate.
Qed.

Lemma exec_invariant (add_exif : bool) (K nsk : Z) (sched : list Memory)
    (schedule : list nat) (r r' : Run) :
  run_invariant K nsk sched r ->
  exec E add_exif schedule r = Some r' ->
  run_invariant K nsk sched r'.
Proof.
  revert r. induction schedule as [|i rest IH]; intros r Hr He.
  - now injection He as <-.
  - cbn in He. destruct (advance E add_exif i r) as [r1|] eqn:Ha; [|discriminate].
    apply (IH r1); [|exact He]. now apply (advance_invariant add_exif K nsk sched i r).
Qed.

Lemma exec_app (add_exif : bool) (s1 s2 : list nat) (r : Run) :
  exec E add_exif (s1 ++ s2)%list r
  = match exec E add_exif s1 r with
    | Some r1 => exec E add_exif s2 r1
    | None => None
    end.
Proof.
  revert r. induction s1 as [|i s1 IH]; intros r; [reflexivity|].
  cbn. now destruct (advance E add_exif i r).
Qed.

(** Every step takes one of the steps that are left. *)
Lemma advance_remaining (add_exif : bool) (i : nat) (r r' : Run) :
  advance E add_exif i r = Some r' -> S (remaining r') = remaining r.
Proof.
  unfold advance, remaining. intros Ha.
  destruct (tasks r !! i) as [[m ph]|] eqn:Ht; [|discriminate].
  pose proof (sum_insert (fun t : Memory * phase => steps_left (snd t))
                (tasks r) i) as Hsum.
  destruct ph as [| |ok n|].
  - destruct (0 <? sem_value r); [|discriminate]. injection Ha as <-.
    specialize (Hsum (m, Fetching) _ Ht). unfold set_phase. cbn [tasks snd steps_left] in *. lia.
  - destruct (download_memory E m add_exif (disk r)) as [[ok n] fs'].
    injection Ha as <-.
    specialize (Hsum (m, Closing ok n) _ Ht). unfold set_phase. cbn [tasks snd steps_left] in *. lia.
  - injection Ha as <-.
    specialize (Hsum (m, Finished) _ Ht). unfold set_phase. cbn [tasks snd steps_left] in *. lia.
  - discriminate.
Qed.

Lemma exec_remaining (add_exif : bool) (schedule : list nat) (r r' : Run) :
  exec E add_exif schedule r = Some r' ->
  (List.length schedule + remaining r' = remaining r)%nat.
Proof.
  revert r. induction schedule as [|i rest IH]; intros r He.
  - now injection He as <-.
  - cbn in He. destruct (advance E add_exif i r) as [r1|] eqn:Ha; [|discriminate].
    specialize (IH r1 He). apply advance_remaining in Ha. cbn. lia.
Qed.

Lemma all_finished_count (r : Run) :
  all_finished r = true ->
  finished_count r = Z.of_nat (List.length (tasks r)).
Proof.
  unfold all_finished, finished_count. intros H. f_equal.
  induction (tasks r) as [|t ts IH]; [reflexivity|].
  cbn in H. apply andb_prop in H as [Ht Hts]. cbn. rewrite Ht. cbn.
  now rewrite IH.
Qed.

Lemma not_finished_task (r : Run) :
  all_finished r = false ->
  exists i m ph, tasks r !! i = Some (m, ph) /\ is_finished ph = false.
Proof.
  unfold all_finished. induction (tasks r) as [|[m ph] ts IH]; [discriminate|].
  cbn. destruct (is_finished ph) eqn:Hph; cbn.
  - intros H. destruct (IH H) as (i & m' & ph' & Hi & Hf).
    now exists (S i), m', ph'.
  - intros _. now exists O, m, ph.
Qed.

Lemma holder_exists (ts : list (Memory * phase)) :
  (0 < List.length (List.filter (fun t : Memory * phase => holds_slot (snd t)) ts))%nat ->
  exists i m ph, ts !! i = Some (m, ph) /\ holds_slot ph = true.
Proof.
  induction ts as [|[m ph] ts IH]; cbn; [lia|].
  destruct (holds_slot ph) eqn:Hph.
  - intros _. now exists O, m, ph.
  - intros H. destruct (IH H) as (i & m' & ph' & Hi & Hh).
    now exists (S i), m', ph'.
Qed.

(** With a positive bound the event loop is never stuck before
    [asyncio.gather] returns. *)
Lemma progress (add_exif : bool) (K nsk : Z) (sched : list Memory) (r : Run) :
  0 < K ->
  run_invariant K nsk sched r ->
  all_finished r = false ->
  exists i r', advance E add_exif i r = Some r'.
Proof.
  intros HK (Hs & Hp & _) Hnf. unfold active in Hs.
  destruct (Nat.eq_dec
              (List.length (List.filter (fun t : Memory * phase => holds_slot (snd t))
                                        (tasks r))) 0%nat) as [Hz|Hnz].
  - destruct (not_finished_task r Hnf) as (i & m & ph & Hi & Hf).
    exists i. unfold advance. rewrite Hi.
    destruct ph as [| |ok n|]; try discriminate.
    + rewrite Hz in Hs. replace (0 <? sem_value r) with true
        by (symmetry; apply Z.ltb_lt; lia). now eexists.
    + destruct (download_memory E m add_exif (disk r)) as [[ok n] fs'].
      now eexists.
    + now eexists.
  - destruct (holder_exists (tasks r)) as (i & m & ph & Hi & Hh); [lia|].
    exists i. unfold advance. rewrite Hi.
    destruct ph as [| |ok n|]; try discriminate.
    + destruct (download_memory E m add_exif (disk r)) as [[ok n] fs'].
      now eexists.
    + now eexists.
Qed.

(** With a positive bound every state of the run can be completed. *)
Lemma completion (add_exif : bool) (K nsk : Z) (sched : list Memory) (r : Run) :
  0 < K ->
  run_invariant K nsk sched r ->
  exists schedule r',
    exec E add_exif schedule r = Some r' /\ all_finished r' = true.
Proof.
  intros HK. remember (remaining r) as k eqn:Hk. revert r Hk.
  induction k as [|k IH]; intros r Hk Hinv.
  - destruct (all_finished r) eqn:Hf.
    + now exists [], r.
    + destruct (progress add_exif K nsk sched r HK Hinv Hf) as (i & r1 & Ha).
      apply advance_remaining in Ha. lia.
  - destruct (all_finished r) eqn:Hf.
    + now exists [], r.
    + destruct (progress add_exif K nsk sched r HK Hinv Hf) as (i & r1 & Ha).
      pose proof (advance_remaining add_exif i r r1 Ha) as Hrem.
      destruct (IH r1) as (s & r' & He & Hfin); [lia| |].
      * now apply (advance_invariant add_exif K nsk sched i r).
      * exists (i :: s), r'. cbn. now rewrite Ha.
Qed.
End EventLoop.

Section RunFacts.
Variable E : Env.

Lemma task_scheduled (r : Run) (i : nat) (m : Memory) (ph : phase) :
  tasks r !! i = Some (m, ph) -> In m (List.map fst (tasks r)).
Proof.
  intros H. apply list_elem_of_lookup_2 in H. apply list_elem_of_In in H.
  apply (in_map fst) in H. exact H.
Qed.

(** A step writes only inside the footprint of its coroutine's record. *)
Lemma advance_disk (add_exif : bool) (i : nat) (r r' : Run) (p : string) :
  advance E add_exif i r = Some r' ->
  (forall m, In m (List.map fst (tasks r)) -> ~ footprint E m p) ->
  disk r' !! p = disk r !! p.
Proof.
  unfold advance. intros Ha Hp.
  destruct (tasks r !! i) as [[m ph]|] eqn:Ht; [|discriminate].
  pose proof (Hp m (task_scheduled r i m ph Ht)) as Hm.
  destruct ph as [| |ok n|].
  - destruct (0 <? sem_value r); [|discriminate]. now injection Ha as <-.
  - pose proof (download_memory_footprint E m add_exif (disk r) p Hm) as Hd.
    destruct (download_memory E m add_exif (disk r)) as [[ok n] fs'].
    injection Ha as <-. exact Hd.
  - now injection Ha as <-.
  - discriminate.
Qed.

Lemma exec_disk (add_exif : bool) (K nsk : Z) (sched : list Memory)
    (schedule : list nat) (r r' : Run) (p : string) :
  run_invariant K nsk sched r ->
  exec E add_exif schedule r = Some r' ->
  (forall m, In m sched -> ~ footprint E m p) ->
  disk r' !! p = disk r !! p.
Proof.
  revert r. induction schedule as [|i rest IH]; intros r Hinv He Hp.
  - now injection He as <-.
  - cbn in He. destruct (advance E add_exif i r) as [r1|] eqn:Ha; [|discriminate].
    rewrite (IH r1); [| |exact He|exact Hp].
    + apply (advance_disk add_exif i r r1 p Ha).
      destruct Hinv as (_ & _ & _ & _ & _ & _ & ->). exact Hp.
    + now apply (advance_invariant E add_exif K nsk sched i r).
Qed.

(** A step leaves the counters alone unless it is the statistics update
    of one coroutine, which adds one to exactly one of [downloaded] and
    [failed]. *)
Lemma advance_stats (add_exif : bool) (i : nat) (r r' : Run) :
  advance E add_exif i r = Some r' ->
  skipped (stats r') = skipped (stats r)
  /\ ((downloaded (stats r') = downloaded (stats r)
       /\ failed (stats r') = failed (stats r)
       /\ finished_count r' = finished_count r)
      \/ (exists m ok n,
            tasks r !! i = Some (m, Closing ok n)
            /\ tasks r' !! i = Some (m, Finished)
            /\ finished_count r' = finished_count r + 1
            /\ downloaded (stats r')
               = downloaded (stats r) + (if ok then 1 else 0)
            /\ failed (stats r') = failed (stats r) + (if ok then 0 else 1))).
Proof.
  unfold advance. intros Ha.
  destruct (tasks r !! i) as [[m ph]|] eqn:Ht; [|discriminate].
  pose proof (count_insert (fun t : Memory * phase => is_finished (snd t))
                (tasks r) i) as Hfin.
  unfold finished_count.
  destruct ph as [| |ok n|].
  - destruct (0 <? sem_value r); [|discriminate]. injection Ha as <-.
    specialize (Hfin (m, Fetching) _ Ht). unfold set_phase.
    cbn [tasks stats snd is_finished] in *. split; [reflexivity|left].
    repeat split. lia.
  - destruct (download_memory E m add_exif (disk r)) as [[ok n] fs'].
    injection Ha as <-.
    specialize (Hfin (m, Closing ok n) _ Ht). unfold set_phase.
    cbn [tasks stats snd is_finished] in *. split; [reflexivity|left].
    repeat split. lia.
  - injection Ha as <-.
    specialize (Hfin (m, Finished) _ Ht). unfold set_phase, update_stats.
    cbn [tasks stats snd is_finished] in *.
    split; [now destruct ok|right]. exists m, ok, n.
    split; [reflexivity|]. split.
    { apply list_lookup_insert_eq. now apply lookup_lt_Some in Ht. }
    split; [lia|]. destruct ok; cbn [downloaded failed]; lia.
  - discriminate.
Qed.
End RunFacts.

(** ** C1: the statistics account for every record *)

(** C1. When [download_all] completes, downloaded + skipped + failed is the
    number of manifest records: every record whose output file exists under
    skip-existing is counted once in skipped, and every other record adds
    one to exactly one of downloaded and failed, at its own statistics
    update.  With a positive bound (or nothing to download) the run does
    complete, whatever the order in which the event loop resumes the
    coroutines. *)
Theorem stats_account_for_every_record (E : Env) (ms : list Memory) (K : Z)
    (add_exif skip : bool) (fs : gmap string File) (r0 : Run) :
  download_all_start E ms K skip fs = Ok r0 ->
  (forall schedule r,
     exec E add_exif schedule r0 = Some r ->
     all_finished r = true ->
     downloaded (stats r) + skipped (stats r) + failed (stats r)
     = Z.of_nat (List.length ms)
     /\ skipped (stats r)
        = Z.of_nat (List.length (List.filter (should_skip E skip fs) ms))
     /\ downloaded (stats r) + failed (stats r)
        = Z.of_nat (List.length
                      (List.filter (fun m => negb (should_skip E skip fs m)) ms))
     /\ 0 <= downloaded (stats r) /\ 0 <= failed (stats r))
  /\ (forall schedule r i r',
        exec E add_exif schedule r0 = Some r ->
        advance E add_exif i r = Some r' ->
        skipped (stats r') = skipped (stats r)
        /\ ((downloaded (stats r') = downloaded (stats r)
             /\ failed (stats r') = failed (stats r)
             /\ finished_count r' = finished_count r)
            \/ (exists m ok n,
                  tasks r !! i = Some (m, Closing ok n)
                  /\ tasks r' !! i = Some (m, Finished)
                  /\ finished_count r' = finished_count r + 1
                  /\ downloaded (stats r')
                     = downloaded (stats r) + (if ok then 1 else 0)
                  /\ failed (stats r')
                     = failed (stats r) + (if ok then 0 else 1))))
  /\ (forall schedule r,
        exec E add_exif schedule r0 = Some r ->
        (List.length schedule <= 3 * List.length (tasks r0))%nat)
  /\ (0 < K \/ tasks r0 = [] ->
      forall schedule r,
        exec E add_exif schedule r0 = Some r ->
        exists rest r',
          exec E add_exif (schedule ++ rest)%list r0 = Some r'
          /\ all_finished r' = true).
Proof.
  intros Hstart. destruct (start_invariant E ms K skip fs r0 Hstart) as [Hinv Hdisk].
  split; [|split; [|split]].
  - intros schedule r He Hfin.
    destruct (exec_invariant E add_exif _ _ _ schedule r0 r Hinv He)
      as (_ & _ & Hc & Hd & Hf & Hk & Hm).
    rewrite (all_finished_count r Hfin) in Hc.
    rewrite <- (List.length_map fst), Hm in Hc.
    pose proof (filter_split_length (should_skip E skip fs) ms) as Hsplit.
    repeat split; try assumption; lia.
  - intros schedule r i r' _ Ha. now apply (advance_stats E add_exif i r r').
  - intros schedule r He.
    pose proof (exec_remaining E add_exif schedule r0 r He) as Hrem.
    assert (Hb : (remaining r0 <= 3 * List.length (tasks r0))%nat).
    { unfold remaining. induction (tasks r0) as [|[m ph] ts IH]; [cbn; lia|].
      simpl. destruct ph; simpl; lia. }
    lia.
  - intros HK schedule r He.
    pose proof (exec_invariant E add_exif _ _ _ schedule r0 r Hinv He) as Hr.
    assert (Hex : exists rest r',
               exec E add_exif rest r = Some r' /\ all_finished r' = true).
    { destruct HK as [HK|Hnil].
      - exact (completion E add_exif _ _ _ r HK Hr).
      - exists [], r. split; [reflexivity|].
        destruct Hinv as (_ & _ & _ & _ & _ & _ & Hm0).
        destruct Hr as (_ & _ & _ & _ & _ & _ & Hm).
        rewrite Hnil in Hm0. cbn in Hm0. rewrite <- Hm0 in Hm.
        unfold all_finished. destruct (tasks r); [reflexivity|discriminate]. }
    destruct Hex as (rest & r' & He' & Hfin).
    exists rest, r'. split; [|exact Hfin]. rewrite exec_app, He. exact He'.
Qed.

Lemma demo_start_eq :
  download_all_start demo_env demo_manifest 2 true demo_disk = Ok demo_start.
Proof. vm_compute. reflexivity. Qed.

Lemma demo_final_eq :
  exec demo_env true demo_schedule demo_start = Some demo_final.
Proof. vm_compute. reflexivity. Qed.

Lemma demo_midway_eq :
  exec demo_env true [0; 1]%nat demo_start = Some demo_midway.
Proof. vm_compute. reflexivity. Qed.

Lemma stats_account_for_every_record_witness :
  downloaded (stats demo_final) + skipped (stats demo_final)
  + failed (stats demo_final) = 5.
Proof.
  exact (proj1 (proj1 (stats_account_for_every_record demo_env demo_manifest 2
                         true true demo_disk demo_start demo_start_eq)
                  demo_schedule demo_final demo_final_eq eq_refl)).
Defined.

(** ** C9: the semaphore bounds the executions in flight *)

(** C9. In every state of a run with bound K at most K executions are
    between [acquire] and [release], the semaphore's counter being K minus
    their number; a waiting coroutine acquires a slot exactly when fewer
    than K executions hold one, and stays suspended otherwise. *)
Theorem semaphore_bounds_active (E : Env) (ms : list Memory) (K : Z)
    (add_exif skip : bool) (fs : gmap string File) (r0 : Run) :
  download_all_start E ms K skip fs = Ok r0 ->
  forall schedule r,
    exec E add_exif schedule r0 = Some r ->
    0 <= active r <= K
    /\ sem_value r = K - active r
    /\ (forall i m,
          tasks r !! i = Some (m, Queued) ->
          (active r < K ->
           exists r', advance E add_exif i r = Some r'
                      /\ tasks r' !! i = Some (m, Fetching)
                      /\ active r' = active r + 1)
          /\ (K <= active r -> advance E add_exif i r = None)).
Proof.
  intros Hstart schedule r He.
  destruct (start_invariant E ms K skip fs r0 Hstart) as [Hinv _].
  pose proof (exec_invariant E add_exif _ _ _ schedule r0 r Hinv He) as Hr.
  destruct Hr as (Hs & Hp & _).
  assert (Ha : 0 <= active r) by (unfold active; lia).
  split; [lia|]. split; [lia|].
  intros i m Hi. split.
  - intros Hlt. unfold advance. rewrite Hi.
    replace (0 <? sem_value r) with true by (symmetry; apply Z.ltb_lt; lia).
    eexists. split; [reflexivity|]. unfold set_phase, active.
    cbn [tasks]. split.
    + apply list_lookup_insert_eq. now apply lookup_lt_Some in Hi.
    + pose proof (count_insert (fun t : Memory * phase => holds_slot (snd t))
                    (tasks r) i (m, Fetching) _ Hi) as Hc.
      cbn [snd holds_slot] in Hc. lia.
  - intros Hge. unfold advance. rewrite Hi.
    replace (0 <? sem_value r) with false by (symmetry; apply Z.ltb_ge; lia).
    reflexivity.
Qed.

Lemma semaphore_bounds_active_witness :
  active demo_midway = 2
  /\ advance demo_env true 2 demo_midway = None.
Proof.
  destruct (semaphore_bounds_active demo_env demo_manifest 2 true true
              demo_disk demo_start demo_start_eq [0; 1]%nat demo_midway
              demo_midway_eq) as (Hb & Hs & Hq).
  assert (Ha : active demo_midway = 2) by (vm_compute; reflexivity).
  split; [exact Ha|].
  apply (proj2 (Hq 2%nat demo_plain_audio eq_refl)). rewrite Ha. lia.
Defined.

(** ** C8: skip-existing *)

(** C8. With skip-existing on, a record whose derived file is already in
    the output directory is counted skipped and nothing else happens for
    it: it gets no coroutine (so no request is sent and no semaphore slot is
    taken for it), no coroutine of the run writes its file name, and the
    file stays exactly as it was. *)
Theorem skip_existing_takes_no_action (E : Env) (ms : list Memory) (K : Z)
    (add_exif skip : bool) (fs : gmap string File) (r0 : Run) (m : Memory) :
  download_all_start E ms K skip fs = Ok r0 ->
  In m ms ->
  skip = true ->
  is_Some (fs !! filename E m) ->
  In m (List.filter (should_skip E skip fs) ms)
  /\ skipped (stats r0)
     = Z.of_nat (List.length (List.filter (should_skip E skip fs) ms))
  /\ forall schedule r,
       exec E add_exif schedule r0 = Some r ->
       skipped (stats r) = skipped (stats r0)
       /\ ~ In m (List.map fst (tasks r))
       /\ (forall m', In m' (List.map fst (tasks r)) ->
                      ~ footprint E m' (filename E m))
       /\ disk r !! filename E m = fs !! filename E m.
Proof.
  intros Hstart Hin -> Hex.
  destruct (start_invariant E ms K true fs r0 Hstart) as [Hinv Hdisk].
  assert (Hskip : should_skip E true fs m = true).
  { unfold should_skip. cbn [andb]. now apply bool_decide_eq_true. }
  assert (Hfoot : forall m',
            In m' (List.filter (fun x => negb (should_skip E true fs x)) ms) ->
            ~ footprint E m' (filename E m)).
  { intros m' Hm' [Heq|[Hv Heq]].
    - apply filter_In in Hm' as [_ Hns]. apply negb_true_iff in Hns.
      unfold should_skip in Hns. cbn [andb] in Hns.
      apply bool_decide_eq_false in Hns. apply Hns. now rewrite <- Heq.
    - symmetry in Heq. revert Heq.
      apply temp_path_not_filename. now apply media_video_not_image. }
  split; [apply filter_In; now split|].
  split; [now destruct Hinv as (_ & _ & _ & _ & _ & -> & _)|].
  intros schedule r He.
  pose proof (exec_invariant E add_exif _ _ _ schedule r0 r Hinv He) as Hr.
  destruct Hr as (_ & _ & _ & _ & _ & Hk & Hm).
  pose proof Hinv as (_ & _ & _ & _ & _ & Hk0 & _).
  split; [now rewrite Hk, Hk0|]. split.
  { rewrite Hm. intros Hc. apply filter_In in Hc as [_ Hc].
    now rewrite Hskip in Hc. }
  split; [now rewrite Hm|].
  rewrite <- Hdisk.
  now apply (exec_disk E add_exif _ _ _ schedule r0 r _ Hinv He).
Qed.

Lemma skip_existing_takes_no_action_witness :
  disk demo_final !! "2024-01-15_04-34-57.jpg" = Some (mkFile [x01] None)
  /\ ~ In demo_image (List.map fst (tasks demo_final))
  /\ skipped (stats demo_final) = 1.
Proof.
  assert (Hin : In demo_image demo_manifest) by (right; left; reflexivity).
  assert (Hex : is_Some (demo_disk !! filename demo_env demo_image))
    by (vm_compute; eauto).
  destruct (skip_existing_takes_no_action demo_env demo_manifest 2 true true
              demo_disk demo_start demo_image demo_start_eq Hin eq_refl Hex)
    as (_ & _ & H).
  destruct (H demo_schedule demo_final demo_final_eq) as (H1 & H2 & _ & H4).
  split; [|split; [exact H2|]].
  - change "2024-01-15_04-34-57.jpg" with (filename demo_env demo_image).
    rewrite H4. vm_compute. reflexivity.
  - rewrite H1. vm_compute. reflexivity.
Defined.

(** ** Calendar arithmetic *)

(** The year within a 400-year cycle is recovered from the day within the
    cycle. *)
Lemma year_of_cycle_day (yoe doy : Z) :
  0 <= yoe <= 399 ->
  0 <= doy <= 365 ->
  (doy = 365 ->
   (yoe + 1) mod 4 = 0 /\ ((yoe + 1) mod 100 <> 0 \/ yoe + 1 = 400)) ->
  let doe := yoe * 365 + yoe / 4 - yoe / 100 + doy in
  0 <= doe <= 146096
  /\ (doe - doe / 1460 + doe / 36524 - doe / 146096) / 365 = yoe.
Proof.
  intros Hy Hd Hl doe. subst doe. Z.div_mod_to_equations. lia.
Qed.

(** The month (counted from March) and the day are recovered from the day
    within the March-based year. *)
Lemma month_of_year_day (mp d : Z) :
  0 <= mp <= 11 ->
  1 <= d <= (153 * (mp + 1) + 2) / 5 - (153 * mp + 2) / 5 ->
  let doy := (153 * mp + 2) / 5 + d - 1 in
  (5 * doy + 2) / 153 = mp
  /\ doy - (153 * ((5 * doy + 2) / 153) + 2) / 5 + 1 = d.
Proof.
  intros Hmp Hd doy. subst doy.
  assert (H : (5 * ((153 * mp + 2) / 5 + d - 1) + 2) / 153 = mp)
    by (Z.div_mod_to_equations; lia).
  split; [exact H|]. rewrite H. lia.
Qed.

(** Dates and day numbers agree on every valid date. *)
Lemma civil_round_trip_days (y m d : Z) :
  1 <= m <= 12 -> 1 <= d <= days_in_month y m ->
  civil_from_days (days_from_civil y m d) = (y, m, d).
Proof.
  intros Hm Hd.
  unfold days_from_civil. cbv zeta.
  set (y1 := if m <=? 2 then y - 1 else y).
  set (mp := if 2 <? m then m - 3 else m + 9).
  set (era := y1 / 400). set (yoe := y1 - era * 400).
  set (doy := (153 * mp + 2) / 5 + d - 1).
  set (doe := yoe * 365 + yoe / 4 - yoe / 100 + doy).
  assert (Hyoe : 0 <= yoe <= 399)
    by (unfold yoe, era; Z.div_mod_to_equations; lia).
  assert (Hmp : 0 <= mp <= 11
                /\ (if mp <? 10 then mp + 3 else mp - 9) = m
                /\ y1 + (if m <=? 2 then 1 else 0) = y).
  { unfold mp, y1. destruct (Z.ltb_spec 2 m), (Z.leb_spec m 2); try lia.
    - destruct (Z.ltb_spec (m - 3) 10); lia.
    - destruct (Z.ltb_spec (m + 9) 10); lia. }
  destruct Hmp as (Hmp & Hm' & Hy').
  assert (Hlen : 1 <= d <= (153 * (mp + 1) + 2) / 5 - (153 * mp + 2) / 5
                 /\ 0 <= doy <= 365
                 /\ (doy = 365 ->
                     (yoe + 1) mod 4 = 0
                     /\ ((yoe + 1) mod 100 <> 0 \/ yoe + 1 = 400))).
  { unfold doy, yoe, era, mp, y1 in *. unfold days_in_month, is_leap in Hd.
    assert (Hc : m = 1 \/ m = 2 \/ m = 3 \/ m = 4 \/ m = 5 \/ m = 6 \/ m = 7
                 \/ m = 8 \/ m = 9 \/ m = 10 \/ m = 11 \/ m = 12) by lia.
    repeat (destruct Hc as [->|Hc]); try subst m;
      cbn [Z.eqb Z.ltb Z.leb Z.compare Pos.compare Pos.compare_cont orb
           Pos.eqb] in *;
      try (destruct (Z.eqb_spec (y mod 4) 0) as [H4|H4];
           destruct (Z.eqb_spec (y mod 100) 0) as [H100|H100];
           destruct (Z.eqb_spec (y mod 400) 0) as [H400|H400];
           cbn [negb andb orb] in Hd);
      (split; [|split]); try intros Hd365; Z.div_mod_to_equations; lia. }
  destruct Hlen as (Hd' & Hdoy & Hleap).
  destruct (year_of_cycle_day yoe doy Hyoe Hdoy Hleap) as [Hdoe Hyear].
  destruct (month_of_year_day mp d Hmp Hd') as [Hmonth Hday].
  fold doy in Hmonth, Hday. fold doe in Hdoe, Hyear.
  unfold civil_from_days. cbv zeta.
  replace (era * 146097 + doe - 719468 + 719468) with (doe + era * 146097)
    by ring.
  rewrite Z.div_add by discriminate.
  rewrite (Z.div_small doe 146097) by lia.
  replace (doe + era * 146097 - (0 + era) * 146097) with doe by ring.
  rewrite Hyear.
  replace (doe - (365 * yoe + yoe / 4 - yoe / 100)) with doy
    by (unfold doe; ring).
  rewrite Hday, Hmonth, Hm'.
  f_equal. f_equal. unfold yoe. rewrite <- Hy'.
  destruct (m <=? 2); ring.
Qed.

Lemma valid_civil_bounds (c : civil) :
  valid_civil c = true ->
  1 <= year c <= 9999 /\ 1 <= month c <= 12
  /\ 1 <= day c <= days_in_month (year c) (month c)
  /\ 0 <= hour c <= 23 /\ 0 <= minute c <= 59 /\ 0 <= second c <= 59.
Proof.
  unfold valid_civil. intros H.
  repeat (apply andb_prop in H as [H ?]).
  repeat match goal with
         | H : (_ <=? _) = true |- _ => apply Z.leb_le in H
         end.
  lia.
Qed.

(** Read as UTC, the instant of a valid civil time shows that civil time. *)
Lemma civil_round_trip (c : civil) :
  valid_civil c = true -> civil_of_epoch (epoch_of_civil c) = c.
Proof.
  intros H. apply valid_civil_bounds in H as (Hy & Hm & Hd & Hh & Hmi & Hs).
  destruct c as [y m d h mi s]. cbn [year month day hour minute second] in *.
  unfold civil_of_epoch, epoch_of_civil. cbn [year month day hour minute second].
  set (days := days_from_civil y m d).
  assert (Hq : (days * 86400 + h * 3600 + mi * 60 + s) / 86400 = days).
  { symmetry. apply (Z.div_unique _ _ _ (h * 3600 + mi * 60 + s)); lia. }
  assert (Hr : (days * 86400 + h * 3600 + mi * 60 + s) mod 86400
               = h * 3600 + mi * 60 + s).
  { symmetry. apply (Z.mod_unique _ _ days); lia. }
  rewrite Hq, Hr. unfold days.
  rewrite civil_round_trip_days by lia.
  f_equal.
  - symmetry. apply (Z.div_unique _ _ _ (mi * 60 + s)); lia.
  - assert (Hm3600 : (h * 3600 + mi * 60 + s) mod 3600 = mi * 60 + s).
    { symmetry. apply (Z.mod_unique _ _ h); lia. }
    rewrite Hm3600. symmetry. apply (Z.div_unique _ _ _ s); lia.
  - symmetry. apply (Z.mod_unique _ _ (h * 60 + mi)); lia.
Qed.

(** ** [strptime] on the manifest's form *)

Lemma starts_bind {A B} (p : parser A) (f : A -> parser B) (s r : string)
    (a : A) (x : B * string) :
  starts p s (a, r) -> starts (f a) r x -> starts (p ≫= f) s x.
Proof.
  intros [l Hp] [l' Hf]. unfold starts. cbv [mbind parser_bind p_bind].
  rewrite Hp. cbn [flat_map]. rewrite Hf. now eexists.
Qed.

Lemma starts_ret {A} (a : A) (s : string) : starts (mret a) s (a, s).
Proof. now exists []. Qed.

Lemma starts_lit (a : ascii) (r : string) :
  starts (p_lit a) (String a r) (tt, r).
Proof. exists []. unfold p_lit, p_char. now rewrite Ascii.eqb_refl. Qed.

Ltac small_cases v n :=
  let H := fresh "H" in
  assert (H : In v (List.map Z.of_nat (seq 0 n)))
    by (apply in_map_iff; exists (Z.to_nat v); split; [lia|apply in_seq; lia]);
  cbn in H;
  repeat (destruct H as [<-|H]; [|try contradiction]).

Ltac starts_by_computation :=
  unfold starts; eexists; vm_compute; reflexivity.

Lemma starts_re_Y (y : Z) (r : string) :
  0 <= y <= 9999 -> starts re_Y (digits_fixed 4 y ++ r) (y, r).
Proof.
  intros Hy. exists [].
  assert (Hd : forall d r', 0 <= d <= 9 ->
            p_digit 0 9 (String (digit_char d) r') = [(d, r')]).
  { intros d r' Hd. small_cases d 10%nat; reflexivity. }
  cbv [digits_fixed String.append].
  cbv [re_Y mbind parser_bind p_bind].
  rewrite Hd by (pose proof (Z.mod_pos_bound (y / 10 / 10 / 10) 10); pose proof (Z.mod_pos_bound (y / 10 / 10) 10); pose proof (Z.mod_pos_bound (y / 10) 10); pose proof (Z.mod_pos_bound y 10); lia). cbn [flat_map app].
  rewrite Hd by (pose proof (Z.mod_pos_bound (y / 10 / 10 / 10) 10); pose proof (Z.mod_pos_bound (y / 10 / 10) 10); pose proof (Z.mod_pos_bound (y / 10) 10); pose proof (Z.mod_pos_bound y 10); lia). cbn [flat_map app].
  rewrite Hd by (pose proof (Z.mod_pos_bound (y / 10 / 10 / 10) 10); pose proof (Z.mod_pos_bound (y / 10 / 10) 10); pose proof (Z.mod_pos_bound (y / 10) 10); pose proof (Z.mod_pos_bound y 10); lia). cbn [flat_map app].
  rewrite Hd by (pose proof (Z.mod_pos_bound (y / 10 / 10 / 10) 10); pose proof (Z.mod_pos_bound (y / 10 / 10) 10); pose proof (Z.mod_pos_bound (y / 10) 10); pose proof (Z.mod_pos_bound y 10); lia). cbn [flat_map app].
  unfold mret, parser_ret, p_ret. rewrite !app_nil_r. do 2 f_equal.
  pose proof (Z.div_mod y 10 ltac:(lia)).
  pose proof (Z.div_mod (y / 10) 10 ltac:(lia)).
  pose proof (Z.div_mod (y / 10 / 10) 10 ltac:(lia)).
  pose proof (Z.div_mod (y / 10 / 10 / 10) 10 ltac:(lia)).
  assert (y / 10 / 10 / 10 / 10 = 0).
  { rewrite !Z.div_div by lia. apply Z.div_small. lia. }
  lia.
Qed.

Lemma starts_re_m (m : Z) (r : string) :
  1 <= m <= 12 -> starts re_m (pad2 m ++ r) (m, r).
Proof. intros H. small_cases m 13%nat; try lia; starts_by_computation. Qed.

Lemma starts_re_d (d : Z) (r : string) :
  1 <= d <= 31 -> starts re_d (pad2 d ++ r) (d, r).
Proof. intros H. small_cases d 32%nat; try lia; starts_by_computation. Qed.

Lemma starts_re_H (h : Z) (r : string) :
  0 <= h <= 23 -> starts re_H (pad2 h ++ r) (h, r).
Proof. intros H. small_cases h 24%nat; starts_by_computation. Qed.

Lemma starts_re_M (m : Z) (r : string) :
  0 <= m <= 59 -> starts re_M (pad2 m ++ r) (m, r).
Proof. intros H. small_cases m 60%nat; starts_by_computation. Qed.

Lemma starts_re_S (s : Z) (r : string) :
  0 <= s <= 59 -> starts re_S (pad2 s ++ r) (s, r).
Proof. intros H. small_cases s 60%nat; starts_by_computation. Qed.

(** One blank before a two-digit field. *)
Lemma starts_ws_before_digits (n : Z) (r : string) :
  starts ws_plus (" " ++ pad2 n ++ r) (tt, pad2 n ++ r).
Proof.
  exists [].
  assert (Hn : In (n / 10 mod 10) (List.map Z.of_nat (seq 0 10))).
  { pose proof (Z.mod_pos_bound (n / 10) 10 ltac:(lia)).
    apply in_map_iff. exists (Z.to_nat (n / 10 mod 10)).
    split; [lia|apply in_seq; lia]. }
  unfold pad2. revert Hn. generalize (n / 10 mod 10) as a. intros a Hn.
  cbn in Hn.
  repeat (destruct Hn as [<-|Hn]; [reflexivity|]). contradiction.
Qed.

Lemma append_assoc (a b c : string) : (a ++ b) ++ c = a ++ b ++ c.
Proof.
  induction a as [|x a IH]; [reflexivity|].
  change (String x ((a ++ b) ++ c) = String x (a ++ b ++ c)).
  now rewrite IH.
Qed.

(** The regular expression finds the fields of a valid civil time written
    in the manifest's form and followed by [" UTC"]. *)
Lemma strptime_regex_manifest (c : civil) :
  valid_civil c = true ->
  starts strptime_regex (manifest_form c ++ " UTC") (c, "").
Proof.
  intros H. apply valid_civil_bounds in H as (Hy & Hm & Hd & Hh & Hmi & Hs).
  assert (Hd31 : day c <= 31).
  { unfold days_in_month in Hd.
    destruct (month c =? 2); [destruct (is_leap (year c)); lia|].
    destruct ((month c =? 4) || (month c =? 6) || (month c =? 9)
              || (month c =? 11)); lia. }
  destruct c as [y m d h mi s]. cbn [year month day hour minute second] in *.
  unfold manifest_form, strptime_regex.
  cbn [year month day hour minute second].
  rewrite !append_assoc.
  eapply starts_bind; [apply starts_re_Y; lia|].
  eapply starts_bind; [apply starts_lit|].
  eapply starts_bind; [apply starts_re_m; lia|].
  eapply starts_bind; [apply starts_lit|].
  eapply starts_bind; [apply starts_re_d; lia|].
  eapply starts_bind; [apply starts_ws_before_digits|].
  eapply starts_bind; [apply starts_re_H; lia|].
  eapply starts_bind; [apply starts_lit|].
  eapply starts_bind; [apply starts_re_M; lia|].
  eapply starts_bind; [apply starts_lit|].
  eapply starts_bind; [apply starts_re_S; lia|].
  eapply starts_bind; [now exists []|].
  eapply starts_bind; [apply starts_lit|].
  eapply starts_bind; [apply starts_lit|].
  eapply starts_bind; [apply starts_lit|].
  apply starts_ret.
Qed.

Lemma strptime_manifest (c : civil) :
  valid_civil c = true -> strptime (manifest_form c ++ " UTC") = Ok c.
Proof.
  intros H. destruct (strptime_regex_manifest c H) as [l Hl].
  unfold strptime. now rewrite Hl, H.
Qed.

(** ** C7: parsing the capture time *)

(** The claim as worded fails: a capture time in the plain form
    "YYYY-MM-DD HH:MM:SS" is rejected, because the format string ends with
    the literal " UTC". *)
Lemma manifest_form_without_suffix_rejected :
  valid_civil (mkCivil 2024 1 15 12 34 56) = true
  /\ manifest_form (mkCivil 2024 1 15 12 34 56) = "2024-01-15 12:34:56"
  /\ parse_date demo_env "2024-01-15 12:34:56"
     = Raise (ValueError "time data does not match format").
Proof. repeat split; vm_compute; reflexivity. Qed.

Section ParseDate.
Variable E : Env.

Lemma model_post_init_date (m m' : Memory) :
  model_post_init E m = Some m' -> date m' = date m.
Proof.
  unfold model_post_init.
  destruct (negb (location m =? "")%string && falsy_float (latitude m));
    [|now intros [= <-]].
  destruct (re_search_coords E (location m)) as [[g1 g2]|]; [|now intros [= <-]].
  destruct (py_float E g1) as [lat|]; cbn [mbind option_bind]; [|discriminate].
  destruct (py_float E g2) as [lon|]; cbn [mbind option_bind]; [|discriminate].
  now intros [= <-].
Qed.

Lemma make_memory_date (v mt url loc : string) (lat lon : option float)
    (m : Memory) (dt : datetime) :
  parse_date E v = Ok dt ->
  make_memory E v mt url loc lat lon = Ok m -> date m = dt.
Proof.
  unfold make_memory. intros ->.
  destruct (model_post_init E (mkMemory dt mt url loc lat lon)) as [m'|] eqn:Hp;
    [|discriminate].
  intros [= <-]. now apply model_post_init_date in Hp.
Qed.
End ParseDate.

(** C7 (amended). A capture time in the form "YYYY-MM-DD HH:MM:SS UTC" (the
    manifest's fixed form followed by the literal " UTC") is parsed
    successfully, read as civil time in UTC, and stored as the same instant
    shown in America/Los_Angeles, provided that local year lies in
    1..9999; record construction keeps that timestamp. *)
Theorem parse_date_utc_to_los_angeles (E : Env) (c : civil) :
  valid_civil c = true ->
  1 <= year (civil_of_epoch
               (epoch_of_civil c + la_utcoffset E (epoch_of_civil c))) <= 9999 ->
  let dt := mkDatetime (epoch_of_civil c) TzLosAngeles in
  parse_date E (manifest_form c ++ " UTC") = Ok dt
  /\ civil_of_epoch (timestamp dt) = c
  /\ wall E (mkDatetime (timestamp dt) TzUTC) = c
  /\ wall E dt
     = civil_of_epoch (epoch_of_civil c + la_utcoffset E (epoch_of_civil c))
  /\ (forall mt url loc lat lon m,
        make_memory E (manifest_form c ++ " UTC") mt url loc lat lon = Ok m ->
        date m = dt).
Proof.
  intros Hv Hy dt.
  assert (Hp : parse_date E (manifest_form c ++ " UTC") = Ok dt).
  { unfold parse_date. rewrite (strptime_manifest c Hv).
    unfold astimezone, wall. cbn [instant tz utcoffset].
    replace (1 <=? _) with true by (symmetry; apply Z.leb_le; lia).
    replace (_ <=? 9999) with true by (symmetry; apply Z.leb_le; lia).
    reflexivity. }
  split; [exact Hp|]. split; [now apply civil_round_trip|].
  split.
  { unfold wall. cbn [instant tz utcoffset timestamp].
    rewrite Z.add_0_r. now apply civil_round_trip. }
  split; [reflexivity|].
  intros mt url loc lat lon m Hm.
  now apply (make_memory_date E _ mt url loc lat lon m dt Hp).
Qed.

Lemma parse_date_utc_to_los_angeles_witness :
  parse_date demo_env "2024-01-15 12:34:56 UTC"
  = Ok (mkDatetime 1705322096 TzLosAngeles)
  /\ wall demo_env (mkDatetime 1705322096 TzLosAngeles)
     = mkCivil 2024 1 15 4 34 56.
Proof.
  assert (Hy : 1 <= year (civil_of_epoch
                            (epoch_of_civil (mkCivil 2024 1 15 12 34 56)
                             + la_utcoffset demo_env
                                 (epoch_of_civil (mkCivil 2024 1 15 12 34 56))))
               <= 9999) by (vm_compute; split; discriminate).
  destruct (parse_date_utc_to_los_angeles demo_env (mkCivil 2024 1 15 12 34 56)
              eq_refl Hy) as (H1 & _).
  split.
  - exact H1.
  - vm_compute. reflexivity.
Defined.

(** * Part III: further properties of the pipeline *)

(** ** The metadata writers on one file *)

Section MetadataWriters.
Variable E : Env.

(** [add_exif_data] on an existing file: the file gets the content
    [piexif] produces for the dictionary built, stamped with the capture
    instant; when building or inserting fails, nothing changes. *)
Lemma add_exif_data_on_file (path : string) (m : Memory) (data : bytes)
    (t : option Z) (fs : gmap string File) :
  fs !! path = Some (mkFile data t) ->
  add_exif_data E path m fs
  = (Ok tt,
     match exif_for E m data ≫= (fun d => piexif_insert E d data) with
     | Some new => <[path := mkFile new (Some (timestamp (date m)))]> fs
     | None => fs
     end).
Proof.
  intros Hf. unfold add_exif_data, exif_for. io_norm.
  unfold read_bytes. rewrite Hf. cbn [f_data].
  assert (Hfin : forall (d : ExifDict),
            (let (r, fs') :=
               match piexif_insert E d data with
               | Some a => fun fs0 : gmap string File => (Ok a, fs0)
               | None => fun fs0 : gmap string File =>
                           (Raise (ValueError "piexif.insert"), fs0)
               end fs in
             match r with
             | Ok a =>
                 let (r0, fs'0) := write_bytes path a fs' in
                 match r0 with
                 | Ok _ => utime path (timestamp (date m)) fs'0
                 | Raise e => (Raise e, fs'0)
                 end
             | Raise e => (Raise e, fs')
             end)
            = match piexif_insert E d data with
              | Some new =>
                  (Ok tt, <[path := mkFile new (Some (timestamp (date m)))]> fs)
              | None => (Raise (ValueError "piexif.insert"), fs)
              end).
  { intros d. destruct (piexif_insert E d data) as [new|]; [|reflexivity].
    unfold write_bytes, utime. rewrite lookup_insert_eq. cbn [f_data].
    now rewrite insert_insert_eq. }
  destruct (piexif_load E data) as [ld|]; io_norm;
    destruct (latitude m) as [lat|], (longitude m) as [lon|]; io_norm;
    try destruct (gps_block lat lon) as [g|]; cbn [mbind option_bind];
    try reflexivity;
    rewrite Hf; cbn [f_data]; rewrite Hfin;
    now destruct (piexif_insert E _ data).
Qed.

(** On a missing file [add_exif_data] changes nothing. *)
Lemma add_exif_data_missing (path : string) (m : Memory)
    (fs : gmap string File) :
  fs !! path = None -> add_exif_data E path m fs = (Ok tt, fs).
Proof.
  intros Hf. unfold add_exif_data. io_norm.
  unfold read_bytes. rewrite Hf.
  destruct (latitude m) as [lat|], (longitude m) as [lon|]; io_norm;
    try (rewrite Hf; reflexivity).
  destruct (gps_block lat lon) as [g|]; [|reflexivity].
  now rewrite Hf.
Qed.
End MetadataWriters.

Section VideoMetadata.
Variable E : Env.

(** [set_video_metadata] on an existing file whose temporary path is
    another path: a successful remux replaces the file and leaves no
    temporary file; a failed one leaves the video as it was, and the
    partial output, if any, stays under the temporary name. *)
Lemma set_video_metadata_on_file (path : string) (m : Memory) (data : bytes)
    (t : option Z) (fs : gmap string File) :
  with_suffix path ".temp.mp4" <> path ->
  fs !! path = Some (mkFile data t) ->
  set_video_metadata E path m fs
  = (Ok tt,
     match ffmpeg_metadata E data (metadata_args E m) with
     | Exit0 out =>
         <[path := mkFile out (Some (timestamp (date m)))]>
           (delete (with_suffix path ".temp.mp4") fs)
     | ExitNonZero (Some b) =>
         <[with_suffix path ".temp.mp4" := mkFile b None]> fs
     | ExitNonZero None | SpawnFailed => fs
     end).
Proof.
  intros Hne Hf. unfold set_video_metadata. io_norm.
  unfold read_bytes. rewrite Hf. cbn [f_data].
  destruct (ffmpeg_metadata E data (metadata_args E m)) as [out|[b|]|];
    try reflexivity.
  unfold write_bytes, replace_file, utime.
  rewrite lookup_insert_eq, lookup_insert_eq. cbn [f_data].
  now rewrite insert_insert_eq, delete_insert_eq.
Qed.
End VideoMetadata.

(** ** The stages of [download_memory], resolved *)

Section Resolved.
Variable E : Env.

Lemma pure_ret {A} (a : A) : pure_io (mret a : io A).
Proof. left. now exists a. Qed.

Lemma pure_raise {A} (e : exn) : pure_io (@raise A e).
Proof. right. now exists e. Qed.

Lemma pure_or_raise {A} (o : option A) (e : exn) : pure_io (or_raise o e).
Proof. destruct o; [apply pure_ret|apply pure_raise]. Qed.

Lemma pure_of_result {A} (r : result A) : pure_io (of_result r).
Proof. destruct r; [apply pure_ret|apply pure_raise]. Qed.

Lemma pure_bind {A B} (c : io A) (f : A -> io B) :
  pure_io c -> (forall a, pure_io (f a)) -> pure_io (c ≫= f).
Proof.
  intros [[a Hc]|[e Hc]] Hf.
  - destruct (Hf a) as [[b Hb]|[e Hb]]; [left; exists b|right; exists e];
      intros fs; io_norm; now rewrite Hc, Hb.
  - right. exists e. intros fs. io_norm. now rewrite Hc.
Qed.

Lemma once_raise (saves : bool) (path : string) (e : exn) :
  writes_once saves path (raise e).
Proof. right. left. now exists e. Qed.

Lemma once_write (saves : bool) (path : string) (data : bytes) :
  writes_once saves path (write_bytes path data).
Proof. left. now exists data. Qed.

Lemma once_bind {A} (saves : bool) (path : string) (c : io A)
    (f : A -> io unit) :
  pure_io c -> (forall a, writes_once saves path (f a)) ->
  writes_once saves path (c ≫= f).
Proof.
  intros [[a Hc]|[e Hc]] Hf.
  - destruct (Hf a) as [[d Hd]|[[e Hd]|[Hs [e Hd]]]];
      [left; exists d|right; left; exists e
      |right; right; split; [exact Hs|exists e]];
      intros fs; io_norm; now rewrite Hc, Hd.
  - right. left. exists e. intros fs. io_norm. now rewrite Hc.
Qed.

Lemma once_save_jpeg (im : Image) (path : string) :
  writes_once true path (save_jpeg E im path).
Proof.
  destruct (match im_mode im with
            | RGBA => None
            | mode => jpeg_encode E mode (im_size im) (im_data im)
            end) as [data|] eqn:He.
  - left. exists data. intros fs. now rewrite save_jpeg_run, He.
  - right. right. split; [reflexivity|]. exists OSError. intros fs.
    now rewrite save_jpeg_run, He.
Qed.

Lemma once_merge_video (saves : bool) (main_data : bytes)
    (overlay_data : option bytes) (path : string) :
  writes_once saves path (merge_video E main_data overlay_data path).
Proof.
  unfold merge_video.
  destruct (overlay_present overlay_data) as [ov|]; [|apply once_write].
  destruct (ffmpeg_overlay E main_data ov);
    [apply once_write|apply once_write|apply once_raise].
Qed.

Lemma once_unpack (m : Memory) (path : string) (body : bytes) :
  writes_once (media_is m "image") path (unpack_and_merge E m path body).
Proof.
  unfold unpack_and_merge.
  apply once_bind; [apply pure_or_raise|intros zf].
  destruct (first_with "-main" (namelist zf)); [|apply once_raise].
  apply once_bind; [apply pure_or_raise|intros main_data].
  apply once_bind.
  { destruct (first_with "-overlay" (namelist zf)); [|apply pure_ret].
    apply pure_bind; [apply pure_or_raise|intros; apply pure_ret]. }
  intros overlay_data.
  destruct (media_is m "image").
  { apply once_bind; [apply pure_of_result|intros; apply once_save_jpeg]. }
  destruct (media_is m "video"); [apply once_merge_video|apply once_raise].
Qed.

(** The persisting stage either writes one file, whatever the directory
    holds, or raises before writing anything, or, for an image archive,
    raises out of [Image.save] with an older output file emptied. *)
Lemma persist_asset_cases (m : Memory) (path : string) (resp : Response) :
  writes_once (is_zip resp && media_is m "image") path
    (persist_asset E m path resp).
Proof.
  unfold persist_asset.
  destruct (is_zip resp); [apply once_unpack|apply once_write].
Qed.

(** The metadata stage on the freshly stamped asset: the file it leaves at
    the output path does not depend on the rest of the directory, and still
    carries the capture instant. *)
Lemma apply_metadata_at_path (m : Memory) (add_exif : bool) (data : bytes) :
  exists data',
    forall fs,
      snd (apply_metadata E m add_exif (filename E m)
             (<[filename E m := mkFile data (Some (timestamp (date m)))]> fs))
        !! filename E m
      = Some (mkFile data' (Some (timestamp (date m)))).
Proof.
  unfold apply_metadata. destruct add_exif.
  2:{ exists data. intros fs. cbn. apply lookup_insert_eq. }
  destruct (media_is m "image") eqn:Hi.
  { exists (match exif_for E m data ≫= (fun d => piexif_insert E d data) with
            | Some new => new
            | None => data
            end).
    intros fs.
    rewrite (add_exif_data_on_file E _ m data
               (Some (timestamp (date m)))) by apply lookup_insert_eq.
    cbn [snd].
    destruct (exif_for E m data ≫= (fun d => piexif_insert E d data));
      now rewrite lookup_insert_eq. }
  destruct (media_is m "video") eqn:Hv.
  2:{ exists data. intros fs. cbn. apply lookup_insert_eq. }
  exists (match ffmpeg_metadata E data (metadata_args E m) with
          | Exit0 out => out
          | _ => data
          end).
  intros fs. rewrite set_video_metadata_at_path by exact Hv.
  now destruct (ffmpeg_metadata E data (metadata_args E m)).
Qed.

(** [download_memory] either succeeds on every directory, with the length
    of the payload and one and the same stamped file at the output path, or
    fails on every directory and leaves it as it was, or, for an image
    archive, fails on every directory out of [Image.save] and leaves an
    older output file empty; which of the three does not depend on
    [add_exif]. *)
Lemma download_memory_cases (m : Memory) :
  (exists resp,
      http_get E (download_link m) = Some resp
      /\ forall add_exif, exists data,
           forall fs,
             fst (download_memory E m add_exif fs)
             = (true, Z.of_nat (List.length (content resp)))
             /\ snd (download_memory E m add_exif fs) !! filename E m
                = Some (mkFile data (Some (timestamp (date m)))))
  \/ (forall add_exif fs, download_memory E m add_exif fs = ((false, 0), fs))
  \/ ((exists resp,
         http_get E (download_link m) = Some resp
         /\ is_zip resp = true /\ media_is m "image" = true)
      /\ forall add_exif fs,
           download_memory E m add_exif fs
           = ((false, 0), emptied (filename E m) fs)).
Proof.
  destruct (http_get E (download_link m)) as [resp|] eqn:Hg.
  2:{ right. left. intros add_exif fs.
      unfold download_memory, download_memory_try.
      rewrite Hg. reflexivity. }
  destruct (persist_asset_cases m (filename E m) resp)
    as [[data Hp]|[[e Hp]|[Hs [e Hp]]]].
  - left. exists resp. split; [reflexivity|]. intros add_exif.
    destruct (apply_metadata_at_path m add_exif data) as [data' Hm].
    exists data'. intros fs.
    pose proof (download_try_written E m add_exif resp data fs fs Hg (Hp fs))
      as Ht.
    destruct (download_memory_of_try_ok E m add_exif _ fs _ Ht) as [Hd _].
    rewrite Hd. cbn [fst snd]. split; [reflexivity|apply Hm].
  - right. left. intros add_exif fs.
    pose proof (download_try_raise E m add_exif resp e fs fs Hg (Hp fs)) as Ht.
    now destruct (download_memory_of_try_raise E m add_exif _ fs fs Ht).
  - right. right. apply andb_prop in Hs as [Hz Hi]. split.
    + exists resp. now repeat split.
    + intros add_exif fs.
      pose proof (download_try_raise E m add_exif resp e fs _ Hg (Hp fs))
        as Ht.
      now destruct (download_memory_of_try_raise E m add_exif _ fs _ Ht).
Qed.

(** The pair [download_memory] returns is the same on every directory and
    for either value of [add_exif]. *)
Lemma download_memory_outcome (m : Memory) (add_exif add_exif' : bool)
    (fs fs' : gmap string File) :
  fst (download_memory E m add_exif fs)
  = fst (download_memory E m add_exif' fs').
Proof.
  destruct (download_memory_cases m) as [(resp & _ & H)|[H|[_ H]]].
  - destruct (H add_exif) as [d Hd]. destruct (H add_exif') as [d' Hd'].
    now rewrite (proj1 (Hd fs)), (proj1 (Hd' fs')).
  - now rewrite !H.
  - now rewrite !H.
Qed.

(** The file [download_memory] leaves at the output path depends on the
    directory only through the file that was at that path. *)
Lemma download_memory_at_path (m : Memory) (add_exif : bool)
    (fs fs' : gmap string File) :
  fs !! filename E m = fs' !! filename E m ->
  snd (download_memory E m add_exif fs) !! filename E m
  = snd (download_memory E m add_exif fs') !! filename E m.
Proof.
  intros Hfs. destruct (download_memory_cases m) as [(resp & _ & H)|[H|[_ H]]].
  - destruct (H add_exif) as [d Hd].
    now rewrite (proj2 (Hd fs)), (proj2 (Hd fs')).
  - now rewrite !H.
  - rewrite !H. cbn [snd]. now rewrite !emptied_at, Hfs.
Qed.
End Resolved.

(** ** Outcomes of [download_memory] *)

(** X1. Whether an item succeeds, and the byte count it reports, depend neither
    on what the output directory holds nor on whether metadata is
    written. *)
Theorem download_outcome_fixed (E : Env) (m : Memory) (add_exif add_exif' : bool)
    (fs fs' : gmap string File) :
  fst (download_memory E m add_exif fs) = fst (download_memory E m add_exif' fs').
Proof.
  destruct (download_memory_cases E m) as [(resp & _ & H)|[H|[_ H]]].
  - destruct (H add_exif) as [d Hd]. destruct (H add_exif') as [d' Hd'].
    now rewrite (proj1 (Hd fs)), (proj1 (Hd' fs')).
  - now rewrite !H.
  - now rewrite !H.
Qed.

(** X2. A failed item reports [(False, 0)] and has changed no path other
    than its output path.  The output path itself is as it was, with one
    exception: when the item is an image archive and it is [Image.save]
    that fails, a file that was already there is left empty, since the
    library opens the file for writing before it encodes; a path that
    held no file holds none afterwards.  Every other failure (fetch,
    archive, missing base entry, unsupported kind, image decoding, ffmpeg
    that cannot be started) is raised before the first write. *)
Theorem failed_download_effect (E : Env) (m : Memory) (add_exif : bool)
    (fs : gmap string File) :
  fst (fst (download_memory E m add_exif fs)) = false ->
  fst (download_memory E m add_exif fs) = (false, 0)
  /\ (snd (download_memory E m add_exif fs) = fs
      \/ ((exists resp,
             http_get E (download_link m) = Some resp
             /\ is_zip resp = true /\ media_is m "image" = true)
          /\ snd (download_memory E m add_exif fs)
             = emptied (filename E m) fs))
  /\ (fs !! filename E m = None ->
      snd (download_memory E m add_exif fs) = fs)
  /\ (forall f, fs !! filename E m = Some f ->
        snd (download_memory E m add_exif fs) !! filename E m = Some f
        \/ snd (download_memory E m add_exif fs) !! filename E m
           = Some (mkFile [] None))
  /\ (forall p, p <> filename E m ->
        snd (download_memory E m add_exif fs) !! p = fs !! p).
Proof.
  intros Hf.
  destruct (download_memory_cases E m) as [(resp & _ & H)|[H|[Hi H]]].
  - destruct (H add_exif) as [d Hd]. rewrite (proj1 (Hd fs)) in Hf.
    discriminate.
  - rewrite H. cbn [fst snd]. split; [reflexivity|]. split; [now left|].
    split; [reflexivity|]. split; [intros f ->; now left|reflexivity].
  - rewrite H. cbn [fst snd]. split; [reflexivity|].
    split; [right; now split|]. split; [|split].
    + intros Hn. unfold emptied. now rewrite Hn.
    + intros f Hsome. right. now rewrite emptied_at, Hsome.
    + intros p Hp. now apply emptied_elsewhere.
Qed.

Lemma failed_download_effect_witness :
  download_memory demo_env demo_unreachable true demo_disk
  = ((false, 0), demo_disk).
Proof.
  assert (Hf : fst (fst (download_memory demo_env demo_unreachable true
                           demo_disk)) = false) by (vm_compute; reflexivity).
  assert (Hn : demo_disk !! filename demo_env demo_unreachable = None)
    by (vm_compute; reflexivity).
  destruct (failed_download_effect demo_env demo_unreachable true demo_disk Hf)
    as (H1 & _ & H3 & _).
  specialize (H3 Hn).
  destruct (download_memory demo_env demo_unreachable true demo_disk)
    as [o fs']. cbn [fst snd] in H1, H3. now subst.
Defined.

(** The exception of X2 at work: with an encoder that fails, the image
    archive of the concrete world fails and leaves the file that was at its
    output path empty. *)
Example failed_save_empties_existing_file :
  download_memory demo_env_failing_encoder demo_image true demo_disk
  = ((false, 0), {["2024-01-15_04-34-57.jpg" := mkFile [] None]}).
Proof. vm_compute. reflexivity. Qed.

(** X3. A successful item reports the length of the fetched payload (for an
    archive, of the archive, not of the extracted asset), and a file is
    at its output path afterwards, whether or not the metadata stage
    worked. *)
Theorem successful_download_shape (E : Env) (m : Memory) (add_exif : bool)
    (fs : gmap string File) :
  fst (fst (download_memory E m add_exif fs)) = true ->
  exists resp,
    http_get E (download_link m) = Some resp
    /\ snd (fst (download_memory E m add_exif fs))
       = Z.of_nat (List.length (content resp))
    /\ is_Some (snd (download_memory E m add_exif fs) !! filename E m).
Proof.
  intros Hs.
  destruct (download_memory_cases E m) as [(resp & Hg & H)|[H|[_ H]]].
  - destruct (H add_exif) as [d Hd]. destruct (Hd fs) as [H1 H2].
    exists resp. rewrite H1, H2. split; [exact Hg|]. split; [reflexivity|].
    now eexists.
  - rewrite H in Hs. discriminate.
  - rewrite H in Hs. discriminate.
Qed.

Lemma successful_download_shape_witness :
  exists resp,
    http_get demo_env (download_link demo_video) = Some resp
    /\ snd (fst (download_memory demo_env demo_video true ∅))
       = Z.of_nat (List.length (content resp))
    /\ is_Some (snd (download_memory demo_env demo_video true ∅)
                  !! filename demo_env demo_video).
Proof.
  apply successful_download_shape. vm_compute. reflexivity.
Defined.

(** X4. The file a successful item leaves at its output path is the same
    whatever the directory held before, so downloading over an existing
    file gives the file of a fresh download. *)
Theorem download_output_fixed (E : Env) (m : Memory) (add_exif : bool)
    (fs fs' : gmap string File) :
  fst (fst (download_memory E m add_exif fs)) = true ->
  snd (download_memory E m add_exif fs) !! filename E m
  = snd (download_memory E m add_exif fs') !! filename E m.
Proof.
  intros Hs.
  destruct (download_memory_cases E m) as [(resp & Hg & H)|[H|[_ H]]].
  - destruct (H add_exif) as [d Hd].
    now rewrite (proj2 (Hd fs)), (proj2 (Hd fs')).
  - rewrite H in Hs. discriminate.
  - rewrite H in Hs. discriminate.
Qed.

Lemma download_output_fixed_witness :
  snd (download_memory demo_env demo_video true ∅)
    !! filename demo_env demo_video
  = snd (download_memory demo_env demo_video true
           (snd (download_memory demo_env demo_video true ∅)))
      !! filename demo_env demo_video.
Proof.
  apply download_output_fixed. vm_compute. reflexivity.
Defined.

(** ** Completed runs *)

Section Completed.
Variable E : Env.

Lemma succeeds_outcome (add_exif : bool) (m : Memory) (fs : gmap string File) :
  fst (fst (download_memory E m add_exif fs)) = succeeds E add_exif m.
Proof.
  unfold succeeds.
  now rewrite (download_memory_outcome E m add_exif add_exif fs ∅).
Qed.

Lemma lookup_set_phase (r : Run) (i j : nat) (m : Memory) (p : phase) :
  is_Some (tasks r !! i) ->
  set_phase i m p r !! j
  = if decide (i = j) then Some (m, p) else tasks r !! j.
Proof.
  intros Hi. unfold set_phase. destruct (decide (i = j)) as [<-|Hne].
  - apply list_lookup_insert_eq. now apply lookup_lt_is_Some.
  - now apply list_lookup_insert_ne.
Qed.

Lemma advance_counters (add_exif : bool) (i : nat) (r r' : Run) :
  counters_settled E add_exif r ->
  advance E add_exif i r = Some r' ->
  counters_settled E add_exif r'.
Proof.
  intros (Hd & Hf & Hc) Ha. unfold advance in Ha.
  destruct (tasks r !! i) as [[m ph]|] eqn:Ht; [|discriminate].
  assert (Hi : is_Some (tasks r !! i)) by now rewrite Ht.
  unfold counters_settled, settled_count in *.
  pose proof (count_insert
                (fun t : Memory * phase =>
                   is_finished (snd t)
                   && Bool.eqb (succeeds E add_exif (fst t)) true)
                (tasks r) i) as Ct.
  pose proof (count_insert
                (fun t : Memory * phase =>
                   is_finished (snd t)
                   && Bool.eqb (succeeds E add_exif (fst t)) false)
                (tasks r) i) as Cf.
  destruct ph as [| |ok n|].
  - destruct (0 <? sem_value r); [|discriminate]. injection Ha as <-.
    specialize (Ct (m, Fetching) _ Ht). specialize (Cf (m, Fetching) _ Ht).
    cbn [tasks stats snd fst is_finished andb] in *. unfold set_phase.
    split; [lia|]. split; [lia|].
    intros j m' ok n Hj.
    change (<[i := (m, Fetching)]> (tasks r)) with (set_phase i m Fetching r)
      in Hj.
    rewrite lookup_set_phase in Hj by exact Hi.
    destruct (decide (i = j)); [discriminate|]. now apply (Hc j m' ok n).
  - pose proof (succeeds_outcome add_exif m (disk r)) as Hs.
    destruct (download_memory E m add_exif (disk r)) as [[ok n] fs'].
    cbn [fst] in Hs. injection Ha as <-.
    specialize (Ct (m, Closing ok n) _ Ht).
    specialize (Cf (m, Closing ok n) _ Ht).
    cbn [tasks stats snd fst is_finished andb] in *. unfold set_phase.
    split; [lia|]. split; [lia|].
    intros j m' ok' n' Hj.
    change (<[i := (m, Closing ok n)]> (tasks r))
      with (set_phase i m (Closing ok n) r) in Hj.
    rewrite lookup_set_phase in Hj by exact Hi.
    destruct (decide (i = j)); [|now apply (Hc j m' ok' n')].
    injection Hj as <- <- <-. exact Hs.
  - injection Ha as <-.
    specialize (Ct (m, Finished) _ Ht). specialize (Cf (m, Finished) _ Ht).
    pose proof (Hc i m ok n Ht) as Hok.
    unfold set_phase, update_stats.
    cbn [tasks stats snd fst is_finished andb] in *.
    split; [|split].
    + rewrite <- Hok in Ct. destruct ok; cbn [downloaded Bool.eqb] in *; lia.
    + rewrite <- Hok in Cf. destruct ok; cbn [failed Bool.eqb] in *; lia.
    + intros j m' ok' n' Hj.
      change (<[i := (m, Finished)]> (tasks r))
        with (set_phase i m Finished r) in Hj.
      rewrite lookup_set_phase in Hj by exact Hi.
      destruct (decide (i = j)); [discriminate|]. now apply (Hc j m' ok' n').
  - discriminate.
Qed.

Lemma exec_counters (add_exif : bool) (schedule : list nat) (r r' : Run) :
  counters_settled E add_exif r ->
  exec E add_exif schedule r = Some r' ->
  counters_settled E add_exif r'.
Proof.
  revert r. induction schedule as [|i rest IH]; intros r Hr He.
  - now injection He as <-.
  - cbn in He. destruct (advance E add_exif i r) as [r1|] eqn:Ha; [|discriminate].
    apply (IH r1); [|exact He]. now apply (advance_counters add_exif i r).
Qed.

Lemma start_counters (add_exif : bool) (ms : list Memory) (K : Z)
    (skip : bool) fs r0 :
  download_all_start E ms K skip fs = Ok r0 ->
  counters_settled E add_exif r0.
Proof.
  unfold download_all_start. destruct (K <? 0); [discriminate|].
  rewrite skip_loop_spec. intros [= <-].
  unfold counters_settled, settled_count. cbn [tasks stats downloaded failed].
  assert (Hq : forall (f : Memory * phase -> bool) (l : list Memory),
            (forall m, f (m, Queued) = false) ->
            List.filter f (List.map (fun m => (m, Queued)) l) = []).
  { intros f l Hf. induction l as [|a l IH]; [reflexivity|].
    cbn. now rewrite Hf. }
  rewrite !Hq by reflexivity. repeat split.
  intros i m ok n Hi. apply list_elem_of_lookup_2, list_elem_of_In in Hi.
  apply in_map_iff in Hi as (m' & Hm' & _). discriminate.
Qed.

Lemma finished_filter (P : Memory -> bool) (ts : list (Memory * phase)) :
  forallb (fun t => is_finished (snd t)) ts = true ->
  List.length (List.filter (fun t => is_finished (snd t) && P (fst t)) ts)
  = List.length (List.filter P (List.map fst ts)).
Proof.
  induction ts as [|[m ph] ts IH]; [reflexivity|].
  cbn. intros H. apply andb_prop in H as [Hph Hts]. rewrite Hph.
  cbn [andb]. destruct (P m); cbn; now rewrite (IH Hts).
Qed.

Lemma finished_hold_nothing (ts : list (Memory * phase)) :
  forallb (fun t => is_finished (snd t)) ts = true ->
  List.filter (fun t : Memory * phase => holds_slot (snd t)) ts = [].
Proof.
  induction ts as [|[m ph] ts IH]; [reflexivity|].
  intros H. apply andb_prop in H as [Hph Hts].
  destruct ph; try discriminate. exact (IH Hts).
Qed.
End Completed.

(** X5. In a completed run the counters are fixed by the records alone:
    [downloaded] is the number of non-skipped records whose pipeline
    succeeds and [failed] the number of those whose pipeline fails, in
    whatever order the event loop resumed the coroutines. *)
Theorem final_counts_schedule_independent (E : Env) (ms : list Memory) (K : Z)
    (add_exif skip : bool) (fs : gmap string File) (r0 : Run)
    (schedule : list nat) (r : Run) :
  download_all_start E ms K skip fs = Ok r0 ->
  exec E add_exif schedule r0 = Some r ->
  all_finished r = true ->
  let scheduled := List.filter (fun m => negb (should_skip E skip fs m)) ms in
  downloaded (stats r)
  = Z.of_nat (List.length (List.filter (succeeds E add_exif) scheduled))
  /\ failed (stats r)
     = Z.of_nat (List.length
                   (List.filter (fun m => negb (succeeds E add_exif m))
                                scheduled)).
Proof.
  intros Hstart He Hfin scheduled.
  destruct (start_invariant E ms K skip fs r0 Hstart) as [Hinv _].
  pose proof (exec_invariant E add_exif _ _ _ schedule r0 r Hinv He)
    as (_ & _ & _ & _ & _ & _ & Hm).
  pose proof (exec_counters E add_exif schedule r0 r
                (start_counters E add_exif ms K skip fs r0 Hstart) He)
    as (Hd & Hf & _).
  unfold settled_count in Hd, Hf. unfold all_finished in Hfin.
  rewrite (finished_filter
             (fun m => Bool.eqb (succeeds E add_exif m) true)) in Hd
    by exact Hfin.
  rewrite (finished_filter
             (fun m => Bool.eqb (succeeds E add_exif m) false)) in Hf
    by exact Hfin.
  rewrite Hm in Hd, Hf. fold scheduled in Hd, Hf.
  split.
  - rewrite Hd.
    rewrite (List.filter_ext
               (fun m => Bool.eqb (succeeds E add_exif m) true)
               (succeeds E add_exif)); [reflexivity|].
    intros m. now destruct (succeeds E add_exif m).
  - rewrite Hf.
    rewrite (List.filter_ext
               (fun m => Bool.eqb (succeeds E add_exif m) false)
               (fun m => negb (succeeds E add_exif m))); [reflexivity|].
    intros m. now destruct (succeeds E add_exif m).
Qed.

Lemma final_counts_schedule_independent_witness :
  downloaded (stats demo_final) = 2 /\ failed (stats demo_final) = 2.
Proof.
  destruct (final_counts_schedule_independent demo_env demo_manifest 2 true
              true demo_disk demo_start demo_schedule demo_final
              demo_start_eq demo_final_eq eq_refl) as [H1 H2].
  split; [rewrite H1|rewrite H2]; vm_compute; reflexivity.
Defined.

(** X6. When [asyncio.gather] returns, every semaphore slot has been given
    back: the counter is the bound again and no coroutine holds a slot. *)
Theorem completed_run_releases_all_slots (E : Env) (ms : list Memory) (K : Z)
    (add_exif skip : bool) (fs : gmap string File) (r0 : Run)
    (schedule : list nat) (r : Run) :
  download_all_start E ms K skip fs = Ok r0 ->
  exec E add_exif schedule r0 = Some r ->
  all_finished r = true ->
  sem_value r = K /\ active r = 0.
Proof.
  intros Hstart He Hfin.
  destruct (start_invariant E ms K skip fs r0 Hstart) as [Hinv _].
  pose proof (exec_invariant E add_exif _ _ _ schedule r0 r Hinv He)
    as (Hs & _).
  pose proof (finished_hold_nothing (tasks r) Hfin) as Hh.
  assert (Ha : active r = 0) by (unfold active; now rewrite Hh).
  split; [lia|exact Ha].
Qed.

Lemma completed_run_releases_all_slots_witness :
  sem_value demo_final = 2 /\ active demo_final = 0.
Proof.
  exact (completed_run_releases_all_slots demo_env demo_manifest 2 true true
           demo_disk demo_start demo_schedule demo_final
           demo_start_eq demo_final_eq eq_refl).
Defined.

(** ** What a run writes *)

Section RunOutputs.
Variable E : Env.

Lemma advance_output (add_exif : bool) (fs0 : gmap string File)
    (sched : list Memory) (i : nat) (m : Memory) (j : nat) (r r' : Run) :
  (forall k m', sched !! k = Some m' -> k <> i ->
                ~ footprint E m' (filename E m)) ->
  output_settled E add_exif fs0 sched i m r ->
  advance E add_exif j r = Some r' ->
  output_settled E add_exif fs0 sched i m r'.
Proof.
  intros Hother [Hmap Hout] Ha. unfold advance in Ha.
  destruct (tasks r !! j) as [[mj phj]|] eqn:Ht; [|discriminate].
  assert (Hj : is_Some (tasks r !! j)) by now rewrite Ht.
  assert (Hsj : sched !! j = Some mj).
  { rewrite <- Hmap. change (List.map fst (tasks r)) with (fst <$> tasks r).
    rewrite list_lookup_fmap, Ht. reflexivity. }
  assert (Hstep : forall p fs',
            r' = mkRun (sem_value r') (set_phase j mj p r) (stats r') fs' ->
            (forall ph, tasks r !! i = Some (m, ph) -> j <> i ->
                        fs' !! filename E m = disk r !! filename E m) ->
            (j = i -> mj = m ->
             fs' !! filename E m
             = match p with
               | Queued | Fetching => fs0 !! filename E m
               | Closing _ _ | Finished =>
                   snd (download_memory E m add_exif fs0) !! filename E m
               end) ->
            output_settled E add_exif fs0 sched i m r').
  { intros p fs' -> Hne Heq. split.
    - cbn [tasks]. unfold set_phase.
      now rewrite (map_fst_insert _ _ _ _ _ Ht).
    - intros ph. cbn [tasks disk]. rewrite lookup_set_phase by exact Hj.
      destruct (decide (j = i)) as [Hji|Hji].
      + intros [= <- <-]. now apply Heq.
      + intros Hi. rewrite (Hne ph Hi Hji). now apply Hout. }
  destruct phj as [| |ok n|].
  - destruct (0 <? sem_value r); [|discriminate]. injection Ha as <-.
    apply (Hstep Fetching (disk r)); [reflexivity|reflexivity|].
    intros -> ->. now apply (Hout Queued).
  - pose proof (download_memory_footprint E mj add_exif (disk r)
                  (filename E m)) as Hfp.
    pose proof (download_memory_at_path E mj add_exif (disk r) fs0) as Hself.
    destruct (download_memory E mj add_exif (disk r)) as [[ok n] fs'].
    cbn [snd] in Hfp, Hself. injection Ha as <-.
    apply (Hstep (Closing ok n) fs'); [reflexivity| |].
    + intros ph _ Hji. apply Hfp. now apply (Hother j mj).
    + intros -> ->. apply Hself. now apply (Hout Fetching).
  - injection Ha as <-.
    apply (Hstep Finished (disk r)); [reflexivity|reflexivity|].
    intros -> ->. now apply (Hout (Closing ok n)).
  - discriminate.
Qed.

Lemma exec_output (add_exif : bool) (fs0 : gmap string File)
    (sched : list Memory) (i : nat) (m : Memory) (schedule : list nat)
    (r r' : Run) :
  (forall k m', sched !! k = Some m' -> k <> i ->
                ~ footprint E m' (filename E m)) ->
  output_settled E add_exif fs0 sched i m r ->
  exec E add_exif schedule r = Some r' ->
  output_settled E add_exif fs0 sched i m r'.
Proof.
  intros Hother. revert r. induction schedule as [|j rest IH]; intros r Hr He.
  - now injection He as <-.
  - cbn in He. destruct (advance E add_exif j r) as [r1|] eqn:Ha; [|discriminate].
    apply (IH r1); [|exact He].
    now apply (advance_output add_exif fs0 sched i m j r).
Qed.

Lemma start_output (add_exif : bool) (ms : list Memory) (K : Z) (skip : bool)
    (fs : gmap string File) (r0 : Run) (i : nat) (m : Memory) :
  download_all_start E ms K skip fs = Ok r0 ->
  output_settled E add_exif fs
    (List.filter (fun m => negb (should_skip E skip fs m)) ms) i m r0.
Proof.
  intros Hstart.
  destruct (start_invariant E ms K skip fs r0 Hstart)
    as [(_ & _ & _ & _ & _ & _ & Hm) Hd].
  split; [exact Hm|]. intros ph Hi. rewrite Hd.
  revert Hstart Hi. unfold download_all_start.
  destruct (K <? 0); [discriminate|]. rewrite skip_loop_spec.
  intros [= <-]. cbn [tasks]. intros Hi.
  apply list_elem_of_lookup_2, list_elem_of_In, in_map_iff in Hi
    as (m' & [= _ <-] & _).
  reflexivity.
Qed.
End RunOutputs.

(** X7. A run changes no path outside the footprints (output file, and for a
    video the remux's temporary file) of the records it did not skip. *)
Theorem run_writes_only_scheduled_outputs (E : Env) (ms : list Memory) (K : Z)
    (add_exif skip : bool) (fs : gmap string File) (r0 : Run)
    (schedule : list nat) (r : Run) (p : string) :
  download_all_start E ms K skip fs = Ok r0 ->
  exec E add_exif schedule r0 = Some r ->
  (forall m, In m ms -> should_skip E skip fs m = false ->
             ~ footprint E m p) ->
  disk r !! p = fs !! p.
Proof.
  intros Hstart He Hp.
  destruct (start_invariant E ms K skip fs r0 Hstart) as [Hinv Hd].
  rewrite <- Hd.
  apply (exec_disk E add_exif _ _ _ schedule r0 r p Hinv He).
  intros m Hm. apply List.filter_In in Hm as [Hin Hs].
  apply Hp; [exact Hin|]. now destruct (should_skip E skip fs m).
Qed.

Lemma run_writes_only_scheduled_outputs_witness :
  disk demo_final !! "2024-01-15_04-34-57.jpg"
  = demo_disk !! "2024-01-15_04-34-57.jpg".
Proof.
  apply (run_writes_only_scheduled_outputs demo_env demo_manifest 2 true true
           demo_disk demo_start demo_schedule demo_final
           "2024-01-15_04-34-57.jpg" demo_start_eq demo_final_eq).
  intros m Hin Hs Hfp.
  repeat (destruct Hin as [<-|Hin]; [vm_compute in Hs; vm_compute in Hfp|]);
    try contradiction; try discriminate;
    destruct Hfp as [Hfp|[Hv Hfp]]; discriminate.
Defined.

(** X8. The file a finished coroutine leaves at its record's output path
    does not depend on the order in which the event loop ran the
    coroutines, when no other scheduled record claims that path: it is the
    file the record's pipeline leaves there when it runs alone on the
    directory of the start. *)
Theorem record_output_schedule_independent (E : Env) (ms : list Memory)
    (K : Z) (add_exif skip : bool) (fs : gmap string File) (r0 : Run)
    (schedule : list nat) (r : Run) (i : nat) (m : Memory) :
  download_all_start E ms K skip fs = Ok r0 ->
  exec E add_exif schedule r0 = Some r ->
  tasks r !! i = Some (m, Finished) ->
  (forall k m',
     List.filter (fun m => negb (should_skip E skip fs m)) ms !! k = Some m' ->
     k <> i -> ~ footprint E m' (filename E m)) ->
  disk r !! filename E m
  = snd (download_memory E m add_exif fs) !! filename E m.
Proof.
  intros Hstart He Hi Hother.
  destruct (exec_output E add_exif fs _ i m schedule r0 r Hother
              (start_output E add_exif ms K skip fs r0 i m Hstart) He)
    as [_ Hout].
  exact (Hout Finished Hi).
Qed.

Lemma record_output_schedule_independent_witness :
  disk demo_final !! filename demo_env demo_video
  = snd (download_memory demo_env demo_video true demo_disk)
      !! filename demo_env demo_video.
Proof.
  assert (Hi : tasks demo_final !! 0%nat = Some (demo_video, Finished))
    by (vm_compute; reflexivity).
  apply (record_output_schedule_independent demo_env demo_manifest 2 true
           true demo_disk demo_start demo_schedule demo_final 0%nat
           demo_video demo_start_eq demo_final_eq Hi).
  intros k m' Hk Hne Hfp.
  assert (Hl : List.filter
                 (fun m => negb (should_skip demo_env true demo_disk m))
                 demo_manifest
               = [demo_video; demo_nomain; demo_plain_audio; demo_unreachable])
    by (vm_compute; reflexivity).
  rewrite Hl in Hk.
  destruct k as [|[|[|[|k]]]];
    [exfalso; apply Hne; reflexivity| | | |discriminate Hk];
    cbn in Hk; injection Hk as <-;
    (destruct Hfp as [Hfp|[Hv _]];
     [vm_compute in Hfp; discriminate Hfp|vm_compute in Hv; discriminate Hv]).
Defined.

(** ** The start of a run *)

Section Start.
Variable E : Env.

Lemma start_tasks (ms : list Memory) (K : Z) (skip : bool)
    (fs : gmap string File) (r0 : Run) :
  download_all_start E ms K skip fs = Ok r0 ->
  sem_value r0 = K
  /\ tasks r0
     = List.map (fun m => (m, Queued))
         (List.filter (fun m => negb (should_skip E skip fs m)) ms).
Proof.
  unfold download_all_start. destruct (K <? 0); [discriminate|].
  rewrite skip_loop_spec. now intros [= <-].
Qed.

Lemma queued_lookup (l : list Memory) (i : nat) (m : Memory) (ph : phase) :
  List.map (fun m => (m, Queued)) l !! i = Some (m, ph) -> ph = Queued.
Proof.
  intros H. apply list_elem_of_lookup_2, list_elem_of_In, in_map_iff in H
    as (m' & [= _ <-] & _).
  reflexivity.
Qed.
End Start.

(** X9. With a bound of 0 no coroutine ever acquires the semaphore: the run
    makes no step at all, so it only completes when there is nothing to
    download. *)
Theorem zero_bound_never_starts (E : Env) (ms : list Memory)
    (add_exif skip : bool) (fs : gmap string File) (r0 : Run)
    (schedule : list nat) (r : Run) :
  download_all_start E ms 0 skip fs = Ok r0 ->
  exec E add_exif schedule r0 = Some r ->
  schedule = [] /\ r = r0
  /\ (all_finished r = true ->
      List.filter (fun m => negb (should_skip E skip fs m)) ms = []).
Proof.
  intros Hstart He.
  destruct (start_tasks E ms 0 skip fs r0 Hstart) as [Hs Ht].
  destruct schedule as [|i rest].
  - injection He as <-. split; [reflexivity|]. split; [reflexivity|].
    unfold all_finished. rewrite Ht.
    destruct (List.filter _ ms); [reflexivity|discriminate].
  - exfalso. cbn in He. unfold advance in He.
    destruct (tasks r0 !! i) as [[m ph]|] eqn:Hi; [|discriminate].
    rewrite Ht in Hi. apply queued_lookup in Hi as ->.
    rewrite Hs in He. discriminate.
Qed.

Lemma zero_bound_never_starts_witness :
  exec demo_env true [0%nat]
    (mkRun 0 [(demo_video, Queued)] stats0 ∅) = None.
Proof.
  destruct (exec demo_env true [0%nat]
              (mkRun 0 [(demo_video, Queued)] stats0 ∅)) as [r|] eqn:He;
    [|reflexivity].
  assert (Hstart : download_all_start demo_env [demo_video] 0 false ∅
                   = Ok (mkRun 0 [(demo_video, Queued)] stats0 ∅))
    by (vm_compute; reflexivity).
  destruct (zero_bound_never_starts demo_env [demo_video] true false ∅ _
              [0%nat] r Hstart He) as [H _].
  discriminate H.
Defined.

(** X10. At every point of a run the coroutines are the records that were not
    skipped, in the order of the manifest; without [skip_existing] these
    are all the records, and none is counted skipped. *)
Theorem scheduled_in_manifest_order (E : Env) (ms : list Memory) (K : Z)
    (add_exif skip : bool) (fs : gmap string File) (r0 : Run)
    (schedule : list nat) (r : Run) :
  download_all_start E ms K skip fs = Ok r0 ->
  exec E add_exif schedule r0 = Some r ->
  List.map fst (tasks r)
  = List.filter (fun m => negb (should_skip E skip fs m)) ms
  /\ (skip = false ->
      List.map fst (tasks r) = ms /\ skipped (stats r) = 0).
Proof.
  intros Hstart He.
  destruct (start_invariant E ms K skip fs r0 Hstart) as [Hinv _].
  pose proof (exec_invariant E add_exif _ _ _ schedule r0 r Hinv He)
    as (_ & _ & _ & _ & _ & Hk & Hm).
  split; [exact Hm|]. intros ->. rewrite Hm, Hk.
  assert (Hn : forall l : list Memory,
            List.filter (fun m => negb (should_skip E false fs m)) l = l
            /\ List.filter (should_skip E false fs) l = []).
  { induction l as [|a l [IH1 IH2]]; [now split|].
    cbn [List.filter].
    change (should_skip E false fs a) with false. cbn [negb].
    now rewrite IH1, IH2. }
  destruct (Hn ms) as [-> ->]. now split.
Qed.

Lemma scheduled_in_manifest_order_witness :
  List.map fst (tasks demo_final)
  = [demo_video; demo_nomain; demo_plain_audio; demo_unreachable].
Proof.
  destruct (scheduled_in_manifest_order demo_env demo_manifest 2 true true
              demo_disk demo_start demo_schedule demo_final demo_start_eq
              demo_final_eq) as [H _].
  rewrite H. vm_compute. reflexivity.
Defined.

(** ** Records that are not skipped *)

(** X11. A record whose output file is absent when the run starts is scheduled,
    with or without [skip_existing]: the test looks at the directory
    before the first download only, so a second record with the same
    file name is scheduled as well and the two write the same path. *)
Theorem absent_file_is_scheduled (E : Env) (ms : list Memory) (K : Z)
    (add_exif skip : bool) (fs : gmap string File) (r0 : Run)
    (schedule : list nat) (r : Run) (m : Memory) :
  download_all_start E ms K skip fs = Ok r0 ->
  exec E add_exif schedule r0 = Some r ->
  In m ms ->
  fs !! filename E m = None ->
  In m (List.map fst (tasks r))
  /\ forall m', In m' ms -> filename E m' = filename E m ->
                In m' (List.map fst (tasks r))
                /\ footprint E m' (filename E m).
Proof.
  intros Hstart He Hin Hf.
  destruct (start_invariant E ms K skip fs r0 Hstart) as [Hinv _].
  pose proof (exec_invariant E add_exif _ _ _ schedule r0 r Hinv He)
    as (_ & _ & _ & _ & _ & _ & Hm).
  assert (Hs : forall m', In m' ms -> filename E m' = filename E m ->
                          In m' (List.map fst (tasks r))).
  { intros m' Hin' Hn. rewrite Hm. apply List.filter_In.
    split; [exact Hin'|]. unfold should_skip. rewrite Hn, Hf.
    destruct skip; [|reflexivity]. cbn [andb].
    rewrite bool_decide_eq_false_2; [reflexivity|].
    intros [x Hx]. discriminate. }
  split; [now apply Hs|].
  intros m' Hin' Hn. split; [now apply Hs|]. left. now rewrite Hn.
Qed.

Lemma absent_file_is_scheduled_witness :
  In demo_video (List.map fst (tasks demo_final)).
Proof.
  assert (Hin : In demo_video demo_manifest) by (left; reflexivity).
  assert (Hf : demo_disk !! filename demo_env demo_video = None)
    by (vm_compute; reflexivity).
  exact (proj1 (absent_file_is_scheduled demo_env demo_manifest 2 true true
                  demo_disk demo_start demo_schedule demo_final demo_video
                  demo_start_eq demo_final_eq Hin Hf)).
Defined.

(** ** File names *)

(** X12. The output file name is made of digits, hyphens and one underscore,
    followed by [.jpg] for an image and [.mp4] for every other kind; it
    holds no path separator, so the file lands in the output directory
    itself. *)
Theorem filename_shape (E : Env) (m : Memory) :
  exists stem,
    filename E m
    = stem ++ (if media_is m "image" then ".jpg" else ".mp4")
    /\ stem <> ""
    /\ all_chars date_char stem = true
    /\ has_char "/" (filename E m) = false
    /\ has_char "\" (filename E m) = false.
Proof.
  exists (strftime_file (wall E (date m))).
  pose proof (strftime_file_date (wall E (date m))) as Hd.
  split; [reflexivity|]. split; [apply strftime_file_nonempty|].
  split; [exact Hd|].
  unfold filename. rewrite !has_char_app.
  rewrite (all_chars_has_char date_char "/" _ Hd eq_refl).
  rewrite (all_chars_has_char date_char "\" _ Hd eq_refl).
  now destruct (media_is m "image").
Qed.

(** ** Capture times that are rejected *)

Lemma starts_re_S_leap (s : Z) (r : string) :
  0 <= s <= 61 -> starts re_S (pad2 s ++ r) (s, r).
Proof. intros H. small_cases s 62%nat; starts_by_computation. Qed.

Lemma regex_fields_bounds (c : civil) :
  regex_fields c = true ->
  0 <= year c <= 9999 /\ 1 <= month c <= 12 /\ 1 <= day c <= 31
  /\ 0 <= hour c <= 23 /\ 0 <= minute c <= 59 /\ 0 <= second c <= 61.
Proof.
  unfold regex_fields. intros H.
  repeat (apply andb_prop in H as [H ?]).
  repeat match goal with
         | X : (_ <=? _) = true |- _ => apply Z.leb_le in X
         end.
  lia.
Qed.

(** The regular expression finds the fields of any civil time it can
    capture, written in the manifest's form and followed by [" UTC"], and
    stops right after the literal. *)
Lemma strptime_regex_fields (c : civil) (rest : string) :
  regex_fields c = true ->
  starts strptime_regex (manifest_form c ++ " UTC" ++ rest) (c, rest).
Proof.
  intros H. apply regex_fields_bounds in H as (Hy & Hm & Hd & Hh & Hmi & Hs).
  destruct c as [y m d h mi s]. cbn [year month day hour minute second] in *.
  unfold manifest_form, strptime_regex.
  cbn [year month day hour minute second].
  rewrite !append_assoc.
  eapply starts_bind; [apply starts_re_Y; lia|].
  eapply starts_bind; [apply starts_lit|].
  eapply starts_bind; [apply starts_re_m; lia|].
  eapply starts_bind; [apply starts_lit|].
  eapply starts_bind; [apply starts_re_d; lia|].
  eapply starts_bind; [apply starts_ws_before_digits|].
  eapply starts_bind; [apply starts_re_H; lia|].
  eapply starts_bind; [apply starts_lit|].
  eapply starts_bind; [apply starts_re_M; lia|].
  eapply starts_bind; [apply starts_lit|].
  eapply starts_bind; [apply starts_re_S_leap; lia|].
  change (" UTC" ++ rest)
    with (String " " (String "U" (String "T" (String "C" rest)))).
  eapply starts_bind; [now exists []|].
  eapply starts_bind; [apply starts_lit|].
  eapply starts_bind; [apply starts_lit|].
  eapply starts_bind; [apply starts_lit|].
  apply starts_ret.
Qed.

Section Rejected.
Variable E : Env.

Lemma parse_date_of_strptime_raise (v : string) (e : exn) :
  strptime v = Raise e -> parse_date E v = Raise e.
Proof. unfold parse_date. now intros ->. Qed.
End Rejected.

(** X13. A capture time in the manifest's form whose fields do not make a date
    and time (30 February, a second of 60 or 61, the year 0000) is
    rejected with a [ValueError], and so is one with anything after the
    literal [" UTC"], whatever its fields. *)
Theorem parse_date_rejects (E : Env) (c : civil) :
  regex_fields c = true ->
  (valid_civil c = false ->
   parse_date E (manifest_form c ++ " UTC")
   = Raise (ValueError "field out of range"))
  /\ (forall a rest,
        parse_date E (manifest_form c ++ " UTC" ++ String a rest)
        = Raise (ValueError "unconverted data remains")).
Proof.
  intros Hc. split.
  - intros Hv. apply parse_date_of_strptime_raise.
    destruct (strptime_regex_fields c "" Hc) as [l Hl].
    unfold strptime.
    change (manifest_form c ++ " UTC" ++ "") with (manifest_form c ++ " UTC")
      in Hl.
    now rewrite Hl, Hv.
  - intros a rest. apply parse_date_of_strptime_raise.
    destruct (strptime_regex_fields c (String a rest) Hc) as [l Hl].
    unfold strptime. now rewrite Hl.
Qed.

Lemma parse_date_rejects_witness :
  parse_date demo_env "2023-02-30 10:00:00 UTC"
  = Raise (ValueError "field out of range")
  /\ parse_date demo_env "2023-02-28 10:00:00 UTC+1"
     = Raise (ValueError "unconverted data remains").
Proof.
  split.
  - exact (proj1 (parse_date_rejects demo_env (mkCivil 2023 2 30 10 0 0)
                    eq_refl) eq_refl).
  - exact (proj2 (parse_date_rejects demo_env (mkCivil 2023 2 28 10 0 0)
                    eq_refl) "+"%char "1").
Defined.

(** ** The creation time of a video *)

(** X14. For a record built from a capture time in the manifest's form, the
    first metadata argument handed to ffmpeg is
    [creation_time=YYYY-MM-DDTHH:MM:SS.000Z] with the manifest's own UTC
    fields: the detour through Los Angeles time loses nothing. *)
Theorem video_creation_time_is_manifest_utc (E : Env) (c : civil)
    (mt url loc : string) (lat lon : option float) (m : Memory) :
  valid_civil c = true ->
  make_memory E (manifest_form c ++ " UTC") mt url loc lat lon = Ok m ->
  timestamp (date m) = epoch_of_civil c
  /\ exists located,
       metadata_args E m
       = "-metadata" :: ("creation_time=" ++ strftime_iso c) :: located.
Proof.
  intros Hv Hm.
  assert (Hd : date m = mkDatetime (epoch_of_civil c) TzLosAngeles).
  { destruct (parse_date E (manifest_form c ++ " UTC")) as [dt|e] eqn:Hp.
    - rewrite (make_memory_date E _ mt url loc lat lon m dt Hp Hm).
      revert Hp. unfold parse_date. rewrite (strptime_manifest c Hv).
      unfold astimezone. cbn [instant].
      now destruct (_ && _); intros [= <-].
    - unfold make_memory in Hm. rewrite Hp in Hm. discriminate. }
  split; [now rewrite Hd|].
  unfold metadata_args. rewrite Hd. cbn [instant].
  unfold wall. cbn [instant tz utcoffset]. rewrite Z.add_0_r.
  rewrite (civil_round_trip c Hv).
  destruct (latitude m), (longitude m); eexists; reflexivity.
Qed.

Lemma video_creation_time_is_manifest_utc_witness :
  exists located,
    metadata_args demo_env demo_video
    = "-metadata" :: "creation_time=2024-01-15T12:34:56.000Z" :: located.
Proof.
  assert (Hm : make_memory demo_env
                 (manifest_form (mkCivil 2024 1 15 12 34 56) ++ " UTC")
                 "Video" "https://cdn.example/video" "" None None
               = Ok demo_video) by (vm_compute; reflexivity).
  destruct (video_creation_time_is_manifest_utc demo_env
              (mkCivil 2024 1 15 12 34 56) "Video"
              "https://cdn.example/video" "" None None demo_video
              eq_refl Hm) as [_ [located H]].
  exists located. rewrite H. reflexivity.
Defined.

(** ** What the metadata writers leave behind *)

(** X15. [add_exif_data] never raises and touches no other path.  On an
    existing image it either replaces the content by what [piexif] makes
    of the dictionary built and sets the file times to the capture
    instant, or, when the coordinates cannot be converted or the
    insertion fails, leaves the file exactly as it was, times included. *)
Theorem add_exif_data_outcomes (E : Env) (path : string) (m : Memory)
    (fs : gmap string File) :
  exists fs',
    add_exif_data E path m fs = (Ok tt, fs')
    /\ (forall p, p <> path -> fs' !! p = fs !! p)
    /\ fs' !! path
       = match fs !! path with
         | Some f =>
             match exif_for E m (f_data f)
                   ≫= (fun d => piexif_insert E d (f_data f)) with
             | Some new => Some (mkFile new (Some (timestamp (date m))))
             | None => Some f
             end
         | None => None
         end.
Proof.
  destruct (fs !! path) as [[data t]|] eqn:Hf.
  - rewrite (add_exif_data_on_file E path m data t fs Hf). cbn [f_data].
    eexists. split; [reflexivity|].
    destruct (exif_for E m data ≫= (fun d => piexif_insert E d data)).
    + split; [|apply lookup_insert_eq].
      intros p Hp. now apply lookup_insert_ne.
    + now split.
  - rewrite (add_exif_data_missing E path m fs Hf).
    exists fs. now repeat split.
Qed.



(** X17. [set_video_metadata] never raises.  When the remux exits with status
    0 the video is replaced by its output, stamped with the capture
    instant, and no temporary file remains; when it fails the video is
    left exactly as it was, and whatever ffmpeg had written stays behind
    under the temporary name; on a missing video nothing happens at
    all. *)
Theorem set_video_metadata_outcomes (E : Env) (path : string) (m : Memory)
    (fs : gmap string File) :
  with_suffix path ".temp.mp4" <> path ->
  set_video_metadata E path m fs
  = (Ok tt,
     match fs !! path with
     | Some f =>
         match ffmpeg_metadata E (f_data f) (metadata_args E m) with
         | Exit0 out =>
             <[path := mkFile out (Some (timestamp (date m)))]>
               (delete (with_suffix path ".temp.mp4") fs)
         | ExitNonZero (Some b) =>
             <[with_suffix path ".temp.mp4" := mkFile b None]> fs
         | ExitNonZero None | SpawnFailed => fs
         end
     | None => fs
     end).
Proof.
  intros Hne. destruct (fs !! path) as [[data t]|] eqn:Hf.
  - exact (set_video_metadata_on_file E path m data t fs Hne Hf).
  - unfold set_video_metadata. io_norm. unfold read_bytes. now rewrite Hf.
Qed.

Lemma set_video_metadata_outcomes_witness :
  set_video_metadata demo_env "2024-01-15_04-34-56.mp4" demo_video
    {["2024-01-15_04-34-56.mp4" := mkFile demo_video_main None]}
  = (Ok tt,
     {["2024-01-15_04-34-56.mp4"
       := mkFile (demo_video_main ++ [x6d; x65; x74; x61])%list
            (Some 1705322096)]}).
Proof.
  assert (Hne : with_suffix "2024-01-15_04-34-56.mp4" ".temp.mp4"
                <> "2024-01-15_04-34-56.mp4")
    by (vm_compute; discriminate).
  rewrite (set_video_metadata_outcomes demo_env _ demo_video _ Hne).
  vm_compute. reflexivity.
Defined.

(** ** Archives and plain payloads *)

Section Archives.
Variable E : Env.

Lemma unpack_video (m : Memory) (path : string) (body : bytes)
    (zf : ZipFile) (mn : string) (main_data : bytes) (od : option bytes)
    (fs : gmap string File) :
  media_is m "video" = true ->
  zip_open E body = Some zf ->
  first_with "-main" (namelist zf) = Some mn ->
  zf_read zf mn = Some main_data ->
  match first_with "-overlay" (namelist zf) with
  | Some f => option_map Some (zf_read zf f)
  | None => Some None
  end = Some od ->
  unpack_and_merge E m path body fs = merge_video E main_data od path fs.
Proof.
  intros Hv Ho Hm Hrm Hod. unfold unpack_and_merge.
  rewrite Ho. io_norm. rewrite Hm, Hrm. io_norm.
  rewrite (media_video_not_image m Hv), Hv.
  destruct (first_with "-overlay" (namelist zf)) as [f|].
  - destruct (zf_read zf f) as [b|]; [|discriminate].
    injection Hod as <-. reflexivity.
  - injection Hod as <-. reflexivity.
Qed.

Lemma unpack_image (m : Memory) (path : string) (body : bytes)
    (zf : ZipFile) (mn : string) (main_data : bytes) (od : option bytes)
    (fs : gmap string File) :
  media_is m "image" = true ->
  zip_open E body = Some zf ->
  first_with "-main" (namelist zf) = Some mn ->
  zf_read zf mn = Some main_data ->
  match first_with "-overlay" (namelist zf) with
  | Some f => option_map Some (zf_read zf f)
  | None => Some None
  end = Some od ->
  unpack_and_merge E m path body fs
  = match merge_image E main_data od with
    | Ok im => save_jpeg E im path fs
    | Raise e => (Raise e, fs)
    end.
Proof.
  intros Hi Ho Hm Hrm Hod. unfold unpack_and_merge.
  rewrite Ho. io_norm. rewrite Hm, Hrm. io_norm. rewrite Hi.
  assert (Hgoal : forall o : option bytes,
            (let (r, fs') :=
               match merge_image E main_data o with
               | Ok a => fun fs0 : gmap string File => (Ok a, fs0)
               | Raise e => fun fs0 : gmap string File => (Raise e, fs0)
               end fs in
             match r with
             | Ok a => save_jpeg E a path fs'
             | Raise e => (Raise e, fs')
             end)
            = match merge_image E main_data o with
              | Ok im => save_jpeg E im path fs
              | Raise e => (Raise e, fs)
              end).
  { intros o. now destruct (merge_image E main_data o). }
  destruct (first_with "-overlay" (namelist zf)) as [f|].
  - destruct (zf_read zf f) as [b|]; [|discriminate].
    injection Hod as <-. apply Hgoal.
  - injection Hod as <-. apply Hgoal.
Qed.

Lemma download_failed (m : Memory) (add_exif : bool) (resp : Response)
    (e : exn) (fs : gmap string File) :
  http_get E (download_link m) = Some resp ->
  persist_asset E m (filename E m) resp fs = (Raise e, fs) ->
  download_memory E m add_exif fs = ((false, 0), fs)
  /\ download_error E m add_exif fs = Some e.
Proof.
  intros Hg Hp.
  apply (download_memory_of_try_raise E m add_exif e fs fs).
  now apply (download_try_raise E m add_exif resp e fs fs).
Qed.
End Archives.

(** X18. A video archive beyond the non-zero exit of the overlay merge: with
    no overlay entry, or an empty one, the base video is written as it
    is, whatever ffmpeg would do; a merge that exits with status 0 puts
    its output in place; and when ffmpeg cannot be started at all the
    item fails with nothing written, there being no fallback to the base
    video for that error. *)
Theorem video_archive_outcomes (E : Env) (m : Memory) (add_exif : bool)
    (resp : Response) (zf : ZipFile) (mn : string) (main_data : bytes)
    (od : option bytes) (fs : gmap string File) :
  media_is m "video" = true ->
  http_get E (download_link m) = Some resp ->
  is_zip resp = true ->
  zip_open E (content resp) = Some zf ->
  first_with "-main" (namelist zf) = Some mn ->
  zf_read zf mn = Some main_data ->
  match first_with "-overlay" (namelist zf) with
  | Some f => option_map Some (zf_read zf f)
  | None => Some None
  end = Some od ->
  match od with
  | None | Some [] =>
      persist_asset E m (filename E m) resp fs
      = (Ok tt, <[filename E m := mkFile main_data None]> fs)
  | Some (b :: ov) =>
      match ffmpeg_overlay E main_data (b :: ov) with
      | Exit0 merged =>
          persist_asset E m (filename E m) resp fs
          = (Ok tt, <[filename E m := mkFile merged None]> fs)
      | ExitNonZero _ =>
          persist_asset E m (filename E m) resp fs
          = (Ok tt, <[filename E m := mkFile main_data None]> fs)
      | SpawnFailed =>
          download_memory E m add_exif fs = ((false, 0), fs)
          /\ download_error E m add_exif fs = Some OSError
      end
  end.
Proof.
  intros Hv Hg Hz Ho Hm Hrm Hod.
  assert (Hp : persist_asset E m (filename E m) resp fs
               = merge_video E main_data od (filename E m) fs).
  { unfold persist_asset. rewrite Hz.
    now apply (unpack_video E m _ _ zf mn). }
  unfold merge_video in Hp.
  destruct od as [[|b ov]|]; cbn [overlay_present] in Hp; try exact Hp.
  destruct (ffmpeg_overlay E main_data (b :: ov)); try exact Hp.
  now apply (download_failed E m add_exif resp).
Qed.

Lemma video_archive_outcomes_witness :
  download_memory demo_env_without_ffmpeg demo_video true ∅ = ((false, 0), ∅).
Proof.
  exact (proj1 (video_archive_outcomes demo_env_without_ffmpeg demo_video true
                  (mkResponse (Some "application/zip") demo_zip_video)
                  (mkZipFile ["a-overlay.png"; "a-main.mp4"]
                     (fun n => if String.eqb n "a-main.mp4"
                               then Some demo_video_main
                               else if String.eqb n "a-overlay.png"
                                    then Some demo_overlay_png else None))
                  "a-main.mp4" demo_video_main (Some demo_overlay_png) ∅
                  eq_refl eq_refl eq_refl eq_refl eq_refl eq_refl eq_refl)).
Defined.

(** X19. An image archive has no fallback: when the base or a non-empty
    overlay cannot be decoded, the item fails and nothing is written,
    even though with an unreadable overlay the base image itself is
    intact. *)
Theorem image_archive_failures (E : Env) (m : Memory) (add_exif : bool)
    (resp : Response) (zf : ZipFile) (mn : string) (main_data : bytes)
    (od : option bytes) (fs : gmap string File) :
  media_is m "image" = true ->
  http_get E (download_link m) = Some resp ->
  is_zip resp = true ->
  zip_open E (content resp) = Some zf ->
  first_with "-main" (namelist zf) = Some mn ->
  zf_read zf mn = Some main_data ->
  match first_with "-overlay" (namelist zf) with
  | Some f => option_map Some (zf_read zf f)
  | None => Some None
  end = Some od ->
  pil_open E main_data = None
  \/ (exists ov, overlay_present od = Some ov /\ pil_open E ov = None) ->
  download_memory E m add_exif fs = ((false, 0), fs).
Proof.
  intros Hi Hg Hz Ho Hm Hrm Hod Hfail.
  assert (Hp : exists e, persist_asset E m (filename E m) resp fs
                         = (Raise e, fs)).
  { unfold persist_asset. rewrite Hz.
    rewrite (unpack_image E m _ _ zf mn main_data od fs Hi Ho Hm Hrm Hod).
    unfold merge_image.
    destruct Hfail as [Hmain|(ov & Hov & Hdec)].
    - rewrite Hmain. now eexists.
    - destruct (pil_open E main_data); [|now eexists].
      rewrite Hov, Hdec. now eexists. }
  destruct Hp as [e Hp].
  now apply (download_failed E m add_exif resp e).
Qed.

Lemma image_archive_failures_witness :
  download_memory demo_env_unreadable_overlay demo_image true ∅
  = ((false, 0), ∅).
Proof.
  apply (image_archive_failures demo_env_unreadable_overlay demo_image true
           (mkResponse None demo_zip_image)
           (mkZipFile ["b-main.jpg"; "b-overlay.png"]
              (fun n => if String.eqb n "b-main.jpg" then Some demo_image_main
                        else if String.eqb n "b-overlay.png"
                             then Some demo_overlay_png else None))
           "b-main.jpg" demo_image_main (Some demo_overlay_png) ∅
           eq_refl eq_refl eq_refl eq_refl eq_refl eq_refl eq_refl).
  right. exists demo_overlay_png. split; reflexivity.
Defined.

(** X20. A payload that is not an archive is stored byte for byte under the
    output name, whatever the record's kind, and the item reports the
    payload's length; with metadata writing off the file is exactly the
    payload, stamped with the capture instant. *)
Theorem plain_download_stores_payload (E : Env) (m : Memory)
    (resp : Response) (fs : gmap string File) :
  http_get E (download_link m) = Some resp ->
  is_zip resp = false ->
  persist_asset E m (filename E m) resp fs
  = (Ok tt, <[filename E m := mkFile (content resp) None]> fs)
  /\ download_memory E m false fs
     = ((true, Z.of_nat (List.length (content resp))),
        <[filename E m
          := mkFile (content resp) (Some (timestamp (date m)))]> fs)
  /\ fst (download_memory E m true fs)
     = (true, Z.of_nat (List.length (content resp))).
Proof.
  intros Hg Hz.
  assert (Hp : persist_asset E m (filename E m) resp fs
               = (Ok tt, <[filename E m := mkFile (content resp) None]> fs)).
  { unfold persist_asset. now rewrite Hz. }
  split; [exact Hp|]. split.
  - pose proof (download_try_written E m false resp _ fs fs Hg Hp) as Ht.
    now destruct (download_memory_of_try_ok E m false _ fs _ Ht) as [-> _].
  - pose proof (download_try_written E m true resp _ fs fs Hg Hp) as Ht.
    now destruct (download_memory_of_try_ok E m true _ fs _ Ht) as [-> _].
Qed.

Lemma plain_download_stores_payload_witness :
  download_memory demo_env demo_plain_audio false ∅
  = ((true, 4),
     {["2024-01-15_04-34-59.mp4" := mkFile demo_image_main (Some 1705322099)]}).
Proof.
  destruct (plain_download_stores_payload demo_env demo_plain_audio
              (mkResponse (Some "image/jpeg") demo_image_main) ∅
              eq_refl eq_refl) as (_ & H & _).
  rewrite H. vm_compute. reflexivity.
Defined.

(** ** Hemispheres *)

Lemma fabs_opp (x : float) : fabs (SFopp x) = fabs x.
Proof. now destruct x. Qed.

Lemma to_deg_opp (x : float) : to_deg (SFopp x) = to_deg x.
Proof. unfold to_deg. now rewrite fabs_opp. Qed.

Lemma py_ge0_finite (s : bool) (m : positive) (e : Z) :
  py_ge0 (S754_finite s m e) = negb s.
Proof. now destruct s. Qed.

(** X21. Mirroring a coordinate through the equator or the prime meridian
    changes the hemisphere letter and nothing else: the degrees, minutes
    and seconds written are those of the magnitude.  A zero of either
    sign counts as north and east. *)
Theorem gps_block_mirror (lat lon : float) (g : GpsIfd) :
  gps_block lat lon = Some g ->
  (exists g',
     gps_block (SFopp lat) lon = Some g'
     /\ GPSLatitude g' = GPSLatitude g
     /\ GPSLongitude g' = GPSLongitude g
     /\ GPSLongitudeRef g' = GPSLongitudeRef g
     /\ match lat with
        | S754_finite s _ _ =>
            GPSLatitudeRef g = (if s then "S" else "N")
            /\ GPSLatitudeRef g' = (if s then "N" else "S")
        | _ => GPSLatitudeRef g = "N" /\ GPSLatitudeRef g' = "N"
        end)
  /\ (exists g',
        gps_block lat (SFopp lon) = Some g'
        /\ GPSLatitude g' = GPSLatitude g
        /\ GPSLongitude g' = GPSLongitude g
        /\ GPSLatitudeRef g' = GPSLatitudeRef g
        /\ match lon with
           | S754_finite s _ _ =>
               GPSLongitudeRef g = (if s then "W" else "E")
               /\ GPSLongitudeRef g' = (if s then "E" else "W")
           | _ => GPSLongitudeRef g = "E" /\ GPSLongitudeRef g' = "E"
           end).
Proof.
  unfold gps_block. rewrite !to_deg_opp.
  destruct (to_deg lat ≫= deg_to_rational) as [la|] eqn:Hla;
    [|discriminate].
  destruct (to_deg lon ≫= deg_to_rational) as [lo|] eqn:Hlo;
    [|discriminate].
  cbn [mbind option_bind]. intros [= <-].
  cbn [GPSLatitude GPSLongitude GPSLatitudeRef GPSLongitudeRef].
  split; eexists; (split; [reflexivity|]); repeat (split; [reflexivity|]).
  - destruct lat as [[]| | |[] ? ?]; try (now split);
      unfold to_deg in Hla; cbn in Hla; discriminate.
  - destruct lon as [[]| | |[] ? ?]; try (now split);
      unfold to_deg in Hlo; cbn in Hlo; discriminate.
Qed.

Lemma gps_block_mirror_witness :
  exists g,
    gps_block (SFopp (float_lit 377749 4)) (float_lit 1224194 4) = Some g
    /\ GPSLatitudeRef g = "S"
    /\ GPSLatitude g = [(37, 1); (46, 1); (2964, 100)].
Proof.
  assert (Hg : exists g0,
             gps_block (float_lit 377749 4) (float_lit 1224194 4) = Some g0
             /\ GPSLatitude g0 = [(37, 1); (46, 1); (2964, 100)]).
  { eexists. split; vm_compute; reflexivity. }
  destruct Hg as (g0 & Hg0 & Hlat).
  destruct (gps_block_mirror _ _ g0 Hg0) as [(g' & Hg' & H1 & _ & _ & H4) _].
  exists g'. split; [exact Hg'|]. split.
  - assert (Hf : float_lit 377749 4
                 = S754_finite false 5316344548873680 (-47))
      by (vm_compute; reflexivity).
    rewrite Hf in H4. exact (proj2 H4).
  - now rewrite H1.
Defined.
